(** * A memory game compiler for a tap-and-play device: model and properties

    The program under study ([memory.py]) reads a game description and emits a
    table of scripts, each script being one line or a list of lines of the
    playback device's guarded-command language, e.g.

      [$busy==0? $players<2? $busy:=1 J(idle) P(en_not_playing)]

    The development has five layers:
    - the generator as the program writes it: text built by concatenation;
    - the run of the program around the generator: what it reads from the
      template, where it stops, the speak entries, the codes and the fields
      of the board;
    - a structured view of the same lines (tokens) with a printer, and the
      proof that printing the structured program gives the generated text;
    - the two regular-expression passes of the program (register discovery
      and the play-mode rewrite) as scanners over text;
    - the properties of the generated program. *)

From Stdlib Require Import String Ascii List ZArith Lia Bool DecimalString DecimalNat.
From stdpp Require Import gmap strings.
Import ListNotations.
Local Open Scope string_scope.
Local Open Scope list_scope.

(** ** Text helpers *)

(** [dec n] is what an f-string prints for the integer [n]. *)
Definition dec (n : nat) : string := NilEmpty.string_of_uint (Nat.to_uint n).

(** [' '.join(l)] *)
Definition join (l : list string) : string := String.concat " " l.

(** [range(a, b)] *)
Definition range (a b : nat) : list nat := seq a (b - a).

(** ** The game definition *)

(** The fields of the input that the generator reads: [pairs],
    [maxPlayers], [alternativeSounds], [language] and the [welcome] entry.
    Counts are natural numbers. *)
Record config := Config {
  pairs : list string;
  players : nat;
  alternativeSounds : bool;
  lang : string;
  welcome : string
}.

(** A script is either a single line (a Python [str]) or a list of lines.
    The type of lines is a parameter: text for the generator, token lists
    for the structured view. *)
Inductive script (A : Type) :=
| Str (s : A)
| Lines (ls : list A).
Arguments Str {A} s.
Arguments Lines {A} ls.

(** The lines of a script as the play-mode pass and the device see them. *)
Definition script_lines {A} (s : script A) : list A :=
  match s with
  | Str s => [s]
  | Lines ls => ls
  end.

Definition script_map {A B} (f : A -> B) (s : script A) : script B :=
  match s with
  | Str s => Str (f s)
  | Lines ls => Lines (map f ls)
  end.

(** A script table in insertion order (a Python [dict]). *)
Definition table (A : Type) : Type := list (string * script A).

Definition table_map {A B} (f : A -> B) (t : table A) : table B :=
  map (fun e => (fst e, script_map f (snd e))) t.

(** Every line of every script of a table. *)
Definition table_lines {A} (t : table A) : list A :=
  concat (map (fun e => script_lines (snd e)) t).

(** Python iterates a [str] character by character and a list element by
    element; the register scan below iterates every script this way. *)
Definition chars (s : string) : list string :=
  map (fun c => String c EmptyString) (list_ascii_of_string s).

Definition iter_script (s : script string) : list string :=
  match s with
  | Str s => chars s
  | Lines ls => ls
  end.

(** ** Regular expressions

    The program uses four patterns, all through [findall] or [sub]. A
    pattern is represented by its matcher at the start of a text: the
    captured value and the text after the match, or [None]. Python scans
    from left to right, takes the first match at the leftmost position and
    resumes after it; a position without a match is passed over. *)

Module Re.

Section Scan.
Context {A : Type}.
Variable m : string -> option (A * string).

(** The text cut into matches and passed-over characters. One unit of
    [fuel] is used per item; the length of the text plus one is enough,
    since every pattern below consumes at least one character. *)
Fixpoint scan (fuel : nat) (s : string) : list (A + ascii) :=
  match fuel with
  | O => []
  | S fuel =>
      match m s with
      | Some (a, rest) => inl a :: scan fuel rest
      | None =>
          match s with
          | EmptyString => []
          | String c s' => inr c :: scan fuel s'
          end
      end
  end.

Definition items (s : string) : list (A + ascii) := scan (S (String.length s)) s.

(** [re.findall] *)
Definition findall (s : string) : list A :=
  omap (fun x => match x with inl a => Some a | inr _ => None end) (items s).

(** [re.sub], the replacement being computed from the captured value *)
Definition sub (repl : A -> string) (s : string) : string :=
  fold_right
    (fun x acc => match x with inl a => repl a +:+ acc | inr c => String c acc end)
    EmptyString (items s).

End Scan.

(** The longest prefix whose characters satisfy [p], and what follows: a
    greedy character class. None of the classes below can give back a
    character to the rest of its pattern, so greedy matching decides. *)
Fixpoint span (p : ascii -> bool) (s : string) : string * string :=
  match s with
  | EmptyString => (EmptyString, EmptyString)
  | String c s' =>
      if p c then let '(w, r) := span p s' in (String c w, r)
      else (EmptyString, s)
  end.

Definition in_range (lo hi c : ascii) : bool :=
  (nat_of_ascii lo <=? nat_of_ascii c)%nat && (nat_of_ascii c <=? nat_of_ascii hi)%nat.

(** [[0-9]] and [[a-zA-Z0-9]] *)
Definition is_digit (c : ascii) : bool := in_range "0" "9" c.
Definition is_alnum (c : ascii) : bool :=
  in_range "a" "z" c || in_range "A" "Z" c || in_range "0" "9" c.

(** [[^\)]] *)
Definition not_close (c : ascii) : bool := negb (Ascii.eqb c ")").

(** A literal prefix. *)
Fixpoint literal (p s : string) : option string :=
  match p with
  | EmptyString => Some s
  | String a p' =>
      match s with
      | String b s' => if Ascii.eqb a b then literal p' s' else None
      | EmptyString => None
      end
  end.

(** A character class repeated at least once. *)
Definition plus (p : ascii -> bool) (s : string) : option (string * string) :=
  match span p s with
  | (EmptyString, _) => None
  | (w, r) => Some (w, r)
  end.

(** [\$([a-zA-Z0-9]+)] *)
Definition var (s : string) : option (string * string) :=
  match literal "$" s with
  | Some s1 => plus is_alnum s1
  | None => None
  end.

(** [\$([a-zA-Z0-9]+):=([0-9]+)] *)
Definition assign (s : string) : option ((string * string) * string) :=
  match var s with
  | Some (name, s1) =>
      match literal ":=" s1 with
      | Some s2 =>
          match plus is_digit s2 with
          | Some (value, rest) => Some ((name, value), rest)
          | None => None
          end
      | None => None
      end
  | None => None
  end.

(** [ P\(nop\)] *)
Definition nop (s : string) : option (unit * string) :=
  match literal " P(nop)" s with
  | Some rest => Some (tt, rest)
  | None => None
  end.

(** [X\([^\)]+\)] for a letter [X]: the matched text and the rest *)
Definition call (x : string) (s : string) : option (string * string) :=
  match literal (x +:+ "(") s with
  | Some s1 =>
      match plus not_close s1 with
      | Some (arg, s2) =>
          match literal ")" s2 with
          | Some rest => Some (x +:+ "(" +:+ arg +:+ ")", rest)
          | None => None
          end
      | None => None
      end
  | None => None
  end.

(** [(J\([^\)]+\)) (P\([^\)]+\))]: groups 1 and 2 *)
Definition jump (s : string) : option ((string * string) * string) :=
  match call "J" s with
  | Some (j, s1) =>
      match literal " " s1 with
      | Some s2 =>
          match call "P" s2 with
          | Some (p, rest) => Some ((j, p), rest)
          | None => None
          end
      | None => None
      end
  | None => None
  end.

End Re.

(** ** Dictionaries that keep insertion order

    The register table [variables] is a Python [dict] whose iteration order
    decides the restart batches: a list of entries with distinct keys. *)

Definition dict : Type := list (string * string).

Definition dict_mem (k : string) (d : dict) : bool :=
  existsb (fun e => String.eqb (fst e) k) d.

(** [d[k] = v]: replaces the value of a present key in place, appends an
    absent one. *)
Fixpoint dict_set (d : dict) (k v : string) : dict :=
  match d with
  | [] => [(k, v)]
  | (k', v') :: d' =>
      if String.eqb k' k then (k, v) :: d' else (k', v') :: dict_set d' k v
  end.

(** [del d[k]]: [None] stands for the [KeyError] of an absent key. *)
Definition dict_del (d : dict) (k : string) : option dict :=
  if dict_mem k d then Some (List.filter (fun e => negb (String.eqb (fst e) k)) d)
  else None.

(** ** The generator, as text *)

Module Text.
Section Generator.

Variable cfg : config.

Definition numPairs : nat := length (pairs cfg).
Definition numCards : nat := numPairs * 2.

Let L : string := lang cfg.

(** [game['init']] *)
Definition init : string :=
  join (map (fun x => "$c" +:+ dec x +:+ ":=" +:+ dec (x + 1)) (range 0 numCards))
  +:+ " $remaining:=" +:+ dec numPairs +:+ " $player:=1".

(** [sound(card)]: the narration name of a card. The generator calls it
    for cards 1..numCards only, where both list accesses are in range (see
    [sound_in_range]); the default of [nth] is never reached there. *)
Definition sound (card : nat) : string :=
  if (card <=? numPairs)%nat then
    let p := nth (card - 1) (pairs cfg) "" in
    if alternativeSounds cfg then p +:+ "_a" else p
  else
    let p := nth (numCards - card) (pairs cfg) "" in
    if alternativeSounds cfg then p +:+ "_b" else p.

Definition idle : string := "$busy:=0".

(** [scripts[f'p{p}']] *)
Definition player_script (p : nat) : list string :=
  [ "$players==0? $players:=" +:+ dec p
      +:+ " $busy:=1 T($random, 65535) J(shuffle) P(" +:+ L +:+ "_shuffle)";
    "$busy==0? $players<" +:+ dec p
      +:+ "? $busy:=1 J(idle) P(" +:+ L +:+ "_not_playing)" ]
  ++ map (fun pa =>
            "$busy==0? $pairs" +:+ dec p +:+ "==" +:+ dec pa
              +:+ "? $busy:=1 J(idle) P(" +:+ L +:+ "_pairs" +:+ dec pa +:+ ")")
         (range 0 (numPairs + 1)).

(** The [compare] prefix of a winner line: one strict comparison per other
    player, accumulated by the inner loop. *)
Definition compare (player : nat) : string :=
  fold_left
    (fun acc other =>
       if (player =? other)%nat then acc
       else acc +:+ "$pairs" +:+ dec player +:+ ">$pairs" +:+ dec other +:+ "? ")
    (range 1 (players cfg + 1)) "$busy==0? ".

(** [scripts['q']] *)
Definition question : list string :=
  [ "$busy==0? $players==0? $busy:=1 J(idle) P(" +:+ L +:+ "_not_started)" ]
  ++ map (fun p =>
            "$busy==0? $remaining>0? $player==" +:+ dec p
              +:+ "? $busy:=1 J(idle) P(" +:+ L +:+ "_player" +:+ dec p +:+ ")")
         (range 1 (players cfg + 1))
  ++ map (fun player =>
            compare player
              +:+ "$busy:=1 J(idle) P(" +:+ L +:+ "_winner" +:+ dec player +:+ ")")
         (range 1 (players cfg + 1))
  ++ [ "$busy==0? $busy:=1 J(idle) P(" +:+ L +:+ "_draw)" ].

(** [scripts['r']] *)
Definition repeat_script : list string :=
  [ "$busy==0? $remaining==0? $busy:=1 J(restart0) P(nop)" ]
  ++ map (fun c =>
            "$busy==0? $lastCard==" +:+ dec c
              +:+ "? $busy:=1 J(idle) P(" +:+ sound c +:+ ")")
         (range 1 (numCards + 1)).

(** [scripts['shuffle']] *)
Definition shuffle : string :=
  "$random*=25173 $random+=13849 $rnd:=$random $pos:=$rnd $pos%=" +:+ dec numCards
    +:+ " $rnd/=" +:+ dec numCards +:+ " J(shuffle0) P(nop)".

(** The regeneration line at the head of [shuffle{pos1}]. *)
Definition shuffle_guard (pos1 : nat) : string :=
  "$rnd<" +:+ dec (10 * (numCards - pos1 - 1))
    +:+ "? $random*=25173 $random+=13849 $rnd:=$random J(shuffle" +:+ dec pos1
    +:+ ") P(nop)".

(** One line of the inner loop of [shuffle{pos1}]: the string [swap]. *)
Definition shuffle_line (pos1 pos2 : nat) : string :=
  let swap := "$pos==" +:+ dec (pos2 - pos1) +:+ "? " in
  let swap :=
    if (pos1 =? pos2)%nat then swap
    else swap +:+ "$t:=$c" +:+ dec pos1 +:+ " $c" +:+ dec pos1 +:+ ":=$c" +:+ dec pos2
              +:+ " $c" +:+ dec pos2 +:+ ":=$t " in
  if (pos1 =? numCards - 2)%nat then
    swap +:+ "P(" +:+ L +:+ "_start) J(idle) P(" +:+ L +:+ "_player1)"
  else
    swap +:+ "$pos:=$rnd $pos%=" +:+ dec (numCards - pos1 - 1)
         +:+ " $rnd/=" +:+ dec (numCards - pos1 - 1)
         +:+ " J(shuffle" +:+ dec (pos1 + 1) +:+ ") P(nop)".

(** [scripts[f'shuffle{pos1}']] *)
Definition shuffle_state (pos1 : nat) : list string :=
  (if (pos1 <? numCards - 2)%nat then [shuffle_guard pos1] else [])
  ++ map (shuffle_line pos1) (range pos1 numCards).

(** [scripts['c{c}']] *)
Definition card_script (c : nat) : list string :=
  [ "$players==0? P(" +:+ L +:+ "_not_started)";
    "$remaining==0? P(" +:+ L +:+ "_finished)";
    "$busy==0? $c" +:+ dec c +:+ "==0? $busy:=1 J(idle) P(" +:+ L +:+ "_empty)";
    "$busy==0? $card1==0? $card1:=$c" +:+ dec c +:+ " $pos1:=" +:+ dec c
      +:+ " $lastCard:=$c" +:+ dec c +:+ " $lastPos:=" +:+ dec c
      +:+ " $busy:=1 J(firstCard) P(nop)";
    "$busy==0? $card1==$c" +:+ dec c +:+ "? $busy:=1 J(firstCard) P(nop)";
    "$busy==0? $card1!=$c" +:+ dec c +:+ "? $card2:=$c" +:+ dec c +:+ " $pos2:=" +:+ dec c
      +:+ " $lastCard:=$c" +:+ dec c +:+ " $lastPos:=" +:+ dec c
      +:+ " $busy:=1 J(secondCard) P(nop)" ].

(** [scripts['firstCard']] *)
Definition firstCard : list string :=
  map (fun c => "$card1==" +:+ dec c +:+ "? J(idle) P(" +:+ sound c +:+ ")")
      (range 1 (numCards + 1)).

(** [scripts['secondCard']] *)
Definition secondCard : list string :=
  map (fun c =>
         "$card2==" +:+ dec c
           +:+ "? $sum:=$card1 $sum+=$card2 $card1:=0 $card2:=0 J(test) P("
           +:+ sound c +:+ ")")
      (range 1 (numCards + 1)).

(** [scripts['test']] *)
Definition test : list string :=
  map (fun p =>
         "$sum==" +:+ dec (numCards + 1) +:+ "? $player==" +:+ dec p
           +:+ "? $pairs" +:+ dec p +:+ "+=1 $remaining-=1 J(clear1) P(" +:+ L +:+ "_match)")
      (range 1 (players cfg + 1))
  ++ [ "$player==$players? $player:=1 J(idle) P(" +:+ L +:+ "_player1)" ]
  ++ map (fun p =>
            "$player==" +:+ dec p +:+ "? $player+=1 J(idle) P(" +:+ L +:+ "_player"
              +:+ dec (p + 1) +:+ ")")
         (range 1 (players cfg)).

(** [scripts['clear1']] and [scripts['clear2']] *)
Definition clear1 : list string :=
  [ "$remaining==0? $busy:=0 J(q) P(" +:+ L +:+ "_finished)" ]
  ++ map (fun c =>
            "$pos1==" +:+ dec c +:+ "? $c" +:+ dec c +:+ ":=0 $pos1:=0 J(clear2) P(nop)")
         (range 0 numCards).

Definition clear2 : list string :=
  map (fun c =>
         "$pos2==" +:+ dec c +:+ "? $c" +:+ dec c +:+ ":=0 $pos2:=0 J(idle) P("
           +:+ L +:+ "_continue)")
      (range 0 numCards).

(** The script table as it stands when the register scan starts, in
    insertion order. All names are distinct ([script_names_nodup]
    below), so no assignment replaces an earlier entry. *)
Definition base_scripts : table string :=
  [ ("idle", Str idle) ]
  ++ map (fun p => ("p" +:+ dec p, Lines (player_script p))) (range 1 (players cfg + 1))
  ++ [ ("q", Lines question); ("r", Lines repeat_script); ("shuffle", Str shuffle) ]
  ++ map (fun pos1 => ("shuffle" +:+ dec pos1, Lines (shuffle_state pos1)))
         (range 0 (numCards - 1))
  ++ map (fun c => ("c" +:+ dec c, Lines (card_script c))) (range 0 numCards)
  ++ [ ("firstCard", Lines firstCard); ("secondCard", Lines secondCard);
       ("test", Lines test); ("clear1", Lines clear1); ("clear2", Lines clear2) ].

(** *** Register discovery and the restart chain *)

(** The assignments of the initialisation line, then every register named
    in a line of a script, with initial value 0 unless already recorded.
    The values are kept as printed. *)
Definition init_variables : dict :=
  fold_left (fun vars a => dict_set vars (fst a) (snd a))
            (Re.findall Re.assign init) [].

Definition note_register (vars : dict) (o : string) : dict :=
  if dict_mem o vars then vars else dict_set vars o "0".

Definition note_registers (vars : dict) (line : string) : dict :=
  fold_left note_register (Re.findall Re.var line) vars.

Definition scan_script (vars : dict) (script : script string) : dict :=
  fold_left note_registers (iter_script script) vars.

Definition scan_scripts (vars : dict) (scripts : table string) : dict :=
  fold_left scan_script (map snd scripts) vars.

(** [variables], after [del variables['busy']] *)
Definition variables : option dict :=
  dict_del (scan_scripts init_variables base_scripts) "busy".

(** The state of the batching loop: [count], [cmd], [i] and the restart
    scripts written so far. *)
Definition restart_step (st : nat * string * nat * table string)
    (variable : string * string) : nat * string * nat * table string :=
  let '(count, cmd, i, out) := st in
  let '(count, cmd, i, out) :=
    if (count =? 6)%nat then
      (0, "", i + 1,
       out ++ [("restart" +:+ dec i,
                Str (cmd +:+ "J(restart" +:+ dec (i + 1) +:+ ") P(nop)"))])
    else (count, cmd, i, out) in
  (count + 1, cmd +:+ "$" +:+ fst variable +:+ ":=" +:+ snd variable +:+ " ", i, out).

Definition restart_scripts (vars : dict) : table string :=
  let '(count, cmd, i, out) := fold_left restart_step vars (0, "", 0, []) in
  out ++ [("restart" +:+ dec i, Str (cmd +:+ "J(idle) P(" +:+ welcome cfg +:+ ")"))].

(** [game['scripts']]: the complete table. [None] if the deletion of
    [busy] fails; [scripts_total] shows that it never does. *)
Definition scripts : option (table string) :=
  match variables with
  | Some vars => Some (base_scripts ++ restart_scripts vars)
  | None => None
  end.

(** *** Script codes *)

(** [if not k in codes: codes[k] = v] *)
Definition set_absent (k : string) (v : Z) (codes : gmap string Z) : gmap string Z :=
  match codes !! k with
  | Some _ => codes
  | None => <[k := v]> codes
  end.

(** The three numbering loops; the running [code] is threaded with the
    table. The first argument of [assign_codes] is the table as generated,
    the second the [scriptcodes] entry of the input, if any. *)
Definition player_codes (st : Z * gmap string Z) (p : nat) : Z * gmap string Z :=
  let code := (fst st + 1)%Z in
  (code, set_absent ("p" +:+ dec (p + 1)) code (snd st)).

Definition card_codes (st : Z * gmap string Z) (c : nat) : Z * gmap string Z :=
  ((fst st + 1)%Z, set_absent ("c" +:+ dec c) (fst st) (snd st)).

Definition other_codes (st : Z * gmap string Z) (name : string) : Z * gmap string Z :=
  match snd st !! name with
  | Some _ => st
  | None => ((fst st + 1)%Z, <[name := fst st]> (snd st))
  end.

(** The table after the question, repeat, player and card codes. *)
Definition fixed_codes (scriptcodes : option (gmap string Z)) : gmap string Z :=
  let codes := match scriptcodes with Some c => c | None => ∅ end in
  let codes := set_absent "q" 2000 codes in
  let codes := set_absent "r" 2001 codes in
  let codes := snd (fold_left player_codes (range 0 (players cfg)) (2001%Z, codes)) in
  snd (fold_left card_codes (range 0 numCards) (3000%Z, codes)).

(** [game['scriptcodes']] *)
Definition assign_codes (scripts : table string) (scriptcodes : option (gmap string Z))
    : gmap string Z :=
  snd (fold_left other_codes (map fst scripts) (4000%Z, fixed_codes scriptcodes)).

End Generator.

(** *** The play-mode pass *)

(** [nop.sub('', l)] and [jump.sub(r'\2 \1', l)] *)
Definition remove_nops (l : string) : string := Re.sub Re.nop (fun _ => "") l.

Definition swap_jump_play (l : string) : string :=
  Re.sub Re.jump (fun g => snd g +:+ " " +:+ fst g) l.

Definition play_line (l : string) : string := swap_jump_play (remove_nops l).

Definition play_scripts (scripts : table string) : table string :=
  table_map play_line scripts.

End Text.

(** [drawOid]: the file of the cache directory that holds the image of a
    code for the given resolution and pixel size. *)
Definition oid_path (oid dpi pixelSize : nat) : string :=
  "oid-cache/oid-" +:+ dec oid +:+ "-" +:+ dec dpi +:+ "dpi-" +:+ dec pixelSize
    +:+ "px.png".

(** ** The run of the generator

    The program as a whole: what it reads from the template, where it
    stops, and what it writes. *)

(** [s.replace(old, new)] for a non-empty [old]: every occurrence, from
    left to right, without overlap. *)
Definition replace (old new s : string) : string :=
  Re.sub (fun t => option_map (fun r => (tt, r)) (Re.literal old t)) (fun _ => new) s.

(** [old in s] *)
Fixpoint contains (old s : string) : bool :=
  match Re.literal old s with
  | Some _ => true
  | None =>
      match s with
      | EmptyString => false
      | String _ s' => contains old s'
      end
  end.

(** The template: the entries of the input file that the program reads,
    each of which may be missing. The entries are taken to have the types
    the program expects (numbers, strings, a list of strings, maps with
    string keys). *)
Module Template.

Record memory := Memory {
  maxPlayers : option nat;
  pairs : option (list string);
  alternativeSounds : option bool;
  pixelSize : option nat;
  dpi : option nat;
  outputFile : option string;
  outputImage : option string
}.

Record game := Game {
  memory_section : option memory;
  product_id : option nat;
  language : option string;
  welcome : option string;
  speak : option (gmap string string);
  media_path : option string;
  scriptcodes : option (gmap string Z)
}.

(** [game['memory'] = {}] *)
Definition no_settings : memory := Memory None None None None None None None.

End Template.

(** What the program writes to the output file. *)
Record generated := Generated {
  out_file : string;
  out_init : string;
  out_scripts : table string;
  out_speak : option (gmap string string);
  out_scriptcodes : gmap string Z
}.

(** The ways the program stops early: a message followed by
    [sys.exit(1)], or an exception. *)
Inductive exit_reason := InvalidInput | NoProductId | SameOutputFile | SameOutputImage.

Inductive failure :=
| Exit (reason : exit_reason)
| KeyError (key : string)
| TypeError.

Inductive outcome (A : Type) :=
| Done (a : A)
| Fails (f : failure).
Arguments Done {A} a.
Arguments Fails {A} f.

Definition extensions : list string := [".wav"; ".ogg"; ".flac"; ".mp3"].

(** [if not key in speak: speak[key] = text] *)
Definition speak_entry (speak : gmap string string) (key text : string)
    : gmap string string :=
  match speak !! key with
  | Some _ => speak
  | None => <[key := text]> speak
  end.

(** The body of the loop over the pairs. *)
Definition speak_pair (alt : bool) (speak : gmap string string) (p : string)
    : gmap string string :=
  if alt then speak_entry (speak_entry speak (p +:+ "_a") p) (p +:+ "_b") p
  else speak_entry speak p p.

Section Run.

(** [os.path.isfile], [args.template] and [args.play] *)
Variable isfile : string -> bool.
Variable template : string.
Variable play : bool.

(** Some file [mediaPath.replace('%s', s + ext)] exists. *)
Definition has_audio (mediaPath s : string) : bool :=
  existsb (fun ext => isfile (replace "%s" (s +:+ ext) mediaPath)) extensions.

(** The body of the loop over [list(game['speak'])]: [del game['speak'][s]]
    when an audio file exists. *)
Definition drop_recorded (mediaPath : string) (speak : outcome (gmap string string))
    (s : string) : outcome (gmap string string) :=
  match speak with
  | Done d =>
      if has_audio mediaPath s then
        match d !! s with
        | Some _ => Done (delete s d)
        | None => Fails (KeyError s)
        end
      else Done d
  | Fails f => Fails f
  end.

(** The speak entries. Without a [speak] entry in the template, [speak] is
    the list [[]]: the assignment for the first pair raises [TypeError], and
    without pairs the lookup [game['speak']] raises [KeyError]. With one,
    [speak] and [game['speak']] are the same map. *)
Definition speak_entries (game : Template.game) (prs : list string) (alt : bool)
    : outcome (option (gmap string string)) :=
  match Template.speak game with
  | None =>
      match prs with
      | _ :: _ => Fails TypeError
      | [] => Fails (KeyError "speak")
      end
  | Some d =>
      let speak := fold_left (speak_pair alt) prs d in
      let mediaPath := default "media/%s" (Template.media_path game) in
      match fold_left (drop_recorded mediaPath) (map fst (map_to_list speak)) (Done speak) with
      | Done speak => Done (if (size speak =? 0)%nat then None else Some speak)
      | Fails f => Fails f
      end
  end.

Definition output_file (memory : Template.memory) : string :=
  default (replace ".yaml" "-generated.yaml" template) (Template.outputFile memory).

Definition output_image (memory : Template.memory) : string :=
  let pixelSize := default 2 (Template.pixelSize memory) in
  let dpi := default 1200 (Template.dpi memory) in
  default (replace ".yaml" ("-" +:+ dec dpi +:+ "dpi-" +:+ dec pixelSize +:+ "mm.png") template)
          (Template.outputImage memory).

(** The settings of the generator, the welcome narration apart. *)
Definition settings (memory : Template.memory) (game : Template.game) (prs : list string)
    (w : string) : config :=
  Config prs (default 4 (Template.maxPlayers memory))
         (default false (Template.alternativeSounds memory))
         (default "en" (Template.language game)) w.

(** The program up to the writing of the output file; [None] is an input
    that is not a map. The register table does not depend on the welcome
    narration, which is looked up after the table is complete. *)
Definition run (doc : option Template.game) : outcome generated :=
  match doc with
  | None => Fails (Exit InvalidInput)
  | Some game =>
      let memory := default Template.no_settings (Template.memory_section game) in
      match Template.product_id game with
      | None => Fails (Exit NoProductId)
      | Some _ =>
          match Template.pairs memory with
          | None => Fails (KeyError "pairs")
          | Some prs =>
              if String.eqb (output_file memory) template then Fails (Exit SameOutputFile)
              else if String.eqb (output_image memory) template
              then Fails (Exit SameOutputImage)
              else
                match Template.welcome game with
                | None =>
                    match Text.variables (settings memory game prs "") with
                    | None => Fails (KeyError "busy")
                    | Some _ => Fails (KeyError "welcome")
                    end
                | Some w =>
                    let cfg := settings memory game prs w in
                    match Text.scripts cfg with
                    | None => Fails (KeyError "busy")
                    | Some scripts =>
                        match speak_entries game prs (alternativeSounds cfg) with
                        | Fails f => Fails f
                        | Done speak =>
                            let codes :=
                              Text.assign_codes cfg scripts (Template.scriptcodes game) in
                            let scripts :=
                              if play then Text.play_scripts scripts else scripts in
                            Done (Generated (output_file memory) (Text.init cfg)
                                            scripts speak codes)
                        end
                    end
                end
          end
      end
  end.

End Run.

(** The fields of the board that carry a code: [drawOid] with the product
    id, [drawScriptOid] with the name of a script, whose code it looks up
    in [codes]. *)
Inductive oid :=
| ProductOid
| ScriptOid (name : string).

(** The header row: the loop over [range(players + 3)]. *)
Definition header_oids (players : nat) : list oid :=
  map (fun c =>
         if (c =? 0)%nat then ProductOid
         else if (c <=? players)%nat then ScriptOid ("p" +:+ dec c)
         else if (c =? players + 1)%nat then ScriptOid "q"
         else ScriptOid "r")
      (range 0 (players + 3)).

(** The card fields: the loops over [range(rows)] and [range(cols)]. *)
Definition card_oids (rows cols numCards : nat) : list oid :=
  flat_map
    (fun r =>
       flat_map
         (fun c =>
            if (c + r * cols <? numCards)%nat
            then [ScriptOid ("c" +:+ dec (r * cols + c))]
            else [])
         (range 0 cols))
    (range 0 rows).

(** ** Lines as token sequences

    A generated line is a sequence of tokens separated by single spaces:
    conditions [$r==x?], commands [$r:=x], the timer command, jumps [J(s)]
    and narration plays [P(s)]. Literal operands are kept as printed. *)

Inductive operand :=
| Reg (r : string)
| Lit (digits : string).

Inductive cmp := CEq | CLt | CGt | CNe.

Inductive aop := ASet | AAdd | ASub | AMul | ADiv | AMod.

Inductive token :=
| Cond (r : string) (c : cmp) (o : operand)
| Cmd (r : string) (a : aop) (o : operand)
| Timer (r : string) (o : operand)
| Jump (target : string)
| Play (name : string).

Definition line : Type := list token.

Definition Num (n : nat) : operand := Lit (dec n).

Definition show_operand (o : operand) : string :=
  match o with
  | Reg r => "$" +:+ r
  | Lit d => d
  end.

Definition show_cmp (c : cmp) : string :=
  match c with CEq => "==" | CLt => "<" | CGt => ">" | CNe => "!=" end.

Definition show_aop (a : aop) : string :=
  match a with
  | ASet => ":=" | AAdd => "+=" | ASub => "-=" | AMul => "*=" | ADiv => "/=" | AMod => "%="
  end.

Definition show_token (t : token) : string :=
  match t with
  | Cond r c o => "$" +:+ r +:+ show_cmp c +:+ show_operand o +:+ "?"
  | Cmd r a o => "$" +:+ r +:+ show_aop a +:+ show_operand o
  | Timer r o => "T($" +:+ r +:+ ", " +:+ show_operand o +:+ ")"
  | Jump s => "J(" +:+ s +:+ ")"
  | Play s => "P(" +:+ s +:+ ")"
  end.

Definition show_line (l : line) : string := join (map show_token l).

Definition show_table (t : table line) : table string := table_map show_line t.

Definition is_cond (t : token) : bool :=
  match t with Cond _ _ _ => true | _ => false end.

Definition is_jump (t : token) : bool :=
  match t with Jump _ => true | _ => false end.

(** A token sequence printed with a space after every token: what the
    accumulating strings [compare], [swap] and [cmd] of the generator hold. *)
Definition show_prefix (l : line) : string :=
  fold_right (fun t acc => show_token t +:+ " " +:+ acc) "" l.

(** The two counts of a line: all tokens, and the tokens that are not
    conditions (commands, jumps and plays). *)
Definition token_count (l : line) : nat := length l.
Definition command_count (l : line) : nat := length (List.filter (fun t => negb (is_cond t)) l).

(** ** The generator, as token sequences

    The same generator, definition by definition, with every line given as
    its tokens. [show_scripts] below proves that printing this program
    gives exactly the text of [Text.scripts]. *)

Module Prog.
Section Generator.

Variable cfg : config.

Let numPairs : nat := Text.numPairs cfg.
Let numCards : nat := Text.numCards cfg.
Let L : string := lang cfg.
Let sound : nat -> string := Text.sound cfg.

Definition idle : line := [Cmd "busy" ASet (Num 0)].

Definition player_script (p : nat) : list line :=
  [ [Cond "players" CEq (Num 0); Cmd "players" ASet (Num p); Cmd "busy" ASet (Num 1);
     Timer "random" (Lit "65535"); Jump "shuffle"; Play (L +:+ "_shuffle")];
    [Cond "busy" CEq (Num 0); Cond "players" CLt (Num p); Cmd "busy" ASet (Num 1);
     Jump "idle"; Play (L +:+ "_not_playing")] ]
  ++ map (fun pa =>
            [Cond "busy" CEq (Num 0); Cond ("pairs" +:+ dec p) CEq (Num pa);
             Cmd "busy" ASet (Num 1); Jump "idle"; Play (L +:+ "_pairs" +:+ dec pa)])
         (range 0 (numPairs + 1)).

Definition compare (player : nat) : line :=
  fold_left
    (fun acc other =>
       if (player =? other)%nat then acc
       else acc ++ [Cond ("pairs" +:+ dec player) CGt (Reg ("pairs" +:+ dec other))])
    (range 1 (players cfg + 1)) [Cond "busy" CEq (Num 0)].

Definition not_started_line : line :=
  [Cond "busy" CEq (Num 0); Cond "players" CEq (Num 0); Cmd "busy" ASet (Num 1);
   Jump "idle"; Play (L +:+ "_not_started")].

Definition turn_line (p : nat) : line :=
  [Cond "busy" CEq (Num 0); Cond "remaining" CGt (Num 0); Cond "player" CEq (Num p);
   Cmd "busy" ASet (Num 1); Jump "idle"; Play (L +:+ "_player" +:+ dec p)].

Definition winner_line (player : nat) : line :=
  compare player
  ++ [Cmd "busy" ASet (Num 1); Jump "idle"; Play (L +:+ "_winner" +:+ dec player)].

Definition draw_line : line :=
  [Cond "busy" CEq (Num 0); Cmd "busy" ASet (Num 1); Jump "idle"; Play (L +:+ "_draw")].

Definition question : list line :=
  [ not_started_line ]
  ++ map turn_line (range 1 (players cfg + 1))
  ++ map winner_line (range 1 (players cfg + 1))
  ++ [ draw_line ].

Definition repeat_script : list line :=
  [ [Cond "busy" CEq (Num 0); Cond "remaining" CEq (Num 0); Cmd "busy" ASet (Num 1);
     Jump "restart0"; Play "nop"] ]
  ++ map (fun c =>
            [Cond "busy" CEq (Num 0); Cond "lastCard" CEq (Num c); Cmd "busy" ASet (Num 1);
             Jump "idle"; Play (sound c)])
         (range 1 (numCards + 1)).

(** The linear-congruential step of the shuffle. *)
Definition lcg : line :=
  [Cmd "random" AMul (Lit "25173"); Cmd "random" AAdd (Lit "13849");
   Cmd "rnd" ASet (Reg "random")].

(** Draw the next position: [$pos:=$rnd $pos%=n $rnd/=n]. *)
Definition draw (n : nat) : line :=
  [Cmd "pos" ASet (Reg "rnd"); Cmd "pos" AMod (Num n); Cmd "rnd" ADiv (Num n)].

Definition shuffle : line :=
  lcg ++ draw numCards ++ [Jump "shuffle0"; Play "nop"].

Definition shuffle_guard (pos1 : nat) : line :=
  [Cond "rnd" CLt (Num (10 * (numCards - pos1 - 1)))]
  ++ lcg ++ [Jump ("shuffle" +:+ dec pos1); Play "nop"].

(** Exchange the board slots [pos1] and [pos2] through [$t]. *)
Definition swap_slots (pos1 pos2 : nat) : line :=
  [Cmd "t" ASet (Reg ("c" +:+ dec pos1));
   Cmd ("c" +:+ dec pos1) ASet (Reg ("c" +:+ dec pos2));
   Cmd ("c" +:+ dec pos2) ASet (Reg "t")].

Definition start_game : line :=
  [Play (L +:+ "_start"); Jump "idle"; Play (L +:+ "_player1")].

Definition shuffle_line (pos1 pos2 : nat) : line :=
  let swap := [Cond "pos" CEq (Num (pos2 - pos1))] in
  let swap := if (pos1 =? pos2)%nat then swap else swap ++ swap_slots pos1 pos2 in
  if (pos1 =? numCards - 2)%nat then swap ++ start_game
  else swap ++ draw (numCards - pos1 - 1)
            ++ [Jump ("shuffle" +:+ dec (pos1 + 1)); Play "nop"].

Definition shuffle_state (pos1 : nat) : list line :=
  (if (pos1 <? numCards - 2)%nat then [shuffle_guard pos1] else [])
  ++ map (shuffle_line pos1) (range pos1 numCards).

Definition card_script (c : nat) : list line :=
  let slot := Reg ("c" +:+ dec c) in
  [ [Cond "players" CEq (Num 0); Play (L +:+ "_not_started")];
    [Cond "remaining" CEq (Num 0); Play (L +:+ "_finished")];
    [Cond "busy" CEq (Num 0); Cond ("c" +:+ dec c) CEq (Num 0); Cmd "busy" ASet (Num 1);
     Jump "idle"; Play (L +:+ "_empty")];
    [Cond "busy" CEq (Num 0); Cond "card1" CEq (Num 0);
     Cmd "card1" ASet slot; Cmd "pos1" ASet (Num c);
     Cmd "lastCard" ASet slot; Cmd "lastPos" ASet (Num c);
     Cmd "busy" ASet (Num 1); Jump "firstCard"; Play "nop"];
    [Cond "busy" CEq (Num 0); Cond "card1" CEq slot; Cmd "busy" ASet (Num 1);
     Jump "firstCard"; Play "nop"];
    [Cond "busy" CEq (Num 0); Cond "card1" CNe slot;
     Cmd "card2" ASet slot; Cmd "pos2" ASet (Num c);
     Cmd "lastCard" ASet slot; Cmd "lastPos" ASet (Num c);
     Cmd "busy" ASet (Num 1); Jump "secondCard"; Play "nop"] ].

Definition firstCard : list line :=
  map (fun c => [Cond "card1" CEq (Num c); Jump "idle"; Play (sound c)])
      (range 1 (numCards + 1)).

Definition secondCard : list line :=
  map (fun c =>
         [Cond "card2" CEq (Num c);
          Cmd "sum" ASet (Reg "card1"); Cmd "sum" AAdd (Reg "card2");
          Cmd "card1" ASet (Num 0); Cmd "card2" ASet (Num 0);
          Jump "test"; Play (sound c)])
      (range 1 (numCards + 1)).

Definition match_line (p : nat) : line :=
  [Cond "sum" CEq (Num (numCards + 1)); Cond "player" CEq (Num p);
   Cmd ("pairs" +:+ dec p) AAdd (Num 1); Cmd "remaining" ASub (Num 1);
   Jump "clear1"; Play (L +:+ "_match")].

Definition test : list line :=
  map match_line (range 1 (players cfg + 1))
  ++ [ [Cond "player" CEq (Reg "players"); Cmd "player" ASet (Num 1);
        Jump "idle"; Play (L +:+ "_player1")] ]
  ++ map (fun p =>
            [Cond "player" CEq (Num p); Cmd "player" AAdd (Num 1);
             Jump "idle"; Play (L +:+ "_player" +:+ dec (p + 1))])
         (range 1 (players cfg)).

Definition finished_line : line :=
  [Cond "remaining" CEq (Num 0); Cmd "busy" ASet (Num 0); Jump "q"; Play (L +:+ "_finished")].

Definition clear1 : list line :=
  [ finished_line ]
  ++ map (fun c =>
            [Cond "pos1" CEq (Num c); Cmd ("c" +:+ dec c) ASet (Num 0);
             Cmd "pos1" ASet (Num 0); Jump "clear2"; Play "nop"])
         (range 0 numCards).

Definition clear2 : list line :=
  map (fun c =>
         [Cond "pos2" CEq (Num c); Cmd ("c" +:+ dec c) ASet (Num 0);
          Cmd "pos2" ASet (Num 0); Jump "idle"; Play (L +:+ "_continue")])
      (range 0 numCards).

Definition base_scripts : table line :=
  [ ("idle", Str idle) ]
  ++ map (fun p => ("p" +:+ dec p, Lines (player_script p))) (range 1 (players cfg + 1))
  ++ [ ("q", Lines question); ("r", Lines repeat_script); ("shuffle", Str shuffle) ]
  ++ map (fun pos1 => ("shuffle" +:+ dec pos1, Lines (shuffle_state pos1)))
         (range 0 (numCards - 1))
  ++ map (fun c => ("c" +:+ dec c, Lines (card_script c))) (range 0 numCards)
  ++ [ ("firstCard", Lines firstCard); ("secondCard", Lines secondCard);
       ("test", Lines test); ("clear1", Lines clear1); ("clear2", Lines clear2) ].

(** The restart chain over the register table found by [Text.variables]. *)
Definition restart_step (st : nat * line * nat * table line)
    (variable : string * string) : nat * line * nat * table line :=
  let '(count, cmd, i, out) := st in
  let '(count, cmd, i, out) :=
    if (count =? 6)%nat then
      (0, [], i + 1,
       out ++ [("restart" +:+ dec i,
                Str (cmd ++ [Jump ("restart" +:+ dec (i + 1)); Play "nop"]))])
    else (count, cmd, i, out) in
  (count + 1, cmd ++ [Cmd (fst variable) ASet (Lit (snd variable))], i, out).

Definition restart_scripts (vars : dict) : table line :=
  let '(count, cmd, i, out) := fold_left restart_step vars (0, [], 0, []) in
  out ++ [("restart" +:+ dec i, Str (cmd ++ [Jump "idle"; Play (welcome cfg)]))].

Definition scripts : option (table line) :=
  match Text.variables cfg with
  | Some vars => Some (base_scripts ++ restart_scripts vars)
  | None => None
  end.

End Generator.
End Prog.


(** The play-mode pass on token sequences: plays of [nop] are dropped,
    except one that opens the line (the pattern starts with a space), and a
    jump directly followed by a play is exchanged with it. *)
Definition is_nop (t : token) : bool :=
  match t with Play s => String.eqb s "nop" | _ => false end.

Definition drop_nops (l : line) : line :=
  match l with
  | [] => []
  | t :: r => t :: List.filter (fun t => negb (is_nop t)) r
  end.

Fixpoint swap_jumps (l : line) : line :=
  match l with
  | Jump x :: Play y :: r => Play y :: Jump x :: swap_jumps r
  | t :: r => t :: swap_jumps r
  | [] => []
  end.

Definition play_tokens (l : line) : line := swap_jumps (drop_nops l).

(** A line on which the pass has nothing left to do. *)
Fixpoint jump_then_play (l : line) : bool :=
  match l with
  | Jump _ :: ((Play _ :: _) as r) => true
  | _ :: r => jump_then_play r
  | [] => false
  end.

Definition settled (l : line) : bool :=
  negb (existsb is_nop (tl l)) && negb (jump_then_play l).

(** ** How the device reads a script

    The interpreter is an external program and not part of the sources, so
    the definitions of this part follow the description of the target
    language. Only comparisons are given a meaning here. *)

(** Modelled from the spec: the registers are integer cells, addressed by
    name. *)
Definition store : Type := string -> Z.

(** Modelled from the spec: a literal operand is a decimal numeral. *)
Definition lit_value (d : string) : Z :=
  match NilEmpty.uint_of_string d with
  | Some u => Z.of_nat (Nat.of_uint u)
  | None => 0%Z
  end.

(** Modelled from the spec: an operand is a register or a literal. *)
Definition eval_operand (st : store) (o : operand) : Z :=
  match o with
  | Reg r => st r
  | Lit d => lit_value d
  end.

(** Modelled from the spec: the comparisons [==], [<], [>] and [!=]. *)
Definition eval_cmp (c : cmp) (x y : Z) : bool :=
  match c with
  | CEq => (x =? y)%Z
  | CLt => (x <? y)%Z
  | CGt => (y <? x)%Z
  | CNe => negb (x =? y)%Z
  end.

(** Modelled from the spec: a condition compares a register with an
    operand; commands impose nothing. *)
Definition holds (st : store) (t : token) : bool :=
  match t with
  | Cond r c o => eval_cmp c (st r) (eval_operand st o)
  | _ => true
  end.

(** Modelled from the spec: the conditions of a line are a conjunction. *)
Definition enabled (st : store) (l : line) : bool := forallb (holds st) l.

(** Modelled from the spec: the first line of a script whose conditions
    all hold is the one that fires. The result is its index, if any. *)
Fixpoint fire (st : store) (script : list line) : option nat :=
  match script with
  | [] => None
  | l :: rest => if enabled st l then Some 0%nat else option_map S (fire st rest)
  end.

(** ** Notions used by the statements *)

(** The position in [pairs] of the pair a card belongs to. *)
Definition pair_index (cfg : config) (card : nat) : nat :=
  if (card <=? Text.numPairs cfg)%nat then card - 1 else Text.numCards cfg - card.

(** The suffix [sound] appends to the pair identifier. *)
Definition sound_suffix (cfg : config) (card : nat) : string :=
  if alternativeSounds cfg then
    if (card <=? Text.numPairs cfg)%nat then "_a" else "_b"
  else "".

(** A name that can stand between the parentheses of [J(...)] or
    [P(...)]: not empty, without spaces and parentheses. *)
Definition name_char (c : ascii) : bool :=
  negb (Ascii.eqb c " ") && negb (Ascii.eqb c "(") && negb (Ascii.eqb c ")").

Definition name_ok (s : string) : bool :=
  negb (String.eqb s "") && forallb name_char (list_ascii_of_string s).

(** The language tag is a prefix of names and may be empty. *)
Definition names_ok (cfg : config) : bool :=
  forallb name_char (list_ascii_of_string (lang cfg))
  && forallb name_ok (pairs cfg)
  && name_ok (welcome cfg).

(** Register names and literals as the patterns of the register scan
    capture them. *)
Definition word_ok (s : string) : bool := forallb Re.is_alnum (list_ascii_of_string s).
Definition number_ok (s : string) : bool := forallb Re.is_digit (list_ascii_of_string s).

Definition operand_ok (o : operand) : bool :=
  match o with
  | Reg r => word_ok r
  | Lit d => number_ok d
  end.

(** A token whose text is lexically what its constructor says. *)
Definition token_ok (t : token) : bool :=
  match t with
  | Cond r _ o | Cmd r _ o | Timer r o => word_ok r && operand_ok o
  | Jump s | Play s => name_ok s
  end.

(** The entries of a register table: a register name and a literal. *)
Definition entry_ok (e : string * string) : bool :=
  word_ok (fst e) && number_ok (snd e) && negb (String.eqb (snd e) "").

(** The two batching loops (text and tokens) run in step. *)
Definition restart_states_agree (a : nat * line * nat * table line)
    (t : nat * string * nat * table string) : Prop :=
  let '(count, cmd, i, out) := a in
  t = (count, show_prefix cmd, i, show_table out).

(** The shape of a restart line over a register table: at most six
    assignments taken from the table, then a jump and a play, either to the
    next restart script or, at the end of the chain, to [idle] with the
    welcome narration. *)
Definition assign_token (e : string * string) : token := Cmd (fst e) ASet (Lit (snd e)).

Definition restart_line (cfg : config) (vars : dict) (l : line) : Prop :=
  exists batch x y,
    l = map assign_token batch ++ [Jump x; Play y]
    /\ length batch <= 6
    /\ (forall e, In e batch -> In e vars)
    /\ ((exists i, x = "restart" +:+ dec i /\ y = "nop")
        \/ (x = "idle" /\ y = welcome cfg)).

(** What the loop that writes the restart scripts maintains: at most six
    assignments in [cmd], all taken from the table, and well-shaped scripts
    written so far. *)
Definition restart_invariant (cfg : config) (vars : dict)
    (st : nat * line * nat * table line) : Prop :=
  let '(count, cmd, i, out) := st in
  (exists batch, cmd = map assign_token batch /\ length batch = count
                 /\ count <= 6 /\ forall e, In e batch -> In e vars)
  /\ (forall name s, In (name, s) out ->
        exists j l, name = "restart" +:+ dec j /\ s = Str l /\ restart_line cfg vars l).

(** A command that stores the literal 0 in [$busy]. *)
Definition clears_busy (t : token) : bool :=
  match t with
  | Cmd r ASet (Lit d) => String.eqb r "busy" && (lit_value d =? 0)%Z
  | _ => false
  end.

(** The literal operand of a division or modulus command, if the token is
    one; [Some None] stands for an operand that is not a literal. *)
Definition divisor (t : token) : option (option Z) :=
  match t with
  | Cmd _ ADiv o | Cmd _ AMod o =>
      Some (match o with Lit d => Some (lit_value d) | Reg _ => None end)
  | _ => None
  end.

(** A token that does not divide, or divides by a literal that is at
    least 2. *)
Definition divisor_ok (t : token) : Prop :=
  forall d, divisor t = Some d -> exists z, d = Some z /\ (2 <= z)%Z.

(** The name of a position-decision state: [shuffle] followed by a number. *)
Definition is_state_name (name : string) : bool :=
  match Re.literal "shuffle" name with
  | Some r => negb (String.eqb r "") && number_ok r
  | None => false
  end.

Definition is_cmd (t : token) : bool :=
  match t with Cmd _ _ _ => true | _ => false end.

(** A store that holds [v] in register [r] and 0 elsewhere. *)
Definition only (r : string) (v : Z) : store :=
  fun x => if String.eqb x r then v else 0%Z.

(** A store given by the registers that are not 0. *)
Definition store_of (l : list (string * Z)) : store :=
  fun r =>
    match find (fun e => String.eqb (fst e) r) l with
    | Some e => snd e
    | None => 0%Z
    end.

(** Player [k] holds strictly more pairs than every other player. *)
Definition leads (cfg : config) (st : store) (k : nat) : Prop :=
  forall j, 1 <= j <= players cfg -> j <> k ->
            (st ("pairs" +:+ dec j) < st ("pairs" +:+ dec k))%Z.

(** A name without a code in a table, and the names of a list that lack
    one, in order. *)
Definition lacks_code (codes : gmap string Z) (k : string) : bool :=
  match codes !! k with Some _ => false | None => true end.

Definition uncoded (codes : gmap string Z) (names : list string) : list string :=
  List.filter (lacks_code codes) names.

(** The names the code assignment can introduce. *)
Definition code_names (cfg : config) (scripts : table string) : list string :=
  ["q"; "r"]
  ++ map (fun p => "p" +:+ dec (p + 1)) (range 0 (players cfg))
  ++ map (fun c => "c" +:+ dec c) (range 0 (Text.numCards cfg))
  ++ map fst scripts.

(** Text without spaces and parentheses. *)
Definition plain (s : string) : bool := forallb name_char (list_ascii_of_string s).

(** Text without spaces, and text without opening parentheses. *)
Definition no_space (s : string) : bool :=
  forallb (fun c => negb (Ascii.eqb c " ")) (list_ascii_of_string s).

Definition no_open (s : string) : bool :=
  forallb (fun c => negb (Ascii.eqb c "(")) (list_ascii_of_string s).

(** A token sequence printed with a space before every token: what follows
    the first token of a line. *)
Definition show_tail (l : line) : string :=
  fold_right (fun t acc => " " +:+ show_token t +:+ acc) "" l.

(** The shape of the generated lines with respect to jumps: no jump at all,
    or a single jump followed by a single play that ends the line. *)
Fixpoint shaped (l : line) : bool :=
  match l with
  | [] => true
  | Jump _ :: r => match r with [Play _] => true | _ => false end
  | _ :: r => shaped r
  end.

(** A generated line as the play-mode pass expects it. *)
Definition line_ok (l : line) : bool := forallb token_ok l && shaped l.

(** The names of the script table, with [k] restart scripts. *)
Definition script_names (cfg : config) (k : nat) : list string :=
  [ "idle" ]
  ++ map (fun p => "p" +:+ dec p) (range 1 (players cfg + 1))
  ++ [ "q"; "r"; "shuffle" ]
  ++ map (fun pos1 => "shuffle" +:+ dec pos1) (range 0 (Text.numCards cfg - 1))
  ++ map (fun c => "c" +:+ dec c) (range 0 (Text.numCards cfg))
  ++ [ "firstCard"; "secondCard"; "test"; "clear1"; "clear2" ]
  ++ map (fun i => "restart" +:+ dec i) (range 0 k).

(** What the batching loop maintains about the names it has used. *)
Definition restart_names_invariant (st : nat * string * nat * table string) : Prop :=
  let '(count, cmd, i, out) := st in
  map fst out = map (fun j => "restart" +:+ dec j) (range 0 i).

(** The commands of a line, and of all lines of a table, in order. *)
Definition line_commands (l : line) : line := List.filter is_cmd l.

Definition chain_commands (t : table line) : line :=
  concat (map line_commands (table_lines t)).

(** What the batching loop maintains about the assignments written so far,
    [done] being the entries already consumed. *)
Definition restart_chain_invariant (done : dict)
    (st : nat * line * nat * table line) : Prop :=
  let '(count, cmd, i, out) := st in
  chain_commands out ++ cmd = map assign_token done
  /\ line_commands cmd = cmd.

(** The registers a text names and the registers it assigns a literal. *)
Definition named_registers (l : string) : list string := Re.findall Re.var l.
Definition assigned_registers (l : string) : list string :=
  map fst (Re.findall Re.assign l).

(** ** Notions used by the properties of the whole program *)

(** What the batching loop maintains about the jumps written so far. *)
Definition restart_jumps_invariant (st : nat * line * nat * table line) : Prop :=
  let '(count, cmd, i, out) := st in
  (forall x, ~ In (Jump x) cmd)
  /\ map fst out = map (fun j => "restart" +:+ dec j) (range 0 i)
  /\ forall name s l x,
       In (name, s) out -> In l (script_lines s) -> In (Jump x) l ->
       exists j, j <= i /\ x = "restart" +:+ dec j.

(** The layout of a line: conditions, then commands, then the narration
    and the jump in one of the four endings the generator writes. *)
Fixpoint ending (l : line) : bool :=
  match l with
  | [] => true
  | (Cmd _ _ _ | Timer _ _) :: r => ending r
  | [Play _] => true
  | [Jump _; Play _] => true
  | [Play _; Jump _; Play _] => true
  | _ => false
  end.

(** Conditions first, then an ending. *)
Fixpoint laid_out (l : line) : bool :=
  match l with
  | Cond _ _ _ :: r => laid_out r
  | _ => ending l
  end.

(** The assignments of the initialisation line, as register and value;
    [findall_init] shows that they are what the pattern finds in it. *)
Definition init_entries (cfg : config) : dict :=
  map (fun x => ("c" +:+ dec x, dec (x + 1))) (range 0 (Text.numCards cfg))
  ++ [("remaining", dec (Text.numPairs cfg)); ("player", "1")].

(** The assignment of 0 to the register of an entry. *)
Definition zero_token (e : string * string) : token := Cmd (fst e) ASet (Lit "0").

(** What follows a number in the initialisation line: nothing or a space. *)
Definition ends_number (rest : string) : Prop :=
  rest = "" \/ exists r, rest = String " " r.

(** A register is named by a list-valued script of a table. *)
Definition named_in (scripts : table string) (o : string) : Prop :=
  exists name ls line,
    In (name, Lines ls) scripts /\ In line ls /\ In o (named_registers line).

(** A command that stores a literal in register [o]. *)
Definition assigns (o : string) (t : token) : bool :=
  match t with
  | Cmd r ASet (Lit _) => String.eqb r o
  | _ => false
  end.

(** What the register scan adds to a table [vars0]: zeros, for keys that
    [vars0] lacks, each named by a list-valued script, no key twice. *)
Definition scan_added (vars0 : dict) (scripts : table string) (vars : dict) : Prop :=
  exists zeros,
    vars = vars0 ++ zeros
    /\ Forall (fun e => snd e = "0" /\ dict_mem (fst e) vars0 = false
                        /\ named_in scripts (fst e)) zeros
    /\ NoDup (map fst zeros).

(** The [j]-th batch of six entries of a register table. *)
Definition batch (vars : dict) (j : nat) : dict := firstn 6 (skipn (6 * j) vars).

(** A restart script that is not the last of the chain, over a batch. *)
Definition restart_link (vars : dict) (j : nat) : string * script line :=
  ("restart" +:+ dec j,
   Str (map assign_token (batch vars j) ++ [Jump ("restart" +:+ dec (j + 1)); Play "nop"])).

(** What the batching loop has built after the entries [done]. *)
Definition restart_batches_invariant (done : dict)
    (st : nat * line * nat * table line) : Prop :=
  let '(count, cmd, i, out) := st in
  length done = 6 * i + count
  /\ count <= 6
  /\ (done = [] \/ 1 <= count)
  /\ cmd = map assign_token (skipn (6 * i) done)
  /\ out = map (restart_link done) (range 0 i).

(** The scripts that the fields of the board start: the query, repeat,
    player and card scripts. *)
Definition is_field (name : string) : Prop :=
  name = "q" \/ name = "r"
  \/ (exists p, name = "p" +:+ dec p) \/ (exists c, name = "c" +:+ dec c).

(** A token that neither changes a register nor leaves the script. *)
Definition quiet (t : token) : bool :=
  match t with
  | Cond _ _ _ | Play _ => true
  | _ => false
  end.

(** [$busy:=1] *)
Definition takes_busy (t : token) : bool :=
  match t with
  | Cmd r ASet (Lit d) => String.eqb r "busy" && String.eqb d "1"
  | _ => false
  end.

(** A line of a field script under the lock: if it can fire it holds
    conditions and plays only, and if it holds more it sets [busy]. *)
Definition busy_locked (st : store) (name : string) (l : line) : Prop :=
  is_field name ->
  (enabled st l = true -> forallb quiet l = true)
  /\ (forallb quiet l = false -> existsb takes_busy l = true).

(** The line of the test script that passes the turn on from player [k]
    when [np] players take part: back to player 1 after the last player,
    else on to player [k + 1]. *)
Definition turn_pass_line (cfg : config) (k np : nat) : line :=
  if (k =? np)%nat then
    [Cond "player" CEq (Reg "players"); Cmd "player" ASet (Num 1);
     Jump "idle"; Play (lang cfg +:+ "_player1")]
  else
    [Cond "player" CEq (Num k); Cmd "player" AAdd (Num 1);
     Jump "idle"; Play (lang cfg +:+ "_player" +:+ dec (k + 1))].

(** How a name came by its code when the template brings none. *)
Definition code_class (cfg : config) (scripts : table string) (k : string) (v : Z) : Prop :=
  (k = "q" /\ v = 2000%Z)
  \/ (k = "r" /\ v = 2001%Z)
  \/ (exists p, 1 <= p <= players cfg /\ k = "p" +:+ dec p /\ v = (2001 + Z.of_nat p)%Z)
  \/ (exists c, c < Text.numCards cfg /\ k = "c" +:+ dec c /\ v = (3000 + Z.of_nat c)%Z)
  \/ (exists i, nth_error (uncoded (Text.fixed_codes cfg None) (map fst scripts)) i = Some k
                /\ v = (4000 + Z.of_nat i)%Z).

(** The keys the loop over the pairs looks at for one pair. *)
Definition speak_keys (alt : bool) (p : string) : list string :=
  if alt then [p +:+ "_a"; p +:+ "_b"] else [p].

(** ** Sample definitions used by the examples *)

Definition one_pair : config := Config ["cat"] 1 false "en" "hello".
Definition two_pairs : config := Config ["cat"; "dog"] 2 false "en" "hello".
Definition three_players : config := Config ["cat"; "dog"; "owl"] 3 true "de" "hallo".

(** A welcome name that is not a name: it holds a parenthesis and a space. *)
Definition split_welcome : config := Config ["cat"] 1 false "en" "b) P(c".

(** The text of the program generated for [two_pairs], and a table of codes
    from an earlier run that moved the query and one card. *)
Definition two_pairs_scripts : table string :=
  match Text.scripts two_pairs with Some scripts => scripts | None => [] end.

Definition printed_codes : gmap string Z := <["q" := 2500%Z]> (<["c1" := 3100%Z]> ∅).

(** A game in progress for [two_pairs]: both players take part, it is the
    turn of player 2, a script is running. *)
Definition busy_store : store :=
  store_of [("busy", 1); ("players", 2); ("player", 2); ("remaining", 2)]%Z.

(** A game in progress for [three_players] with two players: player 2 has
    turned two cards that do not match. *)
Definition second_turn : store :=
  store_of [("players", 2); ("player", 2); ("sum", 5); ("remaining", 3)]%Z.

(** The shuffle of [two_pairs] in its first state, the draw being [2]. *)
Definition first_draw : store := store_of [("pos", 2); ("rnd", 35)]%Z.

(** A game of [two_pairs] between two players, the cards lying in order:
    player 1 has turned card 3 on slot 2, and its narration has ended. *)
Definition card_turned : store :=
  store_of [("players", 2); ("player", 1); ("remaining", 2);
            ("card1", 3); ("pos1", 2); ("lastCard", 3); ("lastPos", 2)]%Z.

(** The same game as player 1 turns card 2 on slot 1: the card script has
    set [busy] and goes on with the script of the second card. *)
Definition pair_turned : store :=
  store_of [("busy", 1); ("players", 2); ("player", 1); ("remaining", 2);
            ("card1", 3); ("pos1", 2); ("card2", 2); ("pos2", 1);
            ("lastCard", 2); ("lastPos", 1)]%Z.

(** The same game after the test script has counted this pair for player 1,
    and after it has counted the last pair for player 2. *)
Definition pair_found : store :=
  store_of [("busy", 1); ("players", 2); ("player", 1); ("remaining", 1);
            ("pairs1", 1); ("sum", 5); ("pos1", 2); ("pos2", 1);
            ("lastCard", 2); ("lastPos", 1)]%Z.

Definition last_pair_found : store :=
  store_of [("busy", 1); ("players", 2); ("player", 2); ("pairs1", 1);
            ("pairs2", 1); ("sum", 5); ("pos1", 3); ("lastCard", 1)]%Z.

(** A template for the pairs [cat] and [dog] that brings a text for [dog],
    and a media directory that holds a recording for [cat]. *)
Definition sample_game : Template.game :=
  Template.Game
    (Some (Template.Memory (Some 2) (Some ["cat"; "dog"]) None None None None None))
    (Some 42) None (Some "hello") (Some {[ "dog" := "a dog" ]}) None None.

Definition cat_recorded (path : string) : bool := String.eqb path "media/cat.ogg".

(** * Properties *)

#[local] Arguments String.append !s1 s2 : simpl nomatch.

(** ** Text *)

Lemma sapp_assoc (a b c : string) : (a +:+ b) +:+ c = a +:+ (b +:+ c).
Proof. induction a as [|x a IH]; simpl; [reflexivity | now rewrite IH]. Qed.

Lemma sapp_nil_r (a : string) : a +:+ "" = a.
Proof. induction a as [|x a IH]; simpl; [reflexivity | now rewrite IH]. Qed.

Lemma slength_app (a b : string) :
  String.length (a +:+ b) = String.length a + String.length b.
Proof. induction a as [|x a IH]; simpl; [reflexivity | now rewrite IH]. Qed.

(** Decimal printing is injective, and reading back a printed number gives
    the number. *)
Lemma dec_inj (n m : nat) : dec n = dec m -> n = m.
Proof.
  unfold dec. intros H.
  apply (f_equal NilEmpty.uint_of_string) in H.
  rewrite !NilEmpty.usu in H. injection H as H.
  apply (f_equal Nat.of_uint) in H. now rewrite !Unsigned.of_to in H.
Qed.

Lemma lit_value_dec (n : nat) : lit_value (dec n) = Z.of_nat n.
Proof. unfold lit_value, dec. now rewrite NilEmpty.usu, Unsigned.of_to. Qed.

(** ** Printing token sequences *)

Lemma show_prefix_app (a b : line) :
  show_prefix (a ++ b) = show_prefix a +:+ show_prefix b.
Proof.
  induction a as [|t a IH]; simpl; [reflexivity|].
  now rewrite IH, !sapp_assoc.
Qed.

Lemma show_line_cons (t t' : token) (r : line) :
  show_line (t :: t' :: r) = show_token t +:+ " " +:+ show_line (t' :: r).
Proof. reflexivity. Qed.

Lemma show_line_prefix (a : line) (t : token) (r : line) :
  show_line (a ++ t :: r) = show_prefix a +:+ show_line (t :: r).
Proof.
  induction a as [|x a IH]; [reflexivity|].
  change ((x :: a) ++ t :: r) with (x :: (a ++ t :: r)).
  destruct (a ++ t :: r) as [|y l] eqn:E.
  - destruct a; discriminate.
  - rewrite show_line_cons, IH. simpl. now rewrite !sapp_assoc.
Qed.

Ltac text_eq :=
  unfold show_line, join, Num;
  change (dec 0) with "0"; change (dec 1) with "1";
  cbn -[dec];
  repeat (progress (repeat rewrite sapp_assoc; cbn -[dec]));
  try reflexivity.

Ltac lines_eq :=
  repeat first [rewrite map_app | rewrite map_map]; cbn [map app];
  repeat lazymatch goal with
    | |- map _ ?l = map _ ?l => apply map_ext; intros
    | |- _ ++ _ = _ ++ _ => apply (f_equal2 (@app _))
    | |- _ :: _ = _ :: _ => apply (f_equal2 cons)
    | |- [] = [] => reflexivity
    end;
  try text_eq.

Section ShowScripts.

Variable cfg : config.

Lemma show_player_script p :
  map show_line (Prog.player_script cfg p) = Text.player_script cfg p.
Proof. unfold Prog.player_script, Text.player_script. lines_eq. Qed.

Lemma show_compare player :
  show_prefix (Prog.compare cfg player) = Text.compare cfg player.
Proof.
  unfold Prog.compare, Text.compare.
  change "$busy==0? " with (show_prefix [Cond "busy" CEq (Num 0)]).
  generalize [Cond "busy" CEq (Num 0)] as acc.
  induction (range 1 (players cfg + 1)) as [|other l IH]; intros acc; [reflexivity|].
  cbn [fold_left]. destruct (player =? other)%nat.
  - apply IH.
  - rewrite IH. f_equal. rewrite show_prefix_app. text_eq.
Qed.

Lemma show_winner_line player :
  show_line (Prog.winner_line cfg player)
  = Text.compare cfg player
      +:+ "$busy:=1 J(idle) P(" +:+ lang cfg +:+ "_winner" +:+ dec player +:+ ")".
Proof.
  unfold Prog.winner_line. rewrite show_line_prefix, show_compare. text_eq.
Qed.

Lemma show_question :
  map show_line (Prog.question cfg) = Text.question cfg.
Proof.
  unfold Prog.question, Text.question, Prog.not_started_line, Prog.turn_line,
    Prog.draw_line.
  rewrite !map_app, !map_map. cbn [map app].
  apply (f_equal2 cons); [text_eq|].
  apply (f_equal2 (@app _)); [apply map_ext; intros; text_eq|].
  apply (f_equal2 (@app _)); [apply map_ext; intros; apply show_winner_line|].
  text_eq.
Qed.

Lemma show_repeat_script :
  map show_line (Prog.repeat_script cfg) = Text.repeat_script cfg.
Proof. unfold Prog.repeat_script, Text.repeat_script. lines_eq. Qed.

Lemma show_shuffle : show_line (Prog.shuffle cfg) = Text.shuffle cfg.
Proof. unfold Prog.shuffle, Text.shuffle, Prog.lcg, Prog.draw. text_eq. Qed.

Lemma show_shuffle_state pos1 :
  map show_line (Prog.shuffle_state cfg pos1) = Text.shuffle_state cfg pos1.
Proof.
  unfold Prog.shuffle_state, Text.shuffle_state.
  rewrite map_app, map_map. f_equal.
  - destruct (pos1 <? Text.numCards cfg - 2)%nat; [|reflexivity].
    unfold Prog.shuffle_guard, Text.shuffle_guard, Prog.lcg. lines_eq.
  - apply map_ext. intros pos2.
    unfold Prog.shuffle_line, Text.shuffle_line, Prog.swap_slots, Prog.start_game,
      Prog.draw.
    destruct (pos1 =? pos2)%nat, (pos1 =? Text.numCards cfg - 2)%nat; text_eq.
Qed.

Lemma show_card_script c :
  map show_line (Prog.card_script cfg c) = Text.card_script cfg c.
Proof. unfold Prog.card_script, Text.card_script. lines_eq. Qed.

Lemma show_firstCard : map show_line (Prog.firstCard cfg) = Text.firstCard cfg.
Proof. unfold Prog.firstCard, Text.firstCard. lines_eq. Qed.

Lemma show_secondCard : map show_line (Prog.secondCard cfg) = Text.secondCard cfg.
Proof. unfold Prog.secondCard, Text.secondCard. lines_eq. Qed.

Lemma show_test : map show_line (Prog.test cfg) = Text.test cfg.
Proof. unfold Prog.test, Text.test, Prog.match_line. lines_eq. Qed.

Lemma show_clear1 : map show_line (Prog.clear1 cfg) = Text.clear1 cfg.
Proof. unfold Prog.clear1, Text.clear1, Prog.finished_line. lines_eq. Qed.

Lemma show_clear2 : map show_line (Prog.clear2 cfg) = Text.clear2 cfg.
Proof. unfold Prog.clear2, Text.clear2. lines_eq. Qed.

Lemma show_base_scripts :
  show_table (Prog.base_scripts cfg) = Text.base_scripts cfg.
Proof.
  unfold show_table, table_map, Prog.base_scripts, Text.base_scripts.
  repeat first [rewrite map_app | rewrite map_map]. cbn [map fst snd script_map].
  rewrite show_question, show_repeat_script, show_shuffle, show_firstCard,
    show_secondCard, show_test, show_clear1, show_clear2.
  repeat (apply (f_equal2 (@app _)); [|]); try reflexivity;
    apply map_ext; intros; cbn [fst snd script_map].
  - now rewrite show_player_script.
  - now rewrite show_shuffle_state.
  - now rewrite show_card_script.
Qed.

Lemma show_table_app (a b : table line) :
  show_table (a ++ b) = show_table a ++ show_table b.
Proof. apply map_app. Qed.

Lemma show_restart_step a t variable :
  restart_states_agree a t ->
  restart_states_agree (Prog.restart_step a variable) (Text.restart_step t variable).
Proof.
  destruct a as [[[count cmd] i] out]. unfold restart_states_agree. intros ->.
  unfold Prog.restart_step, Text.restart_step.
  destruct (count =? 6)%nat.
  - rewrite show_table_app. unfold show_table, table_map.
    cbn [map fst snd script_map]. rewrite show_line_prefix. text_eq.
  - rewrite show_prefix_app. text_eq.
Qed.

Lemma show_restart_fold vars a t :
  restart_states_agree a t ->
  restart_states_agree (fold_left Prog.restart_step vars a)
                       (fold_left Text.restart_step vars t).
Proof.
  revert a t. induction vars as [|v vars IH]; intros a t H; [exact H|].
  cbn [fold_left]. apply IH, show_restart_step, H.
Qed.

Lemma show_restart_scripts vars :
  show_table (Prog.restart_scripts cfg vars) = Text.restart_scripts cfg vars.
Proof.
  unfold Prog.restart_scripts, Text.restart_scripts.
  pose proof (show_restart_fold vars (0, [], 0, []) (0, "", 0, []) eq_refl) as H.
  destruct (fold_left Prog.restart_step vars _) as [[[count cmd] i] out].
  cbn [restart_states_agree] in H. rewrite H.
  rewrite show_table_app. f_equal. unfold show_table, table_map.
  cbn [map fst snd script_map]. rewrite show_line_prefix. text_eq.
Qed.

(** Printing the structured program gives the generated text. *)
Theorem show_scripts :
  option_map show_table (Prog.scripts cfg) = Text.scripts cfg.
Proof.
  unfold Prog.scripts, Text.scripts.
  destruct (Text.variables cfg) as [vars|]; [|reflexivity].
  cbn [option_map].
  now rewrite show_table_app, show_base_scripts, show_restart_scripts.
Qed.

End ShowScripts.

(** ** The scanner *)

Section ScanFacts.
Context {A : Type}.
Variable m : string -> option (A * string).

(** Every captured value comes from a match of the pattern. *)
Lemma scan_inl fuel s a :
  In (inl a) (Re.scan m fuel s) -> exists s' r, m s' = Some (a, r).
Proof.
  revert s. induction fuel as [|fuel IH]; intros s; cbn [Re.scan]; [intros []|].
  destruct (m s) as [[a' r]|] eqn:E.
  - intros [H|H]; [injection H as ->; eauto | eauto].
  - destruct s as [|c s']; [intros []|].
    intros [H|H]; [discriminate | eauto].
Qed.

Lemma findall_inv s a :
  In a (Re.findall m s) -> exists s' r, m s' = Some (a, r).
Proof.
  unfold Re.findall, Re.items. intros H.
  apply list_elem_of_In, list_elem_of_omap in H as ([a'|c] & H & E); [|discriminate].
  injection E as ->. apply list_elem_of_In in H. eapply scan_inl, H.
Qed.

(** A match at the very start of the text is found. *)
Lemma findall_head s a r : m s = Some (a, r) -> In a (Re.findall m s).
Proof.
  intros E. unfold Re.findall, Re.items. cbn [Re.scan]. rewrite E. now left.
Qed.
End ScanFacts.

Lemma span_spec p s w r :
  Re.span p s = (w, r) -> s = w +:+ r /\ forallb p (list_ascii_of_string w) = true.
Proof.
  revert w r. induction s as [|c s IH]; intros w r; cbn [Re.span].
  - intros [= <- <-]. now split.
  - destruct (p c) eqn:Ec.
    + destruct (Re.span p s) as [w' r'] eqn:E. intros [= <- <-].
      destruct (IH w' r' eq_refl) as [-> Hw]. split; [reflexivity|].
      cbn. now rewrite Ec, Hw.
    + intros [= <- <-]. now split.
Qed.

Lemma plus_spec p s w r :
  Re.plus p s = Some (w, r) ->
  s = w +:+ r /\ w <> "" /\ forallb p (list_ascii_of_string w) = true.
Proof.
  unfold Re.plus. destruct (Re.span p s) as [w' r'] eqn:E.
  destruct w' as [|c w']; [discriminate|]. intros [= <- <-].
  apply span_spec in E as [-> Hw]. now repeat split.
Qed.

Lemma literal_spec p s r : Re.literal p s = Some r -> s = p +:+ r.
Proof.
  revert s. induction p as [|a p IH]; intros s; cbn [Re.literal].
  - now intros [= ->].
  - destruct s as [|b s]; [discriminate|].
    destruct (Ascii.eqb a b) eqn:E; [|discriminate].
    apply Ascii.eqb_eq in E as ->. intros H. apply IH in H as ->. reflexivity.
Qed.

Lemma var_spec s w r :
  Re.var s = Some (w, r) -> s = "$" +:+ w +:+ r /\ w <> "" /\ word_ok w = true.
Proof.
  unfold Re.var. destruct (Re.literal "$" s) as [s1|] eqn:E1; [|discriminate].
  intros H. apply literal_spec in E1 as ->.
  apply plus_spec in H as (-> & Hne & Hw). now repeat split.
Qed.

Lemma assign_spec s name value r :
  Re.assign s = Some ((name, value), r) ->
  word_ok name = true /\ number_ok value = true /\ value <> "".
Proof.
  unfold Re.assign. destruct (Re.var s) as [[name' s1]|] eqn:E1; [|discriminate].
  destruct (Re.literal ":=" s1) as [s2|]; [|discriminate].
  destruct (Re.plus Re.is_digit s2) as [[value' rest]|] eqn:E2; [|discriminate].
  intros [= <- <- <-]. apply var_spec in E1 as (_ & _ & Hw).
  apply plus_spec in E2 as (_ & Hne & Hd). now repeat split.
Qed.

(** ** The register table *)

Lemma dict_mem_set d k k' v :
  dict_mem k (dict_set d k' v) = String.eqb k' k || dict_mem k d.
Proof.
  induction d as [|[k0 v0] d IH]; cbn [dict_set dict_mem existsb fst].
  - now rewrite orb_false_r.
  - destruct (String.eqb k0 k') eqn:E; cbn [existsb fst].
    + apply String.eqb_eq in E as ->.
      destruct (String.eqb k' k); reflexivity.
    + fold (dict_mem k (dict_set d k' v)). rewrite IH. fold (dict_mem k d).
      destruct (String.eqb k0 k), (String.eqb k' k); reflexivity.
Qed.

Lemma dict_set_Forall (P : string * string -> Prop) d k v :
  Forall P d -> P (k, v) -> Forall P (dict_set d k v).
Proof.
  intros Hd Hk. induction Hd as [|[k0 v0] d H0 Hd IH]; cbn [dict_set].
  - now constructor.
  - destruct (String.eqb k0 k); constructor; assumption.
Qed.

Lemma fold_left_invariant {A B} (P : A -> Prop) (f : A -> B -> A) l a :
  P a -> (forall a b, P a -> P (f a b)) -> P (fold_left f l a).
Proof. revert a. induction l as [|b l IH]; intros a Ha Hf; cbn; auto. Qed.

Lemma fold_left_reach {A B} (P : A -> Prop) (f : A -> B -> A) l a b :
  In b l -> (forall a, P (f a b)) -> (forall a b', P a -> P (f a b')) ->
  P (fold_left f l a).
Proof.
  revert a. induction l as [|b' l IH]; intros a; [intros []|].
  intros [->|Hin] Hb Hf; cbn [fold_left].
  - apply fold_left_invariant; auto.
  - apply IH; auto.
Qed.

Lemma fold_left_invariant_in {A B} (P : A -> Prop) (f : A -> B -> A) l a :
  P a -> (forall a b, In b l -> P a -> P (f a b)) -> P (fold_left f l a).
Proof.
  revert a. induction l as [|b l IH]; intros a Ha Hf; cbn [fold_left]; [exact Ha|].
  apply IH; [apply Hf; [now left | exact Ha]|].
  intros a' b' Hin. apply Hf. now right.
Qed.

Section Registers.

Variable cfg : config.

Lemma note_register_mono k vars o :
  dict_mem k vars = true -> dict_mem k (Text.note_register vars o) = true.
Proof.
  intros H. unfold Text.note_register. destruct (dict_mem o vars); [exact H|].
  rewrite dict_mem_set, H. apply orb_true_r.
Qed.

Lemma note_register_found vars o : dict_mem o (Text.note_register vars o) = true.
Proof.
  unfold Text.note_register. destruct (dict_mem o vars) eqn:E; [exact E|].
  now rewrite dict_mem_set, String.eqb_refl.
Qed.

Lemma note_registers_mono k vars line :
  dict_mem k vars = true -> dict_mem k (Text.note_registers vars line) = true.
Proof.
  intros H. apply (fold_left_invariant (fun d => dict_mem k d = true)); [exact H|].
  intros; now apply note_register_mono.
Qed.

Lemma scan_script_mono k vars script :
  dict_mem k vars = true -> dict_mem k (Text.scan_script vars script) = true.
Proof.
  intros H. apply (fold_left_invariant (fun d => dict_mem k d = true)); [exact H|].
  intros; now apply note_registers_mono.
Qed.

(** A register named in a line of a list-valued script is recorded. *)
Lemma scan_scripts_found vars (scripts : table string) name ls line o :
  In (name, Lines ls) scripts -> In line ls -> In o (named_registers line) ->
  dict_mem o (Text.scan_scripts vars scripts) = true.
Proof.
  intros Hs Hl Ho. unfold Text.scan_scripts.
  apply (fold_left_reach (fun d => dict_mem o d = true) _ _ _ (Lines ls)).
  - apply in_map_iff. now exists (name, Lines ls).
  - intros d. apply (fold_left_reach (fun d => dict_mem o d = true) _ _ _ line).
    + exact Hl.
    + intros d'. apply (fold_left_reach (fun d => dict_mem o d = true) _ _ _ o).
      * exact Ho.
      * intros; apply note_register_found.
      * intros; now apply note_register_mono.
    + intros; now apply note_registers_mono.
  - intros; now apply scan_script_mono.
Qed.

Lemma question_in_base_scripts :
  In ("q", Lines (Text.question cfg)) (Text.base_scripts cfg).
Proof.
  unfold Text.base_scripts. apply in_or_app. right. apply in_or_app. right.
  now left.
Qed.

(** The deletion of [busy] never fails: the first line of the query script
    names it. *)
Theorem variables_total : exists vars, Text.variables cfg = Some vars.
Proof.
  unfold Text.variables, dict_del.
  rewrite (scan_scripts_found _ _ "q" (Text.question cfg)
             ("$busy==0? $players==0? $busy:=1 J(idle) P(" +:+ lang cfg
                +:+ "_not_started)") "busy").
  - eauto.
  - apply question_in_base_scripts.
  - now left.
  - eapply findall_head. reflexivity.
Qed.

Theorem scripts_total : exists scripts, Text.scripts cfg = Some scripts.
Proof.
  unfold Text.scripts. destruct variables_total as [vars ->]. eauto.
Qed.

Theorem prog_scripts_total : exists scripts, Prog.scripts cfg = Some scripts.
Proof.
  unfold Prog.scripts. destruct variables_total as [vars ->]. eauto.
Qed.

Lemma init_variables_ok :
  Forall (fun e => entry_ok e = true) (Text.init_variables cfg).
Proof.
  unfold Text.init_variables.
  apply (fold_left_invariant_in (Forall (fun e => entry_ok e = true))); [constructor|].
  intros d [name value] Hin Hd. apply dict_set_Forall; [exact Hd|].
  apply findall_inv in Hin as (s' & r & E).
  apply assign_spec in E as (Hn & Hv & Hne). unfold entry_ok. cbn [fst snd].
  rewrite Hn, Hv. apply String.eqb_neq in Hne. now rewrite Hne.
Qed.

Lemma note_registers_ok vars line :
  Forall (fun e => entry_ok e = true) vars ->
  Forall (fun e => entry_ok e = true) (Text.note_registers vars line).
Proof.
  intros H. unfold Text.note_registers.
  apply (fold_left_invariant_in (Forall (fun e => entry_ok e = true))); [exact H|].
  intros d o Hin Hd. unfold Text.note_register.
  destruct (dict_mem o d); [exact Hd|]. apply dict_set_Forall; [exact Hd|].
  apply findall_inv in Hin as (s' & r & E). apply var_spec in E as (_ & _ & Hw).
  unfold entry_ok. cbn [fst snd]. now rewrite Hw.
Qed.

Lemma scan_scripts_ok vars (scripts : table string) :
  Forall (fun e => entry_ok e = true) vars ->
  Forall (fun e => entry_ok e = true) (Text.scan_scripts vars scripts).
Proof.
  intros H. unfold Text.scan_scripts.
  apply (fold_left_invariant (Forall (fun e => entry_ok e = true))); [exact H|].
  intros d script Hd. unfold Text.scan_script.
  apply (fold_left_invariant (Forall (fun e => entry_ok e = true))); [exact Hd|].
  intros; now apply note_registers_ok.
Qed.

(** The register table that feeds the restart chain holds register names
    with literal values, and [busy] is not among them. *)
Lemma variables_ok vars :
  Text.variables cfg = Some vars ->
  Forall (fun e => entry_ok e = true /\ fst e <> "busy") vars.
Proof.
  unfold Text.variables, dict_del.
  destruct (dict_mem _ _); [|discriminate]. intros [= <-].
  apply List.Forall_forall. intros e He. apply filter_In in He as [He Hk]. split.
  - pose proof (scan_scripts_ok _ (Text.base_scripts cfg) init_variables_ok) as H.
    rewrite List.Forall_forall in H. now apply H.
  - apply negb_true_iff, String.eqb_neq in Hk. exact Hk.
Qed.

End Registers.

(** ** The lines of the generated program *)

Lemma in_range (a b x : nat) : In x (range a b) <-> a <= x < b.
Proof. unfold range. rewrite in_seq. lia. Qed.

Section Lines.

Variable cfg : config.

Lemma table_lines_app {A} (a b : table A) :
  table_lines (a ++ b) = table_lines a ++ table_lines b.
Proof. unfold table_lines. now rewrite map_app, concat_app. Qed.

Lemma table_lines_In {A} (t : table A) (l : A) :
  In l (table_lines t) <-> exists name s, In (name, s) t /\ In l (script_lines s).
Proof.
  unfold table_lines. rewrite in_concat. split.
  - intros (ls & Hls & Hl). apply in_map_iff in Hls as ([name s] & <- & He). eauto.
  - intros (name & s & He & Hl). exists (script_lines s). split; [|exact Hl].
    apply in_map_iff. now exists (name, s).
Qed.

Lemma restart_step_invariant vars st variable :
  In variable vars -> restart_invariant cfg vars st ->
  restart_invariant cfg vars (Prog.restart_step st variable).
Proof.
  destruct st as [[[count cmd] i] out].
  intros Hv [(batch & -> & Hlen & Hle & Hin) Hout].
  unfold Prog.restart_step. destruct (count =? 6)%nat eqn:E.
  - apply Nat.eqb_eq in E. split.
    + exists [variable]. repeat split; cbn; try lia.
      intros e [<-|[]]. exact Hv.
    + intros name s Hs. apply in_app_or in Hs as [Hs|[[= <- <-]|[]]]; [eauto|].
      exists i. eexists. repeat split.
      exists batch, ("restart" +:+ dec (i + 1)), "nop".
      repeat split; [lia | exact Hin | left; eauto].
  - apply Nat.eqb_neq in E. split; [|exact Hout].
    exists (batch ++ [variable]). rewrite map_app, length_app. cbn.
    repeat split; try lia.
    intros e He. apply in_app_or in He as [He|[<-|[]]]; auto.
Qed.

Lemma restart_fold_invariant vars l st :
  (forall e, In e l -> In e vars) -> restart_invariant cfg vars st ->
  restart_invariant cfg vars (fold_left Prog.restart_step l st).
Proof.
  revert st. induction l as [|v l IH]; intros st Hl Hst; [exact Hst|].
  cbn [fold_left]. apply IH.
  - intros e He. apply Hl. now right.
  - apply restart_step_invariant; [apply Hl; now left | exact Hst].
Qed.

Lemma restart_scripts_lines vars name s :
  In (name, s) (Prog.restart_scripts cfg vars) ->
  exists i l, name = "restart" +:+ dec i /\ s = Str l /\ restart_line cfg vars l.
Proof.
  unfold Prog.restart_scripts.
  pose proof (restart_fold_invariant vars vars (0, [], 0, [])) as H.
  destruct (fold_left Prog.restart_step vars _) as [[[count cmd] i] out].
  destruct H as [(batch & -> & Hlen & Hle & Hin) Hout].
  - auto.
  - split; [exists []; repeat split; cbn; [lia | intros e []] | intros ? ? []].
  - intros Hs. apply in_app_or in Hs as [Hs|[[= <- <-]|[]]]; [eauto|].
    exists i. eexists. repeat split.
    exists batch, "idle", (welcome cfg). repeat split; [lia | exact Hin | now right].
Qed.

(** Case analysis over the scripts of the program. *)
Lemma generated_scripts (Q : string -> script line -> Prop) :
  Q "idle" (Str Prog.idle) ->
  (forall p, 1 <= p <= players cfg ->
             Q ("p" +:+ dec p) (Lines (Prog.player_script cfg p))) ->
  Q "q" (Lines (Prog.question cfg)) ->
  Q "r" (Lines (Prog.repeat_script cfg)) ->
  Q "shuffle" (Str (Prog.shuffle cfg)) ->
  (forall pos1, pos1 + 1 < Text.numCards cfg ->
                Q ("shuffle" +:+ dec pos1) (Lines (Prog.shuffle_state cfg pos1))) ->
  (forall c, c < Text.numCards cfg -> Q ("c" +:+ dec c) (Lines (Prog.card_script cfg c))) ->
  Q "firstCard" (Lines (Prog.firstCard cfg)) ->
  Q "secondCard" (Lines (Prog.secondCard cfg)) ->
  Q "test" (Lines (Prog.test cfg)) ->
  Q "clear1" (Lines (Prog.clear1 cfg)) ->
  Q "clear2" (Lines (Prog.clear2 cfg)) ->
  (forall vars i l, Text.variables cfg = Some vars -> restart_line cfg vars l ->
                    Q ("restart" +:+ dec i) (Str l)) ->
  forall scripts, Prog.scripts cfg = Some scripts ->
  forall name s, In (name, s) scripts -> Q name s.
Proof.
  intros Hidle Hp Hq Hr Hsh Hst Hc Hf Hs Ht Hc1 Hc2 Hre scripts.
  unfold Prog.scripts. destruct (Text.variables cfg) as [vars|] eqn:Ev; [|discriminate].
  intros E.
  assert (scripts = Prog.base_scripts cfg ++ Prog.restart_scripts cfg vars) as ->
    by congruence.
  clear E. intros name s He.
  apply in_app_or in He as [He|He].
  - unfold Prog.base_scripts in He.
    repeat (apply in_app_or in He as [He|He]).
    + destruct He as [[= <- <-]|[]]. exact Hidle.
    + apply in_map_iff in He as (p & [= <- <-] & Hin). apply in_range in Hin.
      apply Hp. lia.
    + destruct He as [[= <- <-]|[[= <- <-]|[[= <- <-]|[]]]]; assumption.
    + apply in_map_iff in He as (pos1 & [= <- <-] & Hin). apply in_range in Hin.
      apply Hst. lia.
    + apply in_map_iff in He as (c & [= <- <-] & Hin). apply in_range in Hin.
      apply Hc. lia.
    + destruct He as [[= <- <-]|[[= <- <-]|[[= <- <-]|[[= <- <-]|[[= <- <-]|[]]]]]];
        assumption.
  - apply restart_scripts_lines in He as (i & l' & -> & -> & Hrl). eapply Hre; eauto.
Qed.

(** Case analysis over the lines of the program: a property that holds of
    the lines of every script family and of every restart line holds of
    every generated line. *)
Lemma generated_lines (P : string -> line -> Prop) :
  P "idle" Prog.idle ->
  (forall p, 1 <= p <= players cfg ->
             Forall (P ("p" +:+ dec p)) (Prog.player_script cfg p)) ->
  Forall (P "q") (Prog.question cfg) ->
  Forall (P "r") (Prog.repeat_script cfg) ->
  P "shuffle" (Prog.shuffle cfg) ->
  (forall pos1, pos1 + 1 < Text.numCards cfg ->
                Forall (P ("shuffle" +:+ dec pos1)) (Prog.shuffle_state cfg pos1)) ->
  (forall c, c < Text.numCards cfg ->
             Forall (P ("c" +:+ dec c)) (Prog.card_script cfg c)) ->
  Forall (P "firstCard") (Prog.firstCard cfg) ->
  Forall (P "secondCard") (Prog.secondCard cfg) ->
  Forall (P "test") (Prog.test cfg) ->
  Forall (P "clear1") (Prog.clear1 cfg) ->
  Forall (P "clear2") (Prog.clear2 cfg) ->
  (forall vars i l, Text.variables cfg = Some vars -> restart_line cfg vars l ->
                    P ("restart" +:+ dec i) l) ->
  forall scripts, Prog.scripts cfg = Some scripts ->
  forall name s l, In (name, s) scripts -> In l (script_lines s) -> P name l.
Proof.
  intros Hidle Hp Hq Hr Hsh Hst Hc Hf Hs Ht Hc1 Hc2 Hre scripts E name s l He.
  revert l.
  apply (generated_scripts (fun name s => forall l, In l (script_lines s) -> P name l))
    with (scripts := scripts); try assumption; cbn [script_lines];
    try (intros l [<-|[]]; assumption);
    try (apply List.Forall_forall; assumption).
  - intros p Hin. apply List.Forall_forall. auto.
  - intros pos1 Hin. apply List.Forall_forall. auto.
  - intros c Hin. apply List.Forall_forall. auto.
  - intros vars i l0 Ev Hrl l [<-|[]]. eauto.
Qed.

End Lines.

(** Reduce a property of all lines of a script to one goal per line shape. *)
Ltac each_line :=
  repeat lazymatch goal with
    | |- Forall _ (_ ++ _) => apply List.Forall_app; split
    | |- Forall _ (_ :: _) => apply List.Forall_cons
    | |- Forall _ [] => apply List.Forall_nil
    | |- Forall _ (map _ _) =>
        apply List.Forall_map, List.Forall_forall;
        let x := fresh "x" in let H := fresh "Hx" in
        intros x H; apply in_range in H
    | |- Forall _ (if ?b then _ else _) => destruct b eqn:?
    end.

(** The structured program together with its text. *)
Lemma program_exists cfg :
  exists scripts,
    Prog.scripts cfg = Some scripts /\ Text.scripts cfg = Some (show_table scripts).
Proof.
  destruct (prog_scripts_total cfg) as [scripts E]. exists scripts. split; [exact E|].
  now rewrite <- show_scripts, E.
Qed.

(** ** Line selection *)

Lemma fire_app st (a b : list line) :
  fire st (a ++ b)
  = match fire st a with
    | Some i => Some i
    | None => option_map (Nat.add (length a)) (fire st b)
    end.
Proof.
  induction a as [|l a IH]; cbn [app fire length].
  - destruct (fire st b); reflexivity.
  - destruct (enabled st l); [reflexivity|]. rewrite IH.
    destruct (fire st a); [reflexivity|]. destruct (fire st b); reflexivity.
Qed.

Lemma fire_none st (l : list line) :
  Forall (fun x => enabled st x = false) l -> fire st l = None.
Proof.
  induction 1 as [|x l Hx Hl IH]; [reflexivity|]. cbn [fire]. now rewrite Hx, IH.
Qed.

Lemma fire_select st (f : nat -> line) a n k :
  a <= k < a + n -> enabled st (f k) = true ->
  (forall p, a <= p < k -> enabled st (f p) = false) ->
  fire st (map f (seq a n)) = Some (k - a).
Proof.
  revert a. induction n as [|n IH]; intros a Hk Hen Hbefore; [lia|].
  cbn [seq map fire]. destruct (Nat.eq_dec a k) as [->|Hne].
  - rewrite Hen. f_equal. lia.
  - rewrite Hbefore by lia. rewrite (IH (S a)); [|lia|exact Hen|intros; apply Hbefore; lia].
    cbn [option_map]. f_equal. lia.
Qed.

Lemma enabled_eq_num st r n (rest : line) :
  enabled st (Cond r CEq (Num n) :: rest) = (st r =? Z.of_nat n)%Z && enabled st rest.
Proof.
  unfold enabled. cbn [forallb holds eval_cmp eval_operand Num].
  now rewrite lit_value_dec.
Qed.

Lemma enabled_commands st (l : line) :
  Forall (fun t => is_cond t = false) l -> enabled st l = true.
Proof.
  unfold enabled. induction 1 as [|t l Ht Hl IH]; [reflexivity|].
  cbn [forallb]. rewrite IH. now destruct t.
Qed.

Lemma prog_scripts_split cfg scripts :
  Prog.scripts cfg = Some scripts ->
  exists vars,
    Text.variables cfg = Some vars
    /\ scripts = Prog.base_scripts cfg ++ Prog.restart_scripts cfg vars.
Proof.
  unfold Prog.scripts. destruct (Text.variables cfg) as [vars|]; [|discriminate].
  intros E. exists vars. split; [reflexivity|congruence].
Qed.

Lemma base_script_in cfg scripts name s :
  Prog.scripts cfg = Some scripts -> In (name, s) (Prog.base_scripts cfg) ->
  In (name, s) scripts.
Proof.
  intros (vars & _ & ->)%prog_scripts_split H. apply in_or_app. now left.
Qed.

(** ** Token budget *)

Lemma command_count_app (a b : line) :
  command_count (a ++ b) = command_count a + command_count b.
Proof. unfold command_count. now rewrite List.filter_app, length_app. Qed.

Lemma compare_conditions cfg player :
  Forall (fun t => is_cond t = true) (Prog.compare cfg player).
Proof.
  unfold Prog.compare.
  apply (fold_left_invariant (Forall (fun t => is_cond t = true))).
  - repeat constructor.
  - intros acc other H. destruct (player =? other)%nat; [exact H|].
    apply List.Forall_app. split; [exact H | repeat constructor].
Qed.

Lemma command_count_conditions (l : line) :
  Forall (fun t => is_cond t = true) l -> command_count l = 0.
Proof.
  unfold command_count. induction 1 as [|t l Ht Hl IH]; [reflexivity|].
  cbn [List.filter]. now rewrite Ht.
Qed.

Lemma command_count_restart cfg vars l :
  restart_line cfg vars l -> command_count l <= 8.
Proof.
  intros (batch & x & y & -> & Hlen & _). rewrite command_count_app.
  assert (command_count (map assign_token batch) = length batch) as ->.
  { unfold command_count. clear Hlen. induction batch as [|e b IH]; cbn; [reflexivity|].
    now rewrite IH. }
  cbn. lia.
Qed.

(** Claim C1, as amended: for every game definition, every line of every
    generated script has at most 8 tokens that are not conditions (its
    commands, jumps and narration plays together). The conditions of a line
    are not part of this budget. *)
Theorem command_budget cfg :
  exists scripts,
    Prog.scripts cfg = Some scripts
    /\ Text.scripts cfg = Some (show_table scripts)
    /\ forall name s l,
         In (name, s) scripts -> In l (script_lines s) -> command_count l <= 8.
Proof.
  destruct (program_exists cfg) as (scripts & E & Et). exists scripts.
  split; [exact E|]. split; [exact Et|].
  apply (generated_lines cfg (fun _ l => command_count l <= 8)); try exact E.
  all: try (intros; unfold Prog.player_script, Prog.question, Prog.repeat_script,
              Prog.shuffle_state, Prog.card_script, Prog.firstCard, Prog.secondCard,
              Prog.test, Prog.clear1, Prog.clear2; each_line).
  all: try (cbn; lia).
  - unfold Prog.winner_line. rewrite command_count_app.
    rewrite (command_count_conditions _ (compare_conditions _ _)). cbn. lia.
  - unfold Prog.shuffle_line.
    destruct (pos1 =? x)%nat, (pos1 =? Text.numCards cfg - 2)%nat; cbn; lia.
  - eapply command_count_restart; eassumption.
Qed.

Ltac unfold_scripts :=
  unfold Prog.player_script, Prog.question, Prog.repeat_script,
    Prog.shuffle_state, Prog.card_script, Prog.firstCard, Prog.secondCard,
    Prog.test, Prog.clear1, Prog.clear2.

(** Claim C1 fails as stated: with one pair and one player, the first-card
    line of the card script [c0] has two conditions, five commands, a jump
    and a play, 9 tokens in all. *)
Lemma token_budget_exceeded :
  exists scripts l,
    Text.numPairs one_pair = 1 /\ players one_pair = 1
    /\ Prog.scripts one_pair = Some scripts
    /\ Text.scripts one_pair = Some (show_table scripts)
    /\ In ("c0", Lines (Prog.card_script one_pair 0)) scripts
    /\ nth_error (Prog.card_script one_pair 0) 3 = Some l
    /\ show_line l
       = "$busy==0? $card1==0? $card1:=$c0 $pos1:=0 $lastCard:=$c0 $lastPos:=0 $busy:=1 J(firstCard) P(nop)"
    /\ token_count l = 9
    /\ ~ token_count l <= 8.
Proof.
  eexists. eexists.
  split; [reflexivity|]. split; [reflexivity|].
  split; [vm_compute; reflexivity|].
  split; [vm_compute; reflexivity|].
  split; [do 6 right; left; reflexivity|].
  split; [reflexivity|].
  split; [reflexivity|].
  split; [reflexivity|]. cbn. lia.
Qed.

(** ** The busy flag *)

Lemma no_clear_in_conditions (l : line) :
  Forall (fun t => is_cond t = true) l -> existsb clears_busy l = false.
Proof.
  induction 1 as [|t l Ht Hl IH]; [reflexivity|].
  cbn [existsb]. rewrite IH. destruct t; try discriminate. reflexivity.
Qed.

Lemma no_clear_in_restart cfg vars l :
  Text.variables cfg = Some vars -> restart_line cfg vars l ->
  existsb clears_busy l = false.
Proof.
  intros Ev (batch & x & y & -> & _ & Hin & _).
  rewrite existsb_app. cbn. rewrite orb_false_r.
  apply not_true_is_false. intros H.
  apply existsb_exists in H as (t & Ht & Hc).
  apply in_map_iff in Ht as (e & <- & He).
  pose proof (variables_ok cfg vars Ev) as Hok. rewrite List.Forall_forall in Hok.
  destruct (Hok e (Hin e He)) as [_ Hne].
  unfold assign_token, clears_busy in Hc.
  apply andb_true_iff in Hc as [Hc _]. now apply String.eqb_eq in Hc.
Qed.

(** Claim C8, as amended: a line that stores 0 in the busy register is
    either the line of the idle script or the finished-game line that opens
    [clear1]; no other line of the generated program, and no restart line,
    clears the flag. *)
Theorem busy_cleared_in_two_places cfg :
  exists scripts,
    Prog.scripts cfg = Some scripts
    /\ Text.scripts cfg = Some (show_table scripts)
    /\ forall name s l,
         In (name, s) scripts -> In l (script_lines s) ->
         existsb clears_busy l = true ->
         (name = "idle" /\ l = Prog.idle)
         \/ (name = "clear1" /\ l = Prog.finished_line cfg).
Proof.
  destruct (program_exists cfg) as (scripts & E & Et). exists scripts.
  split; [exact E|]. split; [exact Et|].
  apply (generated_lines cfg
           (fun name l => existsb clears_busy l = true ->
              (name = "idle" /\ l = Prog.idle)
              \/ (name = "clear1" /\ l = Prog.finished_line cfg))); try exact E.
  all: try (intros; unfold_scripts; each_line).
  all: try (cbn; discriminate).
  - now left.
  - unfold Prog.winner_line. rewrite existsb_app.
    rewrite (no_clear_in_conditions _ (compare_conditions _ _)). cbn. discriminate.
  - unfold Prog.shuffle_line.
    destruct (pos1 =? x)%nat, (pos1 =? Text.numCards cfg - 2)%nat; cbn; discriminate.
  - now right.
  - match goal with Hc : existsb _ _ = true |- _ =>
      erewrite no_clear_in_restart in Hc; [discriminate | eassumption..] end.
Qed.

(** Claim C8 fails as stated: the finished-game line of [clear1], a script
    other than idle, stores 0 in [$busy] before it hands over to the query
    script. *)
Lemma busy_cleared_by_clear1 :
  exists scripts l,
    Prog.scripts one_pair = Some scripts
    /\ Text.scripts one_pair = Some (show_table scripts)
    /\ In ("clear1", Lines (Prog.clear1 one_pair)) scripts
    /\ nth_error (Prog.clear1 one_pair) 0 = Some l
    /\ show_line l = "$remaining==0? $busy:=0 J(q) P(en_finished)"
    /\ existsb clears_busy l = true
    /\ "clear1" <> "idle".
Proof.
  eexists. eexists.
  split; [vm_compute; reflexivity|].
  split; [vm_compute; reflexivity|].
  split; [do 11 right; left; reflexivity|].
  split; [reflexivity|].
  split; [reflexivity|].
  split; [reflexivity | discriminate].
Qed.

(** ** Division and modulus *)

Lemma conditions_divisor_ok (l : line) :
  Forall (fun t => is_cond t = true) l -> Forall divisor_ok l.
Proof.
  apply List.Forall_impl. intros [] Ht d Hd; discriminate.
Qed.

Lemma restart_divisor_ok cfg vars l : restart_line cfg vars l -> Forall divisor_ok l.
Proof.
  intros (batch & x & y & -> & _). apply List.Forall_app. split.
  - apply List.Forall_map, List.Forall_forall. intros e _ d Hd. discriminate.
  - repeat constructor; intros d Hd; discriminate.
Qed.

Ltac each_token :=
  repeat lazymatch goal with
    | |- Forall _ (_ ++ _) => apply List.Forall_app; split
    | |- Forall _ (_ :: _) => apply List.Forall_cons
    | |- Forall _ [] => apply List.Forall_nil
    end.

Lemma draw_divisor_ok n : 2 <= n -> Forall divisor_ok (Prog.draw n).
Proof.
  intros Hn. unfold Prog.draw. each_token; intros d Hd; try discriminate Hd.
  all: injection Hd as <-; eexists; split; [reflexivity|]; rewrite lit_value_dec; lia.
Qed.

(** Claim C10: with at least one pair, every [%=] and [/=] command of the
    generated program has a literal operand, and the literal is at least 2:
    the shuffle entry divides by numCards, the states by numCards-pos1-1,
    written only for pos1 <= numCards-3. *)
Theorem divisors_at_least_two cfg :
  1 <= Text.numPairs cfg ->
  exists scripts,
    Prog.scripts cfg = Some scripts
    /\ Text.scripts cfg = Some (show_table scripts)
    /\ forall name s l t,
         In (name, s) scripts -> In l (script_lines s) -> In t l -> divisor_ok t.
Proof.
  intros Hn.
  destruct (program_exists cfg) as (scripts & E & Et). exists scripts.
  split; [exact E|]. split; [exact Et|].
  intros name s l t Hs Hl. revert t. apply List.Forall_forall. revert name s l Hs Hl.
  apply (generated_lines cfg (fun _ l => Forall divisor_ok l)); try exact E.
  all: try (intros; unfold_scripts; each_line).
  all: unfold Prog.idle, Prog.not_started_line, Prog.turn_line, Prog.winner_line,
         Prog.draw_line, Prog.shuffle, Prog.shuffle_guard, Prog.lcg, Prog.match_line,
         Prog.finished_line.
  all: try (unfold Prog.shuffle_line, Prog.swap_slots, Prog.start_game;
            destruct (pos1 =? x)%nat, (pos1 =? Text.numCards cfg - 2)%nat eqn:El).
  all: each_token; try (intros d Hd; discriminate Hd).
  - apply conditions_divisor_ok, compare_conditions.
  - apply draw_divisor_ok. unfold Text.numCards. lia.
  - apply draw_divisor_ok. apply Nat.eqb_neq in El. lia.
  - apply draw_divisor_ok. apply Nat.eqb_neq in El. lia.
  - eapply restart_divisor_ok; eassumption.
Qed.

Lemma divisors_at_least_two_witness :
  1 <= Text.numPairs two_pairs
  /\ exists scripts,
       Prog.scripts two_pairs = Some scripts
       /\ Text.scripts two_pairs = Some (show_table scripts)
       /\ forall name s l t,
            In (name, s) scripts -> In l (script_lines s) -> In t l -> divisor_ok t.
Proof.
  split; [cbn; lia|]. apply (divisors_at_least_two two_pairs). cbn. lia.
Defined.

(** ** Decimal numerals *)

Lemma uint_number_ok (d : Decimal.uint) : number_ok (NilEmpty.string_of_uint d) = true.
Proof. induction d; cbn; auto. Qed.

Lemma dec_number_ok (n : nat) : number_ok (dec n) = true.
Proof. apply uint_number_ok. Qed.

Lemma dec_nonempty (n : nat) : dec n <> "".
Proof.
  intros H. pose proof (NilEmpty.usu (Nat.to_uint n)) as E.
  fold (dec n) in E. rewrite H in E. injection E as E.
  apply (f_equal Nat.of_uint) in E. rewrite Unsigned.of_to in E.
  subst n. discriminate H.
Qed.

Lemma word_ok_number (s : string) : number_ok s = true -> word_ok s = true.
Proof.
  unfold number_ok, word_ok. induction (list_ascii_of_string s) as [|c l IH]; cbn;
    [reflexivity|].
  intros [Hc Hl]%andb_true_iff. unfold Re.is_alnum. fold (Re.is_digit c).
  rewrite Hc, orb_true_r. auto.
Qed.

Lemma dec_word_ok (n : nat) : word_ok (dec n) = true.
Proof. apply word_ok_number, dec_number_ok. Qed.

Lemma list_ascii_app (a b : string) :
  list_ascii_of_string (a +:+ b) = list_ascii_of_string a ++ list_ascii_of_string b.
Proof. induction a as [|c a IH]; cbn; [reflexivity | now rewrite IH]. Qed.

Lemma word_ok_app (a b : string) : word_ok (a +:+ b) = word_ok a && word_ok b.
Proof. unfold word_ok. now rewrite list_ascii_app, forallb_app. Qed.

Lemma is_state_name_shuffle (n : nat) : is_state_name ("shuffle" +:+ dec n) = true.
Proof.
  unfold is_state_name.
  change (Re.literal "shuffle" ("shuffle" +:+ dec n)) with (Some (dec n)).
  cbv beta iota. rewrite dec_number_ok.
  destruct (String.eqb_spec (dec n) ""); [now apply dec_nonempty in e | reflexivity].
Qed.

(** ** The shuffle states *)

Section Shuffle.

Variable cfg : config.
Let n : nat := Text.numCards cfg.

Lemma last_shuffle_state :
  2 <= n ->
  Prog.shuffle_state cfg (n - 2)
  = [ [Cond "pos" CEq (Num 0);
       Play (lang cfg +:+ "_start"); Jump "idle"; Play (lang cfg +:+ "_player1")];
      [Cond "pos" CEq (Num 1);
       Cmd "t" ASet (Reg ("c" +:+ dec (n - 2)));
       Cmd ("c" +:+ dec (n - 2)) ASet (Reg ("c" +:+ dec (n - 1)));
       Cmd ("c" +:+ dec (n - 1)) ASet (Reg "t");
       Play (lang cfg +:+ "_start"); Jump "idle"; Play (lang cfg +:+ "_player1")] ].
Proof.
  intros Hn. unfold Prog.shuffle_state. fold n.
  rewrite Nat.ltb_irrefl. unfold range.
  replace (n - (n - 2)) with 2 by lia. cbn [seq map app].
  unfold Prog.shuffle_line. fold n.
  rewrite !Nat.eqb_refl.
  replace (n - 2 =? S (n - 2))%nat with false by (symmetry; apply Nat.eqb_neq; lia).
  replace (n - 2 - (n - 2)) with 0 by lia.
  replace (S (n - 2) - (n - 2)) with 1 by lia.
  replace (S (n - 2)) with (n - 1) by lia.
  reflexivity.
Qed.

Lemma filter_map_none {A B} (f : B -> bool) (g : A -> B) (l : list A) :
  (forall x, f (g x) = false) -> List.filter f (map g l) = [].
Proof.
  intros H. induction l as [|x l IH]; [reflexivity|]. cbn. now rewrite H.
Qed.

Lemma filter_map_all {A B} (f : B -> bool) (g : A -> B) (l : list A) :
  (forall x, f (g x) = true) -> List.filter f (map g l) = map g l.
Proof.
  intros H. induction l as [|x l IH]; [reflexivity|]. cbn. now rewrite H, IH.
Qed.

Lemma filter_none {A} (f : A -> bool) (l : list A) :
  (forall x, In x l -> f x = false) -> List.filter f l = [].
Proof.
  induction l as [|x l IH]; intros H; [reflexivity|]. cbn.
  rewrite H by now left. apply IH. intros y Hy. apply H. now right.
Qed.

(** The scripts named [shuffle] followed by a number are the states of the
    positions 0..numCards-2, in order. *)
Lemma state_scripts scripts :
  Prog.scripts cfg = Some scripts ->
  List.filter (fun e => is_state_name (fst e)) scripts
  = map (fun pos1 => ("shuffle" +:+ dec pos1, Lines (Prog.shuffle_state cfg pos1)))
        (range 0 (n - 1)).
Proof.
  unfold Prog.scripts. destruct (Text.variables cfg) as [vars|]; [|discriminate].
  intros E.
  assert (scripts = Prog.base_scripts cfg ++ Prog.restart_scripts cfg vars) as ->
    by congruence.
  clear E. unfold Prog.base_scripts. fold n.
  rewrite !List.filter_app.
  rewrite (filter_map_none _ _ (range 1 _)) by reflexivity.
  rewrite (filter_map_none _ _ (range 0 n)) by reflexivity.
  rewrite filter_map_all by (intros; apply is_state_name_shuffle).
  rewrite (filter_none _ (Prog.restart_scripts cfg vars)).
  - rewrite !(filter_none _ (_ :: _)).
    + cbn [app]. now rewrite !app_nil_r.
    + intros x Hx. repeat destruct Hx as [<-|Hx]; try reflexivity. destruct Hx.
    + intros x Hx. repeat destruct Hx as [<-|Hx]; try reflexivity. destruct Hx.
    + intros x Hx. repeat destruct Hx as [<-|Hx]; try reflexivity. destruct Hx.
  - intros [name s] (i & l & -> & _)%restart_scripts_lines. reflexivity.
Qed.

End Shuffle.

(** Claim C6, as amended: with at least one pair, the scripts named
    [shuffle{n}] are exactly the states of the positions 0..numCards-2,
    numCards-1 of them. The state of position numCards-2 has no regeneration
    line; it has two lines, [$pos==0?] which exchanges nothing and [$pos==1?]
    which exchanges the last two slots, and each of them plays the start
    narration, jumps to idle and plays the prompt of the first player
    instead of going to another shuffle state. *)
Theorem shuffle_family cfg :
  1 <= Text.numPairs cfg ->
  let n := Text.numCards cfg in
  exists scripts states,
    Prog.scripts cfg = Some scripts
    /\ Text.scripts cfg = Some (show_table scripts)
    /\ List.filter (fun e => is_state_name (fst e)) scripts = states
    /\ states = map (fun pos1 => ("shuffle" +:+ dec pos1,
                                  Lines (Prog.shuffle_state cfg pos1)))
                    (range 0 (n - 1))
    /\ length states = n - 1
    /\ Prog.shuffle_state cfg (n - 2)
       = [ [Cond "pos" CEq (Num 0);
            Play (lang cfg +:+ "_start"); Jump "idle"; Play (lang cfg +:+ "_player1")];
           [Cond "pos" CEq (Num 1);
            Cmd "t" ASet (Reg ("c" +:+ dec (n - 2)));
            Cmd ("c" +:+ dec (n - 2)) ASet (Reg ("c" +:+ dec (n - 1)));
            Cmd ("c" +:+ dec (n - 1)) ASet (Reg "t");
            Play (lang cfg +:+ "_start"); Jump "idle";
            Play (lang cfg +:+ "_player1")] ].
Proof.
  intros Hn n.
  destruct (program_exists cfg) as (scripts & E & Et).
  exists scripts. eexists. split; [exact E|]. split; [exact Et|].
  split; [apply state_scripts, E|]. split; [reflexivity|]. split.
  - unfold range. rewrite length_map, length_seq. lia.
  - apply last_shuffle_state. unfold Text.numCards. lia.
Qed.

Lemma shuffle_family_witness :
  1 <= Text.numPairs two_pairs
  /\ let n := Text.numCards two_pairs in
     exists scripts states,
       Prog.scripts two_pairs = Some scripts
       /\ Text.scripts two_pairs = Some (show_table scripts)
       /\ List.filter (fun e => is_state_name (fst e)) scripts = states
       /\ states = map (fun pos1 => ("shuffle" +:+ dec pos1,
                                     Lines (Prog.shuffle_state two_pairs pos1)))
                       (range 0 (n - 1))
       /\ length states = n - 1
       /\ Prog.shuffle_state two_pairs (n - 2)
          = [ [Cond "pos" CEq (Num 0);
               Play (lang two_pairs +:+ "_start"); Jump "idle";
               Play (lang two_pairs +:+ "_player1")];
              [Cond "pos" CEq (Num 1);
               Cmd "t" ASet (Reg ("c" +:+ dec (n - 2)));
               Cmd ("c" +:+ dec (n - 2)) ASet (Reg ("c" +:+ dec (n - 1)));
               Cmd ("c" +:+ dec (n - 1)) ASet (Reg "t");
               Play (lang two_pairs +:+ "_start"); Jump "idle";
               Play (lang two_pairs +:+ "_player1")] ].
Proof.
  split; [cbn; lia|]. apply (shuffle_family two_pairs). cbn. lia.
Defined.

(** Claim C6 fails as stated: the last state of the shuffle tests [$pos] in
    both of its lines, and the first of them exchanges nothing. *)
Lemma last_state_compares :
  exists l0 l1,
    Text.numPairs one_pair = 1
    /\ Prog.shuffle_state one_pair (Text.numCards one_pair - 2) = [l0; l1]
    /\ show_line l0 = "$pos==0? P(en_start) J(idle) P(en_player1)"
    /\ show_line l1
       = "$pos==1? $t:=$c0 $c0:=$c1 $c1:=$t P(en_start) J(idle) P(en_player1)"
    /\ existsb is_cond l0 = true
    /\ existsb is_cond l1 = true
    /\ existsb is_cmd l0 = false.
Proof.
  eexists. eexists. split; [reflexivity|].
  split; [vm_compute; reflexivity|]. repeat split; reflexivity.
Qed.

(** ** Which line fires *)

Lemma fire_spec st (script : list line) i :
  fire st script = Some i <->
  (exists l, nth_error script i = Some l /\ enabled st l = true)
  /\ (forall j l, j < i -> nth_error script j = Some l -> enabled st l = false).
Proof.
  revert i. induction script as [|l0 script IH]; intros i; cbn [fire].
  - split; [discriminate|]. intros [(l & H & _) _]. now destruct i.
  - destruct (enabled st l0) eqn:E0.
    + split.
      * intros [= <-]. split; [now exists l0|]. intros j l Hj. lia.
      * intros [(l & Hl & El) Hbefore]. destruct i as [|i]; [reflexivity|].
        specialize (Hbefore 0 l0 ltac:(lia) eq_refl). congruence.
    + destruct i as [|i].
      * split.
        -- destruct (fire st script); discriminate.
        -- intros [(l & [= <-] & El) _]. congruence.
      * split.
        -- destruct (fire st script) as [i'|] eqn:Ef; [|discriminate].
           intros [= <-]. destruct (proj1 (IH i') eq_refl) as [Hl Hbefore].
           split; [exact Hl|].
           intros [|j] l Hj; cbn [nth_error]; [now intros [= <-]|].
           apply Hbefore. lia.
        -- intros [Hl Hbefore].
           assert (fire st script = Some i) as ->; [|reflexivity].
           apply IH. split; [exact Hl|]. intros j l Hj Hn.
           apply (Hbefore (S j) l); [lia | exact Hn].
Qed.

Lemma nth_error_range a b i :
  nth_error (range a b) i = if (i <? b - a)%nat then Some (a + i) else None.
Proof.
  unfold range. destruct (Nat.ltb_spec i (b - a)).
  - rewrite nth_error_nth' with (d := 0) by now rewrite length_seq.
    now rewrite seq_nth.
  - apply nth_error_None. now rewrite length_seq.
Qed.

Section Guard.

Variable cfg : config.
Let n : nat := Text.numCards cfg.

Lemma guard_enabled st pos1 :
  enabled st (Prog.shuffle_guard cfg pos1) = true
  <-> (st "rnd" < Z.of_nat (10 * (n - pos1 - 1)))%Z.
Proof.
  unfold Prog.shuffle_guard, Prog.lcg, enabled. cbn [app forallb holds eval_cmp].
  unfold Num, eval_operand. rewrite lit_value_dec, !andb_true_r. fold n.
  apply Z.ltb_lt.
Qed.

(** Claim C7, as amended: for a position pos1 <= numCards-3 the first line
    of [shuffle{pos1}] is the regeneration line; it fires exactly when
    [$rnd < 10*(numCards-pos1-1)], takes a step of the generator (times
    25173, plus 13849), copies it to [$rnd] and jumps back to
    [shuffle{pos1}]. (The state of position numCards-2 has no such line, see
    [shuffle_family].) *)
Theorem regeneration_guard pos1 :
  pos1 + 2 < n ->
  (exists rest, Prog.shuffle_state cfg pos1
                = [Cond "rnd" CLt (Num (10 * (n - pos1 - 1)));
                   Cmd "random" AMul (Lit "25173"); Cmd "random" AAdd (Lit "13849");
                   Cmd "rnd" ASet (Reg "random");
                   Jump ("shuffle" +:+ dec pos1); Play "nop"] :: rest)
  /\ (forall st, fire st (Prog.shuffle_state cfg pos1) = Some 0
                 <-> (st "rnd" < Z.of_nat (10 * (n - pos1 - 1)))%Z).
Proof.
  intros Hpos.
  assert (Prog.shuffle_state cfg pos1
          = Prog.shuffle_guard cfg pos1
              :: map (Prog.shuffle_line cfg pos1) (range pos1 n)) as E.
  { unfold Prog.shuffle_state. fold n.
    replace (pos1 <? n - 2)%nat with true by (symmetry; apply Nat.ltb_lt; lia).
    reflexivity. }
  split; [rewrite E; eexists; reflexivity|].
  intros st. rewrite E, <- guard_enabled. cbn [fire].
  destruct (enabled st (Prog.shuffle_guard cfg pos1)); [tauto|].
  split; [|discriminate]. destruct (fire st _); discriminate.
Qed.

End Guard.

Lemma regeneration_guard_witness :
  0 + 2 < Text.numCards two_pairs
  /\ (exists rest, Prog.shuffle_state two_pairs 0
                   = [Cond "rnd" CLt (Num (10 * (Text.numCards two_pairs - 0 - 1)));
                      Cmd "random" AMul (Lit "25173"); Cmd "random" AAdd (Lit "13849");
                      Cmd "rnd" ASet (Reg "random");
                      Jump ("shuffle" +:+ dec 0); Play "nop"] :: rest)
  /\ (forall st, fire st (Prog.shuffle_state two_pairs 0) = Some 0
                 <-> (st "rnd" < Z.of_nat (10 * (Text.numCards two_pairs - 0 - 1)))%Z).
Proof.
  split; [cbn; lia|]. apply (regeneration_guard two_pairs 0). cbn. lia.
Defined.

(** Claim C7 fails as stated: with four cards the guard of position 0 reads
    [$rnd<30?]; at 35 it does not fire although 35 is below 10 * (4 - 0). *)
Lemma guard_threshold_one_lower :
  let st := only "rnd" 35 in
  Text.numCards two_pairs = 4
  /\ option_map show_line (nth_error (Prog.shuffle_state two_pairs 0) 0)
     = Some "$rnd<30? $random*=25173 $random+=13849 $rnd:=$random J(shuffle0) P(nop)"
  /\ (st "rnd" < 10 * (Z.of_nat (Text.numCards two_pairs) - 0))%Z
  /\ fire st (Prog.shuffle_state two_pairs 0) = Some 1
  /\ fire st (Prog.shuffle_state two_pairs 0) <> Some 0.
Proof.
  cbv zeta. split; [reflexivity|]. split; [reflexivity|].
  split; [vm_compute; reflexivity|].
  assert (fire (only "rnd" 35) (Prog.shuffle_state two_pairs 0) = Some 1) as ->
    by (vm_compute; reflexivity).
  split; [reflexivity | discriminate].
Qed.

(** ** The winner *)

Section Winner.

Variable cfg : config.
Variable st : store.

Let P : nat := players cfg.
Let score (k : nat) : Z := st ("pairs" +:+ dec k).

#[local] Abbreviation leading := (leads cfg st).

Lemma compare_fold player (l : list nat) (acc : line) :
  fold_left
    (fun acc other =>
       if (player =? other)%nat then acc
       else acc ++ [Cond ("pairs" +:+ dec player) CGt (Reg ("pairs" +:+ dec other))])
    l acc
  = acc ++ map (fun other =>
                  Cond ("pairs" +:+ dec player) CGt (Reg ("pairs" +:+ dec other)))
               (List.filter (fun other => negb (player =? other)%nat) l).
Proof.
  revert acc. induction l as [|other l IH]; intros acc; cbn [fold_left List.filter map].
  - now rewrite app_nil_r.
  - rewrite IH. destruct (player =? other)%nat; cbn [negb map]; [reflexivity|].
    now rewrite <- app_assoc.
Qed.

Lemma compare_tokens player :
  Prog.compare cfg player
  = Cond "busy" CEq (Num 0)
      :: map (fun other => Cond ("pairs" +:+ dec player) CGt (Reg ("pairs" +:+ dec other)))
             (List.filter (fun other => negb (player =? other)%nat) (range 1 (P + 1))).
Proof. unfold Prog.compare. now rewrite compare_fold. Qed.

Lemma winner_enabled k :
  enabled st (Prog.winner_line cfg k) = true <-> st "busy" = 0%Z /\ leading k.
Proof.
  unfold Prog.winner_line, enabled. rewrite forallb_app, compare_tokens.
  cbn [forallb holds eval_cmp eval_operand Num]. rewrite !andb_true_r.
  rewrite lit_value_dec, andb_true_iff, Z.eqb_eq, forallb_forall.
  apply and_iff_compat_l. unfold leads. fold P. split.
  - intros H j Hj Hne. specialize (H (Cond ("pairs" +:+ dec k) CGt (Reg ("pairs" +:+ dec j)))).
    cbn in H. apply Z.ltb_lt, H. apply in_map_iff. exists j. split; [reflexivity|].
    apply filter_In. split; [apply in_range; lia|].
    apply negb_true_iff, Nat.eqb_neq. auto.
  - intros H t (j & <- & Hj)%in_map_iff. apply filter_In in Hj as [Hj Hne].
    apply in_range in Hj. apply negb_true_iff, Nat.eqb_neq in Hne.
    cbn. apply Z.ltb_lt, H; [lia | auto].
Qed.

(** The lines of the query script by index: the not-started line, one turn
    line per player, one winner line per player, the draw line. *)
Lemma question_nth i :
  nth_error (Prog.question cfg) i
  = if (i =? 0)%nat then Some (Prog.not_started_line cfg)
    else if (i <=? P)%nat then Some (Prog.turn_line cfg i)
    else if (i <=? 2 * P)%nat then Some (Prog.winner_line cfg (i - P))
    else if (i =? 2 * P + 1)%nat then Some (Prog.draw_line cfg)
    else None.
Proof.
  unfold Prog.question. fold P.
  destruct i as [|i]; [reflexivity|]. cbn [app nth_error].
  change (S i =? 0)%nat with false. cbv iota.
  assert (length (map (Prog.turn_line cfg) (range 1 (P + 1))) = P) as Ht
    by (unfold range; rewrite length_map, length_seq; lia).
  assert (length (map (Prog.winner_line cfg) (range 1 (P + 1))) = P) as Hw
    by (unfold range; rewrite length_map, length_seq; lia).
  destruct (Nat.leb_spec (S i) P).
  - rewrite nth_error_app1 by lia. rewrite nth_error_map, nth_error_range.
    replace (i <? P + 1 - 1)%nat with true by (symmetry; apply Nat.ltb_lt; lia).
    reflexivity.
  - rewrite nth_error_app2 by lia. rewrite Ht.
    destruct (Nat.leb_spec (S i) (2 * P)).
    + rewrite nth_error_app1 by lia. rewrite nth_error_map, nth_error_range.
      replace (i - P <? P + 1 - 1)%nat with true by (symmetry; apply Nat.ltb_lt; lia).
      cbn [option_map]. do 2 f_equal. lia.
    + rewrite nth_error_app2 by lia. rewrite Hw.
      destruct (Nat.eqb_spec (S i) (2 * P + 1)) as [E|E].
      * replace (i - P - P) with 0 by lia. reflexivity.
      * replace (i - P - P) with (S (i - P - P - 1)) by lia. cbn [nth_error].
        now destruct (i - P - P - 1).
Qed.

Hypothesis idle_device : st "busy" = 0%Z.
Hypothesis game_started : st "players" <> 0%Z.
Hypothesis all_found : st "remaining" = 0%Z.

(** In a finished game, no line before the winner lines is enabled. *)
Lemma before_winners j l :
  j <= P -> nth_error (Prog.question cfg) j = Some l -> enabled st l = false.
Proof.
  intros Hj. rewrite question_nth.
  destruct (Nat.eqb_spec j 0) as [->|Hne].
  - intros [= <-]. unfold Prog.not_started_line, enabled.
    cbn [forallb holds eval_cmp eval_operand Num]. rewrite lit_value_dec.
    change (Z.of_nat 0) with 0%Z. apply Z.eqb_neq in game_started.
    now rewrite game_started, andb_false_r.
  - replace (j <=? P)%nat with true by (symmetry; apply Nat.leb_le; lia).
    intros [= <-]. unfold Prog.turn_line, enabled.
    cbn [forallb holds eval_cmp eval_operand Num]. rewrite !lit_value_dec, all_found.
    change (Z.of_nat 0) with 0%Z. now rewrite andb_false_r.
Qed.

Lemma leads_unique k k' :
  1 <= k <= P -> 1 <= k' <= P -> leading k -> leading k' -> k = k'.
Proof.
  intros Hk Hk' H H'. destruct (Nat.eq_dec k k') as [|Hne]; [assumption|].
  specialize (H k' Hk' (not_eq_sym Hne)). specialize (H' k Hk Hne). lia.
Qed.

(** Claim C4: the query script [q] of the generated program holds, behind
    the turn lines, one winner line per player k, guarded by
    [$pairs_k>$pairs_j?] for every other player j and playing the winner
    narration of k, and last the draw line. In a finished game (device
    idle, players chosen, no pair remaining) the line that fires is the
    winner line of player k exactly when k holds strictly more pairs than
    every other player, and the draw line exactly when no player does. *)
Theorem winner_computation :
  exists scripts,
    Prog.scripts cfg = Some scripts
    /\ Text.scripts cfg = Some (show_table scripts)
    /\ In ("q", Lines (Prog.question cfg)) scripts
    /\ (forall k, 1 <= k <= P ->
          nth_error (Prog.question cfg) (P + k)
          = Some (Cond "busy" CEq (Num 0)
                  :: map (fun other =>
                            Cond ("pairs" +:+ dec k) CGt (Reg ("pairs" +:+ dec other)))
                         (List.filter (fun other => negb (k =? other)%nat)
                                      (range 1 (P + 1)))
                  ++ [Cmd "busy" ASet (Num 1); Jump "idle";
                      Play (lang cfg +:+ "_winner" +:+ dec k)])
          /\ (fire st (Prog.question cfg) = Some (P + k) <-> leading k))
    /\ nth_error (Prog.question cfg) (2 * P + 1)
       = Some [Cond "busy" CEq (Num 0); Cmd "busy" ASet (Num 1); Jump "idle";
               Play (lang cfg +:+ "_draw")]
    /\ (fire st (Prog.question cfg) = Some (2 * P + 1)
        <-> ~ exists k, 1 <= k <= P /\ leading k).
Proof.
  assert (forall k, 1 <= k <= P ->
            nth_error (Prog.question cfg) (P + k) = Some (Prog.winner_line cfg k)) as Hnth.
  { intros k Hk. rewrite question_nth.
    replace (P + k =? 0)%nat with false by (symmetry; apply Nat.eqb_neq; lia).
    replace (P + k <=? P)%nat with false by (symmetry; apply Nat.leb_gt; lia).
    replace (P + k <=? 2 * P)%nat with true by (symmetry; apply Nat.leb_le; lia).
    do 2 f_equal. lia. }
  assert (nth_error (Prog.question cfg) (2 * P + 1) = Some (Prog.draw_line cfg)) as Hdraw.
  { rewrite question_nth.
    replace (2 * P + 1 =? 0)%nat with false by (symmetry; apply Nat.eqb_neq; lia).
    replace (2 * P + 1 <=? P)%nat with false by (symmetry; apply Nat.leb_gt; lia).
    replace (2 * P + 1 <=? 2 * P)%nat with false by (symmetry; apply Nat.leb_gt; lia).
    now rewrite Nat.eqb_refl. }
  assert (forall j l, j <= 2 * P -> nth_error (Prog.question cfg) j = Some l ->
            enabled st l = true -> P < j /\ leading (j - P)) as Hwin.
  { intros j l Hj Hl El. destruct (Nat.le_gt_cases j P) as [Hle|Hgt].
    - rewrite (before_winners j l Hle Hl) in El. discriminate.
    - split; [exact Hgt|]. replace j with (P + (j - P)) in Hl by lia.
      rewrite Hnth in Hl by lia. injection Hl as <-.
      now apply winner_enabled in El. }
  destruct (program_exists cfg) as (scripts & E & Et).
  exists scripts. split; [exact E|]. split; [exact Et|]. split.
  { apply (base_script_in cfg scripts _ _ E). unfold Prog.base_scripts.
    rewrite !in_app_iff. do 2 right. left. now left. }
  split; [|split; [exact Hdraw|]].
  - intros k Hk. split.
    { rewrite (Hnth k Hk). unfold Prog.winner_line. now rewrite compare_tokens. }
    rewrite fire_spec. split.
    + intros [(l & Hl & El) _]. rewrite Hnth in Hl by exact Hk. injection Hl as <-.
      now apply winner_enabled in El.
    + intros Hlead. split.
      * exists (Prog.winner_line cfg k). split; [now apply Hnth|].
        now apply winner_enabled.
      * intros j l Hj Hl. destruct (enabled st l) eqn:El; [|reflexivity].
        destruct (Hwin j l ltac:(lia) Hl El) as [Hgt Hlead'].
        assert (j - P = k) by (apply leads_unique; auto; lia). lia.
  - rewrite fire_spec. split.
    + intros [_ Hbefore] (k & Hk & Hlead).
      specialize (Hbefore (P + k) _ ltac:(lia) (Hnth k Hk)).
      assert (enabled st (Prog.winner_line cfg k) = true) by now apply winner_enabled.
      congruence.
    + intros Hnone. split.
      * exists (Prog.draw_line cfg). split; [exact Hdraw|].
        unfold Prog.draw_line, enabled. cbn [forallb holds eval_cmp eval_operand Num].
        rewrite lit_value_dec, idle_device. reflexivity.
      * intros j l Hj Hl. destruct (enabled st l) eqn:El; [|reflexivity].
        destruct (Hwin j l ltac:(lia) Hl El) as [Hgt Hlead].
        exfalso. apply Hnone. exists (j - P). split; [lia | exact Hlead].
Qed.

End Winner.

(** Two players with 3 and 1 pairs, with 2 pairs each, and three players
    with the top score shared. *)
Example winner_3_1 :
  let st := store_of [("players", 2); ("pairs1", 3); ("pairs2", 1)]%Z in
  fire st (Prog.question two_pairs) = Some 3
  /\ option_map show_line (nth_error (Prog.question two_pairs) 3)
     = Some "$busy==0? $pairs1>$pairs2? $busy:=1 J(idle) P(en_winner1)".
Proof. split; vm_compute; reflexivity. Qed.

Example draw_2_2 :
  let st := store_of [("players", 2); ("pairs1", 2); ("pairs2", 2)]%Z in
  fire st (Prog.question two_pairs) = Some 5
  /\ option_map show_line (nth_error (Prog.question two_pairs) 5)
     = Some "$busy==0? $busy:=1 J(idle) P(en_draw)".
Proof. split; vm_compute; reflexivity. Qed.

Example draw_tied_top :
  let st := store_of [("players", 3); ("pairs1", 1); ("pairs2", 1)]%Z in
  fire st (Prog.question three_players) = Some 7
  /\ option_map show_line (nth_error (Prog.question three_players) 7)
     = Some "$busy==0? $busy:=1 J(idle) P(de_draw)".
Proof. split; vm_compute; reflexivity. Qed.

(** The theorem at the three finished games above: with 3 and 1 pairs
    player 1 leads and the winner line of player 1 fires; with 2 pairs
    each, and with three players of which two share the top score, nobody
    leads and the draw line fires. *)
Lemma winner_computation_witness :
  let won := store_of [("players", 2); ("pairs1", 3); ("pairs2", 1)]%Z in
  let even := store_of [("players", 2); ("pairs1", 2); ("pairs2", 2)]%Z in
  let tied := store_of [("players", 3); ("pairs1", 1); ("pairs2", 1)]%Z in
  (won "busy" = 0%Z /\ won "players" <> 0%Z /\ won "remaining" = 0%Z
   /\ leads two_pairs won 1
   /\ fire won (Prog.question two_pairs) = Some 3
   /\ nth_error (Prog.question two_pairs) 3
      = Some [Cond "busy" CEq (Num 0); Cond "pairs1" CGt (Reg "pairs2");
              Cmd "busy" ASet (Num 1); Jump "idle"; Play "en_winner1"])
  /\ (even "busy" = 0%Z /\ even "players" <> 0%Z /\ even "remaining" = 0%Z
      /\ (~ exists k, 1 <= k <= 2 /\ leads two_pairs even k)
      /\ fire even (Prog.question two_pairs) = Some 5
      /\ nth_error (Prog.question two_pairs) 5
         = Some [Cond "busy" CEq (Num 0); Cmd "busy" ASet (Num 1); Jump "idle";
                 Play "en_draw"])
  /\ (tied "busy" = 0%Z /\ tied "players" <> 0%Z /\ tied "remaining" = 0%Z
      /\ (~ exists k, 1 <= k <= 3 /\ leads three_players tied k)
      /\ fire tied (Prog.question three_players) = Some 7
      /\ nth_error (Prog.question three_players) 7
         = Some [Cond "busy" CEq (Num 0); Cmd "busy" ASet (Num 1); Jump "idle";
                 Play "de_draw"]).
Proof.
  cbv zeta. split; [|split].
  - split; [reflexivity|]. split; [discriminate|]. split; [reflexivity|].
    assert (leads two_pairs (store_of [("players", 2); ("pairs1", 3); ("pairs2", 1)]%Z) 1)
      as Hlead.
    { intros j Hj Hne. cbn in Hj. assert (j = 2) as -> by lia. reflexivity. }
    split; [exact Hlead|].
    destruct (winner_computation two_pairs
                (store_of [("players", 2); ("pairs1", 3); ("pairs2", 1)]%Z)
                eq_refl ltac:(discriminate) eq_refl)
      as (scripts & _ & _ & _ & Hw & _ & _).
    destruct (Hw 1 ltac:(cbn; lia)) as [Hn Hf].
    split; [exact (proj2 Hf Hlead) | exact Hn].
  - split; [reflexivity|]. split; [discriminate|]. split; [reflexivity|].
    assert (~ exists k, 1 <= k <= 2
                        /\ leads two_pairs
                             (store_of [("players", 2); ("pairs1", 2); ("pairs2", 2)]%Z) k)
      as Hnone.
    { intros (k & Hk & Hl).
      assert (k = 1 \/ k = 2) as [-> | ->] by lia;
        [specialize (Hl 2 ltac:(cbn; lia) ltac:(lia))
        |specialize (Hl 1 ltac:(cbn; lia) ltac:(lia))];
        discriminate Hl. }
    split; [exact Hnone|].
    destruct (winner_computation two_pairs
                (store_of [("players", 2); ("pairs1", 2); ("pairs2", 2)]%Z)
                eq_refl ltac:(discriminate) eq_refl)
      as (scripts & _ & _ & _ & _ & Hd & Hf).
    split; [exact (proj2 Hf Hnone) | exact Hd].
  - split; [reflexivity|]. split; [discriminate|]. split; [reflexivity|].
    assert (~ exists k, 1 <= k <= 3
                        /\ leads three_players
                             (store_of [("players", 3); ("pairs1", 1); ("pairs2", 1)]%Z) k)
      as Hnone.
    { intros (k & Hk & Hl).
      assert (k = 1 \/ k = 2 \/ k = 3) as [-> | [-> | ->]] by lia;
        [specialize (Hl 2 ltac:(cbn; lia) ltac:(lia))
        |specialize (Hl 1 ltac:(cbn; lia) ltac:(lia))
        |specialize (Hl 1 ltac:(cbn; lia) ltac:(lia))];
        discriminate Hl. }
    split; [exact Hnone|].
    destruct (winner_computation three_players
                (store_of [("players", 3); ("pairs1", 1); ("pairs2", 1)]%Z)
                eq_refl ltac:(discriminate) eq_refl)
      as (scripts & _ & _ & _ & _ & Hd & Hf).
    split; [exact (proj2 Hf Hnone) | exact Hd].
Defined.

(** ** Pairs *)

Section Pairs.

Variable cfg : config.
Let np : nat := Text.numPairs cfg.
Let n : nat := Text.numCards cfg.

(** The two list accesses of [sound] are in range for the cards the
    generator passes. *)
Lemma sound_in_range c :
  1 <= c <= n ->
  pair_index cfg c < length (pairs cfg)
  /\ Text.sound cfg c = nth (pair_index cfg c) (pairs cfg) "" +:+ sound_suffix cfg c.
Proof.
  intros Hc. unfold pair_index, Text.sound, sound_suffix. fold np n.
  assert (n = np * 2) as Hn by reflexivity. change (length (pairs cfg)) with np.
  destruct (Nat.leb_spec c np); (split; [lia|]);
    destruct (alternativeSounds cfg); now rewrite ?sapp_nil_r.
Qed.

Lemma match_line_enabled st p :
  enabled st (Prog.match_line cfg p) = true
  <-> st "sum" = Z.of_nat (n + 1) /\ st "player" = Z.of_nat p.
Proof.
  unfold Prog.match_line, enabled. cbn [forallb holds eval_cmp eval_operand Num].
  rewrite !lit_value_dec, !andb_true_r, andb_true_iff, !Z.eqb_eq. reflexivity.
Qed.

(** The match lines open the test script, one per player. *)
Lemma test_match_nth p :
  1 <= p <= players cfg ->
  nth_error (Prog.test cfg) (p - 1) = Some (Prog.match_line cfg p).
Proof.
  intros Hp. unfold Prog.test. rewrite nth_error_app1.
  - rewrite nth_error_map, nth_error_range.
    replace (p - 1 <? players cfg + 1 - 1)%nat with true
      by (symmetry; apply Nat.ltb_lt; lia).
    cbn [option_map]. do 2 f_equal. lia.
  - unfold range. rewrite length_map, length_seq. lia.
Qed.

Lemma test_match_fires st p :
  1 <= p <= players cfg ->
  fire st (Prog.test cfg) = Some (p - 1)
  <-> st "sum" = Z.of_nat (n + 1) /\ st "player" = Z.of_nat p.
Proof.
  intros Hp. rewrite fire_spec. split.
  - intros [(l & Hl & El) _]. rewrite test_match_nth in Hl by exact Hp.
    injection Hl as <-. now apply match_line_enabled.
  - intros H. split.
    + exists (Prog.match_line cfg p).
      split; [now apply test_match_nth | now apply match_line_enabled].
    + intros j l Hj Hl. replace j with (S j - 1) in Hl by lia.
      rewrite test_match_nth in Hl by lia. injection Hl as <-.
      destruct (enabled st (Prog.match_line cfg (S j))) eqn:E; [|reflexivity].
      apply match_line_enabled in E as [_ E]. destruct H as [_ H]. lia.
Qed.

(** Claim C3: for a card c in 1..numCards, the cards c and numCards+1-c
    take their narration from the same entry of [pairs] (entry c-1 when
    c <= numPairs), and for two cards of the board the sum of their ids is
    numCards+1 exactly when they are the two different cards of one pair.
    In the generated program the line of [secondCard] for card c stores
    [$card1+$card2] in [$sum] and jumps to [test]; the first lines of
    [test] are the match lines, one per player, guarded by
    [$sum==numCards+1], and the match line of player p fires exactly when
    [$sum] is numCards+1 and it is the turn of p. *)
Theorem pair_symmetry c :
  1 <= c <= n ->
  let c' := n + 1 - c in
  1 <= c' <= n
  /\ pair_index cfg c < np
  /\ pair_index cfg c' = pair_index cfg c
  /\ (c <= np -> pair_index cfg c = c - 1)
  /\ Text.sound cfg c = nth (pair_index cfg c) (pairs cfg) "" +:+ sound_suffix cfg c
  /\ Text.sound cfg c' = nth (pair_index cfg c) (pairs cfg) "" +:+ sound_suffix cfg c'
  /\ (forall c2, 1 <= c2 <= n ->
        (c + c2 = n + 1 <-> c2 <> c /\ pair_index cfg c2 = pair_index cfg c))
  /\ (forall st p,
        enabled st (Prog.match_line cfg p) = true
        <-> st "sum" = Z.of_nat (n + 1) /\ st "player" = Z.of_nat p)
  /\ exists scripts,
       Prog.scripts cfg = Some scripts
       /\ Text.scripts cfg = Some (show_table scripts)
       /\ In ("secondCard", Lines (Prog.secondCard cfg)) scripts
       /\ nth_error (Prog.secondCard cfg) (c - 1)
          = Some [Cond "card2" CEq (Num c);
                  Cmd "sum" ASet (Reg "card1"); Cmd "sum" AAdd (Reg "card2");
                  Cmd "card1" ASet (Num 0); Cmd "card2" ASet (Num 0);
                  Jump "test"; Play (Text.sound cfg c)]
       /\ In ("test", Lines (Prog.test cfg)) scripts
       /\ forall p, 1 <= p <= players cfg ->
            nth_error (Prog.test cfg) (p - 1) = Some (Prog.match_line cfg p)
            /\ Prog.match_line cfg p
               = [Cond "sum" CEq (Num (n + 1)); Cond "player" CEq (Num p);
                  Cmd ("pairs" +:+ dec p) AAdd (Num 1); Cmd "remaining" ASub (Num 1);
                  Jump "clear1"; Play (lang cfg +:+ "_match")]
            /\ forall st,
                 fire st (Prog.test cfg) = Some (p - 1)
                 <-> st "sum" = Z.of_nat (n + 1) /\ st "player" = Z.of_nat p.
Proof.
  intros Hc c'. assert (n = np * 2) as Hn by reflexivity.
  assert (1 <= c' <= n) as Hc' by (unfold c'; lia).
  assert (pair_index cfg c' = pair_index cfg c) as Hsym.
  { unfold pair_index, c'. fold np n.
    destruct (Nat.leb_spec c np), (Nat.leb_spec (n + 1 - c) np); lia. }
  split; [exact Hc'|]. split; [apply sound_in_range, Hc|]. split; [exact Hsym|].
  split; [unfold pair_index; fold np; intros H; apply Nat.leb_le in H; now rewrite H|].
  split; [apply sound_in_range, Hc|].
  split; [rewrite <- Hsym; apply sound_in_range, Hc'|].
  split.
  { intros c2 Hc2. unfold pair_index. fold np n.
    destruct (Nat.leb_spec c np), (Nat.leb_spec c2 np); lia. }
  split; [apply match_line_enabled|].
  destruct (program_exists cfg) as (scripts & E & Et).
  exists scripts. split; [exact E|]. split; [exact Et|]. split.
  { apply (base_script_in cfg scripts _ _ E). unfold Prog.base_scripts.
    rewrite !in_app_iff. do 5 right. cbn. tauto. }
  split.
  { unfold Prog.secondCard. rewrite nth_error_map, nth_error_range.
    replace (c - 1 <? Text.numCards cfg + 1 - 1)%nat with true
      by (symmetry; apply Nat.ltb_lt; fold n; lia).
    cbn [option_map]. replace (1 + (c - 1)) with c by lia. reflexivity. }
  split.
  { apply (base_script_in cfg scripts _ _ E). unfold Prog.base_scripts.
    rewrite !in_app_iff. do 5 right. cbn. tauto. }
  intros p Hp. split; [now apply test_match_nth|]. split; [reflexivity|].
  intros st. now apply test_match_fires.
Qed.

End Pairs.

Lemma pair_symmetry_witness :
  let cfg := two_pairs in
  let n := Text.numCards cfg in
  let c := 2 in
  1 <= c <= n
  /\ let c' := n + 1 - c in
     1 <= c' <= n
     /\ pair_index cfg c < Text.numPairs cfg
     /\ pair_index cfg c' = pair_index cfg c
     /\ (c <= Text.numPairs cfg -> pair_index cfg c = c - 1)
     /\ Text.sound cfg c = nth (pair_index cfg c) (pairs cfg) "" +:+ sound_suffix cfg c
     /\ Text.sound cfg c' = nth (pair_index cfg c) (pairs cfg) "" +:+ sound_suffix cfg c'
     /\ (forall c2, 1 <= c2 <= n ->
           (c + c2 = n + 1 <-> c2 <> c /\ pair_index cfg c2 = pair_index cfg c))
     /\ (forall st p,
           enabled st (Prog.match_line cfg p) = true
           <-> st "sum" = Z.of_nat (n + 1) /\ st "player" = Z.of_nat p)
     /\ exists scripts,
          Prog.scripts cfg = Some scripts
          /\ Text.scripts cfg = Some (show_table scripts)
          /\ In ("secondCard", Lines (Prog.secondCard cfg)) scripts
          /\ nth_error (Prog.secondCard cfg) (c - 1)
             = Some [Cond "card2" CEq (Num c);
                     Cmd "sum" ASet (Reg "card1"); Cmd "sum" AAdd (Reg "card2");
                     Cmd "card1" ASet (Num 0); Cmd "card2" ASet (Num 0);
                     Jump "test"; Play (Text.sound cfg c)]
          /\ In ("test", Lines (Prog.test cfg)) scripts
          /\ forall p, 1 <= p <= players cfg ->
               nth_error (Prog.test cfg) (p - 1) = Some (Prog.match_line cfg p)
               /\ Prog.match_line cfg p
                  = [Cond "sum" CEq (Num (n + 1)); Cond "player" CEq (Num p);
                     Cmd ("pairs" +:+ dec p) AAdd (Num 1); Cmd "remaining" ASub (Num 1);
                     Jump "clear1"; Play (lang cfg +:+ "_match")]
               /\ forall st,
                    fire st (Prog.test cfg) = Some (p - 1)
                    <-> st "sum" = Z.of_nat (n + 1) /\ st "player" = Z.of_nat p.
Proof.
  cbv zeta. split; [cbn; lia|]. apply (pair_symmetry two_pairs 2). cbn. lia.
Defined.

(** ** Script codes *)

Lemma set_absent_frame k v (m : gmap string Z) k' x :
  m !! k' = Some x -> Text.set_absent k v m !! k' = Some x.
Proof.
  intros H. unfold Text.set_absent. destruct (m !! k) eqn:E; [exact H|].
  rewrite lookup_insert_ne; [exact H | congruence].
Qed.

Lemma set_absent_new k v (m : gmap string Z) :
  m !! k = None -> Text.set_absent k v m !! k = Some v.
Proof. intros H. unfold Text.set_absent. rewrite H. apply lookup_insert_eq. Qed.

Lemma set_absent_other k v (m : gmap string Z) k' :
  k <> k' -> Text.set_absent k v m !! k' = m !! k'.
Proof.
  intros H. unfold Text.set_absent. destruct (m !! k); [reflexivity|].
  now apply lookup_insert_ne.
Qed.

Lemma set_absent_origin k v (m : gmap string Z) k' :
  m !! k' = None -> is_Some (Text.set_absent k v m !! k') -> k' = k.
Proof.
  intros H [x Hx]. destruct (decide (k = k')) as [->|Hne]; [reflexivity|].
  rewrite set_absent_other in Hx by exact Hne. congruence.
Qed.

(** A numbering loop: every element advances the counter by one and gives
    its name the counter plus [delta], unless the name has a code. *)
Section Numbering.

Context {A : Type}.
Variable name : A -> string.
Variable delta : Z.
Variable step : Z * gmap string Z -> A -> Z * gmap string Z.
Hypothesis step_eq : forall st x,
  step st x = ((fst st + 1)%Z, Text.set_absent (name x) (fst st + delta)%Z (snd st)).

Lemma numbering_frame l st k v :
  snd st !! k = Some v -> snd (fold_left step l st) !! k = Some v.
Proof.
  intros H0. apply (fold_left_invariant (fun st => snd st !! k = Some v)); [exact H0|].
  intros st' x H. rewrite step_eq. now apply set_absent_frame.
Qed.

Lemma numbering_origin l st k :
  snd st !! k = None -> is_Some (snd (fold_left step l st) !! k) ->
  In k (map name l).
Proof.
  revert st. induction l as [|x l IH]; intros st Hk Hs; cbn [fold_left] in Hs.
  - rewrite Hk in Hs. now destruct Hs.
  - destruct (decide (name x = k)) as [<-|Hne]; [now left|]. right.
    apply (IH (step st x)); [|exact Hs].
    rewrite step_eq. cbn [snd]. now rewrite set_absent_other.
Qed.

Lemma numbering_value l st i x :
  NoDup (map name l) -> nth_error l i = Some x -> snd st !! name x = None ->
  snd (fold_left step l st) !! name x = Some (fst st + Z.of_nat i + delta)%Z.
Proof.
  revert st i. induction l as [|y l IH]; intros st i Hnd Hi Hx; [now destruct i|].
  apply NoDup_cons in Hnd as [Hy Hnd]. cbn [fold_left]. destruct i as [|i].
  - injection Hi as ->. apply numbering_frame. rewrite step_eq. cbn [snd].
    rewrite set_absent_new by exact Hx. f_equal. lia.
  - cbn [nth_error] in Hi. rewrite (IH (step st y) i Hnd Hi).
    + rewrite step_eq. cbn [fst]. f_equal. lia.
    + rewrite step_eq. cbn [snd]. rewrite set_absent_other; [exact Hx|].
      intros E. apply Hy. rewrite E. apply list_elem_of_In, in_map.
      eapply nth_error_In, Hi.
Qed.

End Numbering.

Lemma numbering_none {A} (name : A -> string) delta step l st k :
  (forall st x, step st x
     = ((fst st + 1)%Z, Text.set_absent (name x) (fst st + delta)%Z (snd st))) ->
  snd st !! k = None -> ~ In k (map name l) ->
  snd (fold_left step l st) !! k = None.
Proof.
  intros Hstep Hk Hin. destruct (snd (fold_left step l st) !! k) eqn:E; [|reflexivity].
  exfalso. apply Hin. eapply numbering_origin; eauto.
Qed.

Lemma other_codes_frame l st k v :
  snd st !! k = Some v -> snd (fold_left Text.other_codes l st) !! k = Some v.
Proof.
  intros H0. apply (fold_left_invariant (fun st => snd st !! k = Some v)); [exact H0|].
  intros st' x H. unfold Text.other_codes. destruct (snd st' !! x) eqn:E; [exact H|].
  cbn [snd]. rewrite lookup_insert_ne; [exact H | congruence].
Qed.

Lemma other_codes_origin l st k :
  snd st !! k = None -> is_Some (snd (fold_left Text.other_codes l st) !! k) -> In k l.
Proof.
  revert st. induction l as [|x l IH]; intros st Hk Hs; cbn [fold_left] in Hs.
  - rewrite Hk in Hs. now destruct Hs.
  - destruct (decide (x = k)) as [<-|Hne]; [now left|]. right.
    apply (IH (Text.other_codes st x)); [|exact Hs].
    unfold Text.other_codes. destruct (snd st !! x); [exact Hk|].
    cbn [snd]. now rewrite lookup_insert_ne.
Qed.

Lemma uncoded_insert (m : gmap string Z) k v l :
  ~ In k l -> uncoded (<[k := v]> m) l = uncoded m l.
Proof.
  intros Hk. unfold uncoded. apply filter_ext_in. intros x Hx. unfold lacks_code.
  rewrite lookup_insert_ne; [reflexivity|]. intros ->. auto.
Qed.

(** The loop over the remaining scripts numbers the names that lack a code
    consecutively, in the order of the table. *)
Lemma other_codes_value l st i k :
  NoDup l -> nth_error (uncoded (snd st) l) i = Some k ->
  snd (fold_left Text.other_codes l st) !! k = Some (fst st + Z.of_nat i)%Z.
Proof.
  revert st i. induction l as [|x l IH]; intros st i Hnd Hi; [now destruct i|].
  apply NoDup_cons in Hnd as [Hx Hnd]. rewrite list_elem_of_In in Hx.
  cbn [fold_left]. unfold uncoded in Hi. cbn [List.filter] in Hi.
  unfold Text.other_codes at 2. unfold lacks_code at 1 in Hi.
  destruct (snd st !! x) eqn:E.
  - now apply IH.
  - destruct i as [|i].
    + injection Hi as <-. apply other_codes_frame. cbn [snd fst].
      rewrite lookup_insert_eq. f_equal. lia.
    + cbn [nth_error] in Hi. rewrite (IH _ i Hnd).
      * cbn [fst]. f_equal. lia.
      * cbn [snd]. now rewrite uncoded_insert.
Qed.

Lemma dec_names_nodup (prefix : string) (f : nat -> nat) a n :
  (forall x y, f x = f y -> x = y) ->
  NoDup (map (fun x => prefix +:+ dec (f x)) (seq a n)).
Proof.
  intros Hf.
  change (NoDup ((fun x => prefix +:+ dec (f x)) <$> seq a n)).
  apply NoDup_fmap_2; [|apply NoDup_seq].
  intros x y E. apply Hf, dec_inj. revert E. apply String.app_inj.
Qed.

Section Codes.

Variable cfg : config.
Variable scripts : table string.
Variable scriptcodes : option (gmap string Z).

Let prior : gmap string Z := match scriptcodes with Some c => c | None => ∅ end.
Let fixed : gmap string Z := Text.fixed_codes cfg scriptcodes.
Let codes : gmap string Z := Text.assign_codes cfg scripts scriptcodes.

Let player_name (p : nat) : string := "p" +:+ dec (p + 1).
Let card_name (c : nat) : string := "c" +:+ dec c.

Lemma player_codes_eq st p :
  Text.player_codes st p
  = ((fst st + 1)%Z, Text.set_absent (player_name p) (fst st + 1)%Z (snd st)).
Proof. reflexivity. Qed.

Lemma card_codes_eq st c :
  Text.card_codes st c
  = ((fst st + 1)%Z, Text.set_absent (card_name c) (fst st + 0)%Z (snd st)).
Proof. unfold Text.card_codes. now rewrite Z.add_0_r. Qed.

Lemma fixed_frame k v : prior !! k = Some v -> fixed !! k = Some v.
Proof.
  intros H. unfold fixed, Text.fixed_codes. fold prior.
  apply (numbering_frame _ _ _ card_codes_eq).
  apply (numbering_frame _ _ _ player_codes_eq). cbn [snd].
  now do 2 apply set_absent_frame.
Qed.

Lemma codes_frame k v : fixed !! k = Some v -> codes !! k = Some v.
Proof. intros H. unfold codes, Text.assign_codes. now apply other_codes_frame. Qed.

Lemma fixed_question : prior !! "q" = None -> fixed !! "q" = Some 2000%Z.
Proof.
  intros H. unfold fixed, Text.fixed_codes. fold prior.
  apply (numbering_frame _ _ _ card_codes_eq).
  apply (numbering_frame _ _ _ player_codes_eq). cbn [snd].
  apply set_absent_frame. now apply set_absent_new.
Qed.

Lemma fixed_repeat : prior !! "r" = None -> fixed !! "r" = Some 2001%Z.
Proof.
  intros H. unfold fixed, Text.fixed_codes. fold prior.
  apply (numbering_frame _ _ _ card_codes_eq).
  apply (numbering_frame _ _ _ player_codes_eq). cbn [snd].
  apply set_absent_new. now rewrite set_absent_other.
Qed.

Lemma fixed_player p :
  1 <= p <= players cfg -> prior !! ("p" +:+ dec p) = None ->
  fixed !! ("p" +:+ dec p) = Some (2001 + Z.of_nat p)%Z.
Proof.
  intros Hp H. unfold fixed, Text.fixed_codes. fold prior.
  apply (numbering_frame _ _ _ card_codes_eq).
  replace p with (p - 1 + 1) at 1 by lia. fold (player_name (p - 1)).
  cbn [snd]. rewrite (numbering_value _ _ _ player_codes_eq _ _ (p - 1) (p - 1)).
  - cbn [fst]. f_equal. lia.
  - apply (dec_names_nodup "p" (fun x => x + 1)). intros; lia.
  - rewrite nth_error_range.
    replace (p - 1 <? players cfg - 0)%nat with true by (symmetry; apply Nat.ltb_lt; lia).
    reflexivity.
  - cbn [snd]. unfold player_name. replace (p - 1 + 1) with p by lia.
    now rewrite !set_absent_other.
Qed.

Lemma fixed_card c :
  c < Text.numCards cfg -> prior !! ("c" +:+ dec c) = None ->
  fixed !! ("c" +:+ dec c) = Some (3000 + Z.of_nat c)%Z.
Proof.
  intros Hc H. unfold fixed, Text.fixed_codes. fold prior.
  fold (card_name c).
  rewrite (numbering_value _ _ _ card_codes_eq _ _ c c).
  - cbn [fst]. f_equal. lia.
  - apply (dec_names_nodup "c" (fun x => x)). auto.
  - rewrite nth_error_range.
    replace (c <? Text.numCards cfg - 0)%nat with true by (symmetry; apply Nat.ltb_lt; lia).
    reflexivity.
  - apply (numbering_none _ _ _ _ _ _ player_codes_eq).
    + cbn [snd]. unfold card_name. now rewrite !set_absent_other.
    + intros (x & E & _)%in_map_iff. discriminate E.
Qed.

Lemma codes_origin k :
  prior !! k = None -> is_Some (codes !! k) -> In k (code_names cfg scripts).
Proof.
  intros H Hs. unfold code_names. cbn [app].
  destruct (fixed !! k) eqn:Ef.
  - clear Hs. unfold fixed, Text.fixed_codes in Ef. fold prior in Ef.
    destruct (decide (k = "q")) as [->|Hq]; [now left|].
    destruct (decide (k = "r")) as [->|Hr]; [right; now left|].
    do 2 right. apply in_or_app.
    match type of Ef with snd (fold_left _ _ (_, ?m)) !! _ = _ =>
      destruct (m !! k) eqn:Ep end.
    + left. eapply (numbering_origin _ _ _ player_codes_eq); [|rewrite Ep; eauto].
      cbn [snd]. now rewrite !set_absent_other.
    + right. apply in_or_app. left.
      eapply (numbering_origin _ _ _ card_codes_eq); [|rewrite Ef; eauto].
      exact Ep.
  - do 2 right. apply in_or_app. right. apply in_or_app. right.
    now apply (other_codes_origin _ (4000%Z, fixed)).
Qed.

Lemma codes_merge_table :
  NoDup (map fst scripts) ->
  (forall k v, prior !! k = Some v -> codes !! k = Some v)
  /\ (prior !! "q" = None -> codes !! "q" = Some 2000%Z)
  /\ (prior !! "r" = None -> codes !! "r" = Some 2001%Z)
  /\ (forall p, 1 <= p <= players cfg -> prior !! ("p" +:+ dec p) = None ->
                codes !! ("p" +:+ dec p) = Some (2001 + Z.of_nat p)%Z)
  /\ (forall c, c < Text.numCards cfg -> prior !! ("c" +:+ dec c) = None ->
                codes !! ("c" +:+ dec c) = Some (3000 + Z.of_nat c)%Z)
  /\ (forall i name, nth_error (uncoded fixed (map fst scripts)) i = Some name ->
                     codes !! name = Some (4000 + Z.of_nat i)%Z)
  /\ (forall k, prior !! k = None -> is_Some (codes !! k) ->
                In k (code_names cfg scripts)).
Proof.
  intros Hnd. repeat split.
  - intros k v H. now apply codes_frame, fixed_frame.
  - intros H. now apply codes_frame, fixed_question.
  - intros H. now apply codes_frame, fixed_repeat.
  - intros p Hp H. now apply codes_frame, fixed_player.
  - intros c Hc H. now apply codes_frame, fixed_card.
  - intros i name H. now apply (other_codes_value _ (4000%Z, fixed)).
  - apply codes_origin.
Qed.

End Codes.

(** Regenerating over the printed table keeps its two codes and numbers the
    rest as a first run would. *)
Example codes_after_reprint :
  let codes := Text.assign_codes two_pairs two_pairs_scripts (Some printed_codes) in
  map (fun k => codes !! k) ["q"; "r"; "p1"; "p2"; "c0"; "c1"; "c2"; "c3"; "idle"; "shuffle"]
  = map Some [2500; 2001; 2002; 2003; 3000; 3100; 3002; 3003; 4000; 4001]%Z.
Proof. vm_compute. reflexivity. Qed.

(** ** Registers of single-line scripts *)

Lemma findall_var_char c : Re.findall Re.var (String c "") = [].
Proof.
  unfold Re.findall, Re.items, Re.var. cbn [String.length Re.scan Re.literal].
  destruct (Ascii.eqb "$" c); reflexivity.
Qed.

(** The scan iterates a single-line script character by character, and no
    character alone names a register: such a script contributes nothing. *)
Lemma scan_string_script vars s : Text.scan_script vars (Str s) = vars.
Proof.
  unfold Text.scan_script, iter_script, chars.
  induction (list_ascii_of_string s) as [|c l IH]; [reflexivity|].
  cbn [map fold_left]. unfold Text.note_registers at 2.
  rewrite findall_var_char. exact IH.
Qed.

(** Claim C5 at its failing input: with one pair and one player the script
    [shuffle] names the register [rnd], the register table does not hold it,
    and no line of the program, restart scripts included, assigns it a
    literal. The scan finds no register in a single-line script
    ([scan_string_script]); with two pairs or more the guard lines of the
    shuffle states name [rnd] as well. *)
Theorem rnd_not_reset :
  exists scripts vars,
    Text.numPairs one_pair = 1 /\ players one_pair = 1
    /\ Text.scripts one_pair = Some scripts
    /\ Text.variables one_pair = Some vars
    /\ In ("shuffle",
           Str "$random*=25173 $random+=13849 $rnd:=$random $pos:=$rnd $pos%=2 $rnd/=2 J(shuffle0) P(nop)")
          scripts
    /\ In "rnd" (named_registers (Text.shuffle one_pair))
    /\ dict_mem "rnd" vars = false
    /\ map snd (Text.restart_scripts one_pair vars)
       = [ Str "$c0:=1 $c1:=2 $remaining:=1 $player:=1 $players:=0 $random:=0 J(restart1) P(nop)";
           Str "$pairs1:=0 $lastCard:=0 $pos:=0 $t:=0 $card1:=0 $pos1:=0 J(restart2) P(nop)";
           Str "$lastPos:=0 $card2:=0 $pos2:=0 $sum:=0 J(idle) P(hello)" ]
    /\ forallb (fun l => negb (existsb (String.eqb "rnd") (assigned_registers l)))
               (table_lines scripts) = true.
Proof.
  eexists. eexists.
  split; [reflexivity|]. split; [reflexivity|].
  split; [vm_compute; reflexivity|].
  split; [vm_compute; reflexivity|].
  split; [do 4 right; left; reflexivity|].
  split; [vm_compute; tauto|].
  repeat split; vm_compute; reflexivity.
Qed.

(** With two pairs the guard lines of the shuffle states name [rnd], and
    the restart chain resets it. *)
Example rnd_reset_with_two_pairs :
  exists vars, Text.variables two_pairs = Some vars /\ dict_mem "rnd" vars = true.
Proof. eexists. split; vm_compute; reflexivity. Qed.

(** ** Substitution

    The equations of [Re.sub] for a pattern whose matches consume text. *)

Section SubFacts.

Context {A : Type}.
Variable m : string -> option (A * string).
Variable repl : A -> string.
Hypothesis m_consumes :
  forall s a r, m s = Some (a, r) -> String.length r < String.length s.

Lemma scan_fuel f1 f2 s :
  String.length s < f1 -> String.length s < f2 -> Re.scan m f1 s = Re.scan m f2 s.
Proof.
  revert f2 s. induction f1 as [|f1 IH]; intros f2 s H1 H2; [lia|].
  destruct f2 as [|f2]; [lia|]. cbn [Re.scan].
  destruct (m s) as [[a r]|] eqn:E.
  - pose proof (m_consumes _ _ _ E) as Hr. f_equal. apply IH; lia.
  - destruct s as [|c s']; [reflexivity|]. cbn [String.length] in *.
    f_equal. apply IH; lia.
Qed.

Lemma items_match s a r :
  m s = Some (a, r) -> Re.items m s = inl a :: Re.items m r.
Proof.
  intros E. unfold Re.items.
  change (Re.scan m (S (String.length s)) s)
    with (match m s with
          | Some (a, rest) => inl a :: Re.scan m (String.length s) rest
          | None => match s with
                    | EmptyString => []
                    | String c s' => inr c :: Re.scan m (String.length s) s'
                    end
          end).
  rewrite E. f_equal. pose proof (m_consumes _ _ _ E). apply scan_fuel; lia.
Qed.

Lemma items_skip c s :
  m (String c s) = None -> Re.items m (String c s) = inr c :: Re.items m s.
Proof.
  intros E. unfold Re.items.
  change (Re.scan m (S (String.length (String c s))) (String c s))
    with (match m (String c s) with
          | Some (a, rest) => inl a :: Re.scan m (S (String.length s)) rest
          | None => inr c :: Re.scan m (S (String.length s)) s
          end).
  now rewrite E.
Qed.

Lemma items_nil : m "" = None -> Re.items m "" = [].
Proof. intros E. unfold Re.items. cbn [Re.scan String.length]. now rewrite E. Qed.

Lemma sub_match s a r :
  m s = Some (a, r) -> Re.sub m repl s = repl a +:+ Re.sub m repl r.
Proof. intros E. unfold Re.sub. now rewrite (items_match _ _ _ E). Qed.

Lemma sub_skip c s :
  m (String c s) = None -> Re.sub m repl (String c s) = String c (Re.sub m repl s).
Proof. intros E. unfold Re.sub. now rewrite (items_skip _ _ E). Qed.

Lemma sub_nil : m "" = None -> Re.sub m repl "" = "".
Proof. intros E. unfold Re.sub. now rewrite (items_nil E). Qed.

(** A stretch of text in which no match starts is copied. *)
Lemma sub_pass a b :
  (forall x y, a = x +:+ y -> y <> "" -> m (y +:+ b) = None) ->
  Re.sub m repl (a +:+ b) = a +:+ Re.sub m repl b.
Proof.
  induction a as [|c a IH]; intros H; [reflexivity|].
  cbn [String.append]. rewrite sub_skip.
  - f_equal. apply IH. intros x y -> Hy. apply (H (String c x) y); [reflexivity|exact Hy].
  - apply (H "" (String c a)); [reflexivity | discriminate].
Qed.

End SubFacts.

(** ** The two patterns of the play-mode pass *)

Ltac sapp_norm := repeat first [rewrite sapp_assoc | progress cbn [String.append]].

Lemma nop_inv s u r : Re.nop s = Some (u, r) -> s = " P(nop)" +:+ r.
Proof.
  unfold Re.nop. destruct (Re.literal " P(nop)" s) as [r'|] eqn:E; [|discriminate].
  intros [= _ <-]. now apply literal_spec.
Qed.

Lemma nop_consumes s u r : Re.nop s = Some (u, r) -> String.length r < String.length s.
Proof. intros ->%nop_inv. cbn. lia. Qed.

Lemma call_inv f s t r :
  Re.call f s = Some (t, r) ->
  exists x, x <> "" /\ t = f +:+ "(" +:+ x +:+ ")" /\ s = t +:+ r.
Proof.
  unfold Re.call. destruct (Re.literal (f +:+ "(") s) as [s1|] eqn:E1; [|discriminate].
  destruct (Re.plus Re.not_close s1) as [[x s2]|] eqn:E2; [|discriminate].
  destruct (Re.literal ")" s2) as [r'|] eqn:E3; [|discriminate].
  intros [= <- <-]. apply literal_spec in E1 as ->, E3 as ->.
  apply plus_spec in E2 as (-> & Hx & _). exists x. split; [exact Hx|].
  split; [reflexivity|]. now sapp_norm.
Qed.

Lemma jump_inv s j p r :
  Re.jump s = Some ((j, p), r) ->
  exists x y, j = "J(" +:+ x +:+ ")" /\ p = "P(" +:+ y +:+ ")"
              /\ s = j +:+ " " +:+ p +:+ r.
Proof.
  unfold Re.jump. destruct (Re.call "J" s) as [[j' s1]|] eqn:E1; [|discriminate].
  destruct (Re.literal " " s1) as [s2|] eqn:E2; [|discriminate].
  destruct (Re.call "P" s2) as [[p' r']|] eqn:E3; [|discriminate].
  intros [= <- <- <-].
  apply call_inv in E1 as (x & _ & -> & ->), E3 as (y & _ & -> & ->).
  apply literal_spec in E2 as ->. exists x, y. repeat split; now sapp_norm.
Qed.

Lemma jump_consumes s g r : Re.jump s = Some (g, r) -> String.length r < String.length s.
Proof.
  destruct g as [j p]. intros (x & y & -> & -> & ->)%jump_inv.
  rewrite !slength_app. cbn. lia.
Qed.

Lemma remove_nops_match r : Text.remove_nops (" P(nop)" +:+ r) = Text.remove_nops r.
Proof. unfold Text.remove_nops. now rewrite (sub_match _ _ nop_consumes _ tt r). Qed.

Lemma remove_nops_skip c s :
  Re.nop (String c s) = None ->
  Text.remove_nops (String c s) = String c (Text.remove_nops s).
Proof. apply sub_skip. Qed.

Lemma plain_app a b : plain (a +:+ b) = plain a && plain b.
Proof. unfold plain. now rewrite list_ascii_app, forallb_app. Qed.

Lemma plain_cons c s : plain (String c s) = name_char c && plain s.
Proof. reflexivity. Qed.

Lemma no_space_app a b : no_space (a +:+ b) = no_space a && no_space b.
Proof. unfold no_space. now rewrite list_ascii_app, forallb_app. Qed.

Lemma no_open_app a b : no_open (a +:+ b) = no_open a && no_open b.
Proof. unfold no_open. now rewrite list_ascii_app, forallb_app. Qed.

Lemma plain_no_space s : plain s = true -> no_space s = true.
Proof.
  unfold plain, no_space. induction (list_ascii_of_string s) as [|c l IH]; [reflexivity|].
  cbn [forallb]. unfold name_char at 1. intros [Hc Hl]%andb_true_iff.
  rewrite IH by exact Hl. apply andb_true_iff in Hc as [Hc _].
  apply andb_true_iff in Hc as [Hc _]. now rewrite Hc.
Qed.

Lemma plain_no_open s : plain s = true -> no_open s = true.
Proof.
  unfold plain, no_open. induction (list_ascii_of_string s) as [|c l IH]; [reflexivity|].
  cbn [forallb]. unfold name_char at 1. intros [Hc Hl]%andb_true_iff.
  rewrite IH by exact Hl. apply andb_true_iff in Hc as [Hc _].
  apply andb_true_iff in Hc as [_ Hc]. now rewrite Hc.
Qed.

Lemma alnum_name_char c : Re.is_alnum c = true -> name_char c = true.
Proof.
  intros H. unfold name_char.
  destruct (Ascii.eqb_spec c " ") as [->|_]; [discriminate H|].
  destruct (Ascii.eqb_spec c "(") as [->|_]; [discriminate H|].
  destruct (Ascii.eqb_spec c ")") as [->|_]; [discriminate H|]. reflexivity.
Qed.

Lemma word_plain s : word_ok s = true -> plain s = true.
Proof.
  unfold word_ok, plain. induction (list_ascii_of_string s) as [|c l IH]; [reflexivity|].
  cbn [forallb]. intros [Hc Hl]%andb_true_iff.
  now rewrite (alnum_name_char _ Hc), IH.
Qed.

Lemma number_plain s : number_ok s = true -> plain s = true.
Proof. intros H. now apply word_plain, word_ok_number. Qed.

Lemma name_plain s : name_ok s = true -> plain s = true /\ s <> "".
Proof.
  unfold name_ok. intros [Hne Hp]%andb_true_iff. split; [exact Hp|].
  intros ->. discriminate Hne.
Qed.

Lemma operand_plain o : operand_ok o = true -> plain (show_operand o) = true.
Proof.
  destruct o as [r|d]; cbn [operand_ok show_operand]; intros H.
  - rewrite plain_app. now rewrite (word_plain _ H).
  - now apply number_plain.
Qed.

(** No match of the no-op pattern starts inside text without spaces. *)
Lemma remove_nops_pass a b :
  no_space a = true -> Text.remove_nops (a +:+ b) = a +:+ Text.remove_nops b.
Proof.
  intros Ha. unfold Text.remove_nops. apply sub_pass.
  intros x y -> Hy. destruct (Re.nop (y +:+ b)) as [[u r]|] eqn:E; [|reflexivity].
  apply nop_inv in E. destruct y as [|c y]; [contradiction|].
  injection E as -> _. rewrite no_space_app in Ha.
  now rewrite andb_false_r in Ha.
Qed.

Lemma swap_jump_play_skip c s :
  Re.jump (String c s) = None ->
  Text.swap_jump_play (String c s) = String c (Text.swap_jump_play s).
Proof. apply sub_skip. Qed.

(** No match of the jump pattern starts inside text without opening
    parentheses that is not followed by one. *)
Lemma swap_jump_play_pass a b :
  no_open a = true -> (forall b', b <> String "(" b') ->
  Text.swap_jump_play (a +:+ b) = a +:+ Text.swap_jump_play b.
Proof.
  intros Ha Hb. unfold Text.swap_jump_play. apply sub_pass.
  intros x y -> Hy. destruct (Re.jump (y +:+ b)) as [[[j p] r]|] eqn:E; [|reflexivity].
  apply jump_inv in E as (x' & y' & -> & -> & E).
  destruct y as [|c y]; [contradiction|]. injection E as -> E.
  destruct y as [|d y].
  - cbn in E. now apply Hb in E.
  - injection E as -> _. rewrite no_open_app in Ha.
    cbn in Ha. now rewrite !andb_false_r in Ha.
Qed.

(** ** The play-mode pass on printed token sequences *)

Lemma show_line_tail t r : show_line (t :: r) = show_token t +:+ show_tail r.
Proof.
  revert t. induction r as [|t' r IH]; intros t.
  - cbn. now rewrite sapp_nil_r.
  - rewrite show_line_cons, IH. cbn [show_tail fold_right]. now sapp_norm.
Qed.

Lemma show_tail_cons t r : show_tail (t :: r) = " " +:+ show_token t +:+ show_tail r.
Proof. reflexivity. Qed.

Lemma show_tail_start r b' : show_tail r <> String "(" b'.
Proof. destruct r; discriminate. Qed.

Lemma cmp_plain c : plain (show_cmp c) = true.
Proof. now destruct c. Qed.

Lemma aop_plain a : plain (show_aop a) = true.
Proof. now destruct a. Qed.

(** Two texts that agree up to the first closing parenthesis. *)
Lemma close_split a b ra rb :
  plain a = true -> plain b = true ->
  a +:+ ")" +:+ ra = b +:+ ")" +:+ rb -> a = b /\ ra = rb.
Proof.
  revert b. induction a as [|c a IH]; intros [|d b] Ha Hb E.
  - now injection E as ->.
  - injection E as <- _. discriminate Hb.
  - injection E as -> _. discriminate Ha.
  - injection E as -> E. rewrite plain_cons in Ha, Hb.
    apply andb_true_iff in Ha as [_ Ha], Hb as [_ Hb].
    destruct (IH b Ha Hb E) as [-> ->]. now split.
Qed.

Lemma digit_not_P c d : Re.is_digit c = true -> Re.nop (String " " (String c d)) = None.
Proof.
  intros H. unfold Re.nop. cbn [Re.literal].
  change (Ascii.eqb " " " ") with true. cbv iota.
  destruct (Ascii.eqb_spec "P" c) as [<-|_]; [discriminate H | reflexivity].
Qed.

(** The no-op pattern does not match inside a token. *)
Lemma remove_nops_over_token t b :
  token_ok t = true ->
  Text.remove_nops (show_token t +:+ b) = show_token t +:+ Text.remove_nops b.
Proof.
  destruct t as [r c o|r a o|r o|x|x]; cbn [token_ok show_token].
  - intros [Hr Ho]%andb_true_iff. apply remove_nops_pass, plain_no_space.
    rewrite !plain_app, (word_plain _ Hr), cmp_plain, (operand_plain _ Ho). reflexivity.
  - intros [Hr Ho]%andb_true_iff. apply remove_nops_pass, plain_no_space.
    rewrite !plain_app, (word_plain _ Hr), aop_plain, (operand_plain _ Ho). reflexivity.
  - intros [Hr Ho]%andb_true_iff.
    replace (("T($" +:+ r +:+ ", " +:+ show_operand o +:+ ")") +:+ b)
      with (("T($" +:+ r +:+ ",") +:+ " " +:+ (show_operand o +:+ ")") +:+ b)
      by now sapp_norm.
    rewrite remove_nops_pass.
    + cbn [String.append]. rewrite remove_nops_skip.
      * rewrite remove_nops_pass; [now sapp_norm|].
        rewrite no_space_app, (plain_no_space _ (operand_plain _ Ho)). reflexivity.
      * destruct o as [r'|[|c d]]; try reflexivity.
        cbn [show_operand String.append]. apply digit_not_P.
        cbn [operand_ok number_ok list_ascii_of_string forallb] in Ho.
        now apply andb_true_iff in Ho as [Ho _].
    + rewrite !no_space_app, (plain_no_space _ (word_plain _ Hr)). reflexivity.
  - intros [Hx _]%name_plain. apply remove_nops_pass.
    rewrite !no_space_app, (plain_no_space _ Hx). reflexivity.
  - intros [Hx _]%name_plain. apply remove_nops_pass.
    rewrite !no_space_app, (plain_no_space _ Hx). reflexivity.
Qed.

Lemma nop_before_token t b :
  token_ok t = true -> is_nop t = false -> Re.nop (" " +:+ show_token t +:+ b) = None.
Proof.
  intros Hok Hn. destruct t as [r c o|r a o|r o|x|x]; try reflexivity.
  destruct (Re.nop _) as [[u rest]|] eqn:E; [|reflexivity].
  apply nop_inv in E. cbn [show_token] in E. exfalso.
  assert (x = "nop") as ->.
  { apply (close_split x "nop" b rest).
    - now apply name_plain.
    - reflexivity.
    - revert E. sapp_norm. now intros [= E]. }
  discriminate Hn.
Qed.

Lemma remove_nops_tail r :
  Forall (fun t => token_ok t = true) r ->
  Text.remove_nops (show_tail r) = show_tail (List.filter (fun t => negb (is_nop t)) r).
Proof.
  induction 1 as [|t r Ht Hr IH]; [reflexivity|].
  rewrite show_tail_cons. cbn [List.filter]. destruct (is_nop t) eqn:En; cbn [negb].
  - destruct t as [| | | |x]; try discriminate En.
    apply String.eqb_eq in En as ->.
    change (Text.remove_nops (" P(nop)" +:+ show_tail r)
            = show_tail (List.filter (fun t => negb (is_nop t)) r)).
    rewrite remove_nops_match. exact IH.
  - cbn [String.append]. rewrite remove_nops_skip by now apply (nop_before_token t).
    rewrite remove_nops_over_token by exact Ht. rewrite IH. reflexivity.
Qed.

Theorem remove_nops_line (l : line) :
  Forall (fun t => token_ok t = true) l ->
  Text.remove_nops (show_line l) = show_line (drop_nops l).
Proof.
  intros [|t r Ht Hr]; [reflexivity|]. cbn [drop_nops].
  rewrite !show_line_tail, remove_nops_over_token by exact Ht.
  now rewrite remove_nops_tail.
Qed.

Lemma literal_app p s : Re.literal p (p +:+ s) = Some s.
Proof.
  induction p as [|c p IH]; [reflexivity|].
  cbn [String.append Re.literal]. now rewrite Ascii.eqb_refl.
Qed.

Lemma span_stop (p : ascii -> bool) w c r :
  forallb p (list_ascii_of_string w) = true -> p c = false ->
  Re.span p (w +:+ String c r) = (w, String c r).
Proof.
  intros Hw Hc. induction w as [|d w IH]; cbn [String.append Re.span].
  - now rewrite Hc.
  - cbn in Hw. apply andb_true_iff in Hw as [Hd Hw]. now rewrite Hd, IH.
Qed.

Lemma plain_not_close s : plain s = true ->
  forallb Re.not_close (list_ascii_of_string s) = true.
Proof.
  unfold plain. induction (list_ascii_of_string s) as [|c l IH]; [reflexivity|].
  cbn [forallb]. unfold name_char at 1. intros [Hc Hl]%andb_true_iff.
  rewrite IH by exact Hl. apply andb_true_iff in Hc as [_ Hc].
  unfold Re.not_close. now rewrite Hc.
Qed.

(** A call with a proper name is matched whole. *)
Lemma call_name f x rest :
  name_ok x = true ->
  Re.call f (f +:+ "(" +:+ x +:+ ")" +:+ rest) = Some (f +:+ "(" +:+ x +:+ ")", rest).
Proof.
  intros [Hp Hne]%name_plain. unfold Re.call.
  replace (f +:+ "(" +:+ x +:+ ")" +:+ rest) with ((f +:+ "(") +:+ x +:+ ")" +:+ rest)
    by now sapp_norm.
  rewrite literal_app. unfold Re.plus.
  change (")" +:+ rest) with (String ")" rest).
  rewrite span_stop; [|now apply plain_not_close | reflexivity].
  destruct x as [|c x]; [contradiction|]. reflexivity.
Qed.

Lemma call_jump x rest :
  name_ok x = true ->
  Re.call "J" ("J(" +:+ x +:+ ")" +:+ rest) = Some ("J(" +:+ x +:+ ")", rest).
Proof. exact (call_name "J" x rest). Qed.

Lemma call_play x rest :
  name_ok x = true ->
  Re.call "P" ("P(" +:+ x +:+ ")" +:+ rest) = Some ("P(" +:+ x +:+ ")", rest).
Proof. exact (call_name "P" x rest). Qed.

Lemma jump_match x y rest :
  name_ok x = true -> name_ok y = true ->
  Re.jump ("J(" +:+ x +:+ ")" +:+ " " +:+ "P(" +:+ y +:+ ")" +:+ rest)
  = Some (("J(" +:+ x +:+ ")", "P(" +:+ y +:+ ")"), rest).
Proof.
  intros Hx Hy. unfold Re.jump.
  now rewrite (call_jump x _ Hx), literal_app, (call_play y _ Hy).
Qed.

(** A jump that ends the line, or that a token other than a play follows,
    is not matched. *)
Lemma jump_alone x r :
  name_ok x = true ->
  match r with Play _ :: _ => False | _ => True end ->
  Re.jump ("J(" +:+ x +:+ ")" +:+ show_tail r) = None.
Proof.
  intros Hx Hr. unfold Re.jump. rewrite (call_jump x _ Hx).
  destruct r as [|[] r]; try reflexivity. contradiction.
Qed.

Lemma no_open_cons c s : no_open (String c s) = negb (Ascii.eqb c "(") && no_open s.
Proof. reflexivity. Qed.

Ltac no_open_norm := repeat first [rewrite no_open_app | rewrite no_open_cons].

(** The jump pattern does not match inside a token that is not a jump. *)
Lemma swap_over_token t r :
  token_ok t = true -> is_jump t = false ->
  Text.swap_jump_play (show_token t +:+ show_tail r)
  = show_token t +:+ Text.swap_jump_play (show_tail r).
Proof.
  destruct t as [n c o|n a o|n o|x|x]; cbn [token_ok show_token is_jump];
    try discriminate.
  - intros [Hr Ho]%andb_true_iff _.
    apply swap_jump_play_pass; [|apply show_tail_start]. apply plain_no_open.
    rewrite !plain_app, (word_plain _ Hr), cmp_plain, (operand_plain _ Ho). reflexivity.
  - intros [Hr Ho]%andb_true_iff _.
    apply swap_jump_play_pass; [|apply show_tail_start]. apply plain_no_open.
    rewrite !plain_app, (word_plain _ Hr), aop_plain, (operand_plain _ Ho). reflexivity.
  - intros [Hr Ho]%andb_true_iff _.
    replace (("T($" +:+ n +:+ ", " +:+ show_operand o +:+ ")") +:+ show_tail r)
      with ("T(" +:+ ("$" +:+ n +:+ ", " +:+ show_operand o +:+ ")") +:+ show_tail r)
      by now sapp_norm.
    cbn [String.append]. rewrite !swap_jump_play_skip by reflexivity.
    rewrite swap_jump_play_pass; [now sapp_norm | | apply show_tail_start].
    no_open_norm. rewrite (plain_no_open _ (word_plain _ Hr)),
      (plain_no_open _ (operand_plain _ Ho)). reflexivity.
  - intros [Hx _]%name_plain _.
    replace (("P(" +:+ x +:+ ")") +:+ show_tail r)
      with ("P(" +:+ (x +:+ ")") +:+ show_tail r) by now sapp_norm.
    cbn [String.append]. rewrite !swap_jump_play_skip by reflexivity.
    rewrite swap_jump_play_pass; [now sapp_norm | | apply show_tail_start].
    no_open_norm. rewrite (plain_no_open _ Hx). reflexivity.
Qed.

Lemma swap_over_jump x r :
  name_ok x = true ->
  match r with Play _ :: _ => False | _ => True end ->
  Text.swap_jump_play (show_token (Jump x) +:+ show_tail r)
  = show_token (Jump x) +:+ Text.swap_jump_play (show_tail r).
Proof.
  intros Hx Hr. pose proof (jump_alone x r Hx Hr) as E.
  destruct (name_plain _ Hx) as [Hp _]. cbn [show_token] in *.
  replace (("J(" +:+ x +:+ ")") +:+ show_tail r)
    with ("J(" +:+ (x +:+ ")") +:+ show_tail r) by now sapp_norm.
  cbn [String.append]. rewrite swap_jump_play_skip.
  - rewrite swap_jump_play_skip by reflexivity.
    rewrite swap_jump_play_pass; [now sapp_norm | | apply show_tail_start].
    no_open_norm. rewrite (plain_no_open _ Hp). reflexivity.
  - rewrite <- E. f_equal. now sapp_norm.
Qed.

Lemma swap_jumps_tail_n n : forall r,
  length r <= n -> Forall (fun t => token_ok t = true) r ->
  Text.swap_jump_play (show_tail r) = show_tail (swap_jumps r).
Proof.
  induction n as [|n IH]; intros r Hn Hr.
  { destruct r; [reflexivity | cbn in Hn; lia]. }
  destruct r as [|t r]; [reflexivity|].
  apply List.Forall_cons_iff in Hr as [Ht Hr]. cbn [length] in Hn.
  rewrite show_tail_cons. cbn [String.append].
  rewrite swap_jump_play_skip by reflexivity.
  destruct t as [n0 c o|n0 a o|n0 o|x|x].
  1-3, 5: cbn [swap_jumps]; rewrite swap_over_token, IH by (auto; lia); reflexivity.
  destruct r as [|t' r'].
  - cbn [swap_jumps]. now rewrite swap_over_jump.
  - destruct t' as [n0 c o|n0 a o|n0 o|y|y].
    1-4: cbn [swap_jumps]; rewrite swap_over_jump, IH by (auto; lia); reflexivity.
    apply List.Forall_cons_iff in Hr as [Hy Hr']. cbn [length] in Hn.
    cbn [swap_jumps]. rewrite !show_tail_cons. cbn [show_token].
    unfold Text.swap_jump_play.
    replace (("J(" +:+ x +:+ ")") +:+ " " +:+ ("P(" +:+ y +:+ ")") +:+ show_tail r')
      with ("J(" +:+ x +:+ ")" +:+ " " +:+ "P(" +:+ y +:+ ")" +:+ show_tail r')
      by now sapp_norm.
    rewrite (sub_match _ _ jump_consumes _ _ _ (jump_match x y _ Ht Hy)).
    fold (Text.swap_jump_play (show_tail r')). rewrite IH by (auto; lia).
    cbn [fst snd]. now sapp_norm.
Qed.

Theorem swap_jumps_line (l : line) :
  Forall (fun t => token_ok t = true) l ->
  Text.swap_jump_play (show_line l) = show_line (swap_jumps l).
Proof.
  intros Hl. destruct l as [|t r]; [reflexivity|].
  pose proof (swap_jumps_tail_n _ (t :: r) (Nat.le_refl _) Hl) as E.
  rewrite show_tail_cons in E. cbn [String.append] in E.
  rewrite swap_jump_play_skip in E by reflexivity.
  destruct (swap_jumps (t :: r)) as [|t' r'] eqn:Es.
  - destruct t; try discriminate Es. destruct r as [|[] ?]; discriminate Es.
  - rewrite show_tail_cons in E. cbn [String.append] in E. injection E as E.
    now rewrite !show_line_tail.
Qed.

(** ** The play-mode pass on token sequences *)

Lemma swap_jumps_other t r :
  is_jump t = false -> swap_jumps (t :: r) = t :: swap_jumps r.
Proof. now destruct t. Qed.

Lemma swap_jumps_app (a b : line) :
  existsb is_jump a = false -> swap_jumps (a ++ b) = a ++ swap_jumps b.
Proof.
  induction a as [|t a IH]; [reflexivity|]. cbn [existsb].
  intros [Ht Ha]%orb_false_iff. cbn [app].
  now rewrite swap_jumps_other, IH.
Qed.

Lemma swap_jumps_none (l : line) : existsb is_jump l = false -> swap_jumps l = l.
Proof.
  intros H. rewrite <- (app_nil_r l) at 1. rewrite swap_jumps_app by exact H.
  now rewrite app_nil_r.
Qed.

Lemma jump_then_play_app (a b : line) :
  existsb is_jump a = false -> jump_then_play (a ++ b) = jump_then_play b.
Proof.
  induction a as [|t a IH]; [reflexivity|]. cbn [existsb].
  intros [Ht Ha]%orb_false_iff. cbn [app]. rewrite <- (IH Ha).
  destruct t; try discriminate Ht; reflexivity.
Qed.

Lemma jump_then_play_none (l : line) :
  existsb is_jump l = false -> jump_then_play l = false.
Proof.
  intros H. rewrite <- (app_nil_r l). now rewrite jump_then_play_app.
Qed.

Lemma swap_jumps_settled (l : line) : jump_then_play l = false -> swap_jumps l = l.
Proof.
  induction l as [|t l IH]; [reflexivity|].
  destruct t as [| | |x|]; cbn [jump_then_play swap_jumps];
    try (intros H; now rewrite IH).
  destruct l as [|t' l']; [reflexivity|].
  destruct t'; try discriminate; intros H; now rewrite IH.
Qed.

Lemma filter_without_nops (l : line) :
  existsb is_nop l = false -> List.filter (fun t => negb (is_nop t)) l = l.
Proof.
  induction l as [|x l IH]; [reflexivity|]. cbn [existsb List.filter].
  intros [Hx Hl]%orb_false_iff. now rewrite Hx, IH.
Qed.

(** A line without droppable no-ops and without a jump before a play is left
    as it is. *)
Lemma settled_fixed (l : line) : settled l = true -> play_tokens l = l.
Proof.
  unfold settled, play_tokens. intros [Hn Hj]%andb_true_iff.
  apply negb_true_iff in Hn, Hj.
  assert (drop_nops l = l) as ->.
  { destruct l as [|t r]; [reflexivity|]. cbn [drop_nops tl] in *.
    now rewrite filter_without_nops. }
  now apply swap_jumps_settled.
Qed.

Lemma shaped_inv (l : line) :
  shaped l = true ->
  existsb is_jump l = false
  \/ exists body x y, l = body ++ [Jump x; Play y] /\ existsb is_jump body = false.
Proof.
  induction l as [|t l IH]; [now left|].
  destruct t as [r c o|r a o|r o|x|y]; cbn [shaped existsb is_jump orb].
  1-3, 5: intros [H|(body & x' & y' & -> & H)]%IH; [now left|];
    right; eexists (_ :: body), x', y'; split; [reflexivity | exact H].
  destruct l as [|t' l']; [discriminate|].
  destruct t' as [| | | |y]; try discriminate.
  destruct l'; [|discriminate]. intros _. right. now exists [], x, y.
Qed.

Lemma filter_no_jump (l : line) :
  existsb is_jump l = false ->
  existsb is_jump (List.filter (fun t => negb (is_nop t)) l) = false.
Proof.
  induction l as [|t l IH]; [reflexivity|]. cbn [existsb List.filter].
  intros [Ht Hl]%orb_false_iff. destruct (negb (is_nop t)); [|auto].
  cbn [existsb]. now rewrite Ht, IH.
Qed.

Lemma filter_no_nops (l : line) :
  existsb is_nop (List.filter (fun t => negb (is_nop t)) l) = false.
Proof.
  induction l as [|t l IH]; [reflexivity|]. cbn [List.filter].
  destruct (is_nop t) eqn:E; cbn [negb existsb]; [exact IH|]. now rewrite E.
Qed.

Lemma drop_nops_no_jump (l : line) :
  existsb is_jump l = false -> existsb is_jump (drop_nops l) = false.
Proof.
  destruct l as [|t r]; [reflexivity|]. cbn [drop_nops existsb].
  intros [Ht Hr]%orb_false_iff. now rewrite Ht, filter_no_jump.
Qed.

(** After the pass a generated line is settled. *)
Lemma shaped_settles (l : line) : shaped l = true -> settled (play_tokens l) = true.
Proof.
  intros [H|(body & x & y & -> & H)]%shaped_inv; unfold play_tokens, settled.
  - rewrite swap_jumps_none by now apply drop_nops_no_jump.
    rewrite jump_then_play_none by now apply drop_nops_no_jump.
    destruct l as [|t r]; [reflexivity|]. cbn [drop_nops tl].
    now rewrite filter_no_nops.
  - assert (exists pre post,
              drop_nops (body ++ [Jump x; Play y]) = pre ++ Jump x :: post
              /\ existsb is_jump pre = false
              /\ existsb is_nop (tl pre) = false
              /\ (post = [] \/ post = [Play y] /\ is_nop (Play y) = false))
      as (pre & post & -> & Hpre & Hnop & Hpost).
    { destruct body as [|b0 body]; cbn [app drop_nops List.filter is_nop negb].
      - exists []. destruct (String.eqb y "nop") eqn:Ey; cbn [negb].
        + exists []. repeat split. now left.
        + exists [Play y]. repeat split. right. split; [reflexivity|].
          first [exact Ey | reflexivity].
      - rewrite List.filter_app. cbn [List.filter is_nop negb].
        cbn [existsb] in H. apply orb_false_iff in H as [Hb0 Hbody].
        exists (b0 :: List.filter (fun t => negb (is_nop t)) body).
        destruct (String.eqb y "nop") eqn:Ey; cbn [negb].
        + exists []. cbn [existsb tl]. rewrite Hb0, filter_no_jump, filter_no_nops by auto.
          repeat split. now left.
        + exists [Play y]. cbn [existsb tl].
          rewrite Hb0, filter_no_jump, filter_no_nops by auto.
          repeat split. right. split; [reflexivity|].
          first [exact Ey | reflexivity]. }
    rewrite swap_jumps_app by exact Hpre.
    destruct Hpost as [->|[-> Hy]]; cbn [swap_jumps].
    + rewrite jump_then_play_app by exact Hpre. cbn [jump_then_play].
      destruct pre as [|p0 pre]; [reflexivity|]. cbn [app tl] in *.
      rewrite existsb_app, Hnop. reflexivity.
    + rewrite jump_then_play_app by exact Hpre. cbn [jump_then_play].
      destruct pre as [|p0 pre]; [reflexivity|]. cbn [app tl] in *.
      rewrite existsb_app, Hnop. cbn [existsb]. now rewrite Hy.
Qed.

Lemma swap_jumps_In_n n : forall l t, length l <= n -> In t (swap_jumps l) -> In t l.
Proof.
  induction n as [|n IH]; intros l t Hn.
  { destruct l; [intros [] | cbn in Hn; lia]. }
  destruct l as [|t0 l]; [intros []|]. cbn [length] in Hn.
  destruct t0 as [| | |x|].
  1-3, 5: cbn [swap_jumps]; intros [<-|H]; [now left | right; apply IH; [lia | exact H]].
  destruct l as [|t1 l1].
  - cbn [swap_jumps]. auto.
  - destruct t1 as [| | | |y].
    1-4: cbn [swap_jumps]; intros [<-|H]; [now left | right; apply IH; [lia | exact H]].
    cbn [swap_jumps length] in *. intros [<-|[<-|H]].
    + right. now left.
    + now left.
    + right. right. apply IH; [lia | exact H].
Qed.

Lemma play_tokens_ok (l : line) :
  Forall (fun t => token_ok t = true) l ->
  Forall (fun t => token_ok t = true) (play_tokens l).
Proof.
  rewrite !List.Forall_forall. intros H t Ht. apply H.
  apply (swap_jumps_In_n _ _ _ (Nat.le_refl _)) in Ht.
  destruct l as [|t0 r]; [destruct Ht|]. cbn [drop_nops] in Ht.
  destruct Ht as [<-|Ht]; [now left|]. right. now apply filter_In in Ht as [Ht _].
Qed.

Lemma drop_nops_ok (l : line) :
  Forall (fun t => token_ok t = true) l ->
  Forall (fun t => token_ok t = true) (drop_nops l).
Proof.
  rewrite !List.Forall_forall. intros H t Ht. apply H.
  destruct l as [|t0 r]; [destruct Ht|]. cbn [drop_nops] in Ht.
  destruct Ht as [<-|Ht]; [now left|]. right. now apply filter_In in Ht as [Ht _].
Qed.

(** The pass on text is the pass on tokens. *)
Theorem play_line_tokens (l : line) :
  Forall (fun t => token_ok t = true) l ->
  Text.play_line (show_line l) = show_line (play_tokens l).
Proof.
  intros H. unfold Text.play_line, play_tokens.
  rewrite remove_nops_line by exact H. apply swap_jumps_line, drop_nops_ok, H.
Qed.

(** ** The generated lines are well formed *)

Lemma name_ok_cons c s : name_ok (String c s) = name_char c && plain s.
Proof. reflexivity. Qed.

Lemma name_ok_app_cons a c s :
  name_ok (a +:+ String c s) = plain a && (name_char c && plain s).
Proof.
  unfold name_ok. rewrite <- plain_cons, <- plain_app. fold (plain (a +:+ String c s)).
  destruct a; reflexivity.
Qed.

Lemma word_ok_cons c s : word_ok (String c s) = Re.is_alnum c && word_ok s.
Proof. reflexivity. Qed.

Lemma dec_plain n : plain (dec n) = true.
Proof. apply number_plain, dec_number_ok. Qed.

Ltac ok_norm :=
  repeat first
    [ rewrite name_ok_cons | rewrite name_ok_app_cons
    | rewrite plain_app | rewrite plain_cons | rewrite dec_plain
    | rewrite word_ok_app | rewrite word_ok_cons | rewrite dec_word_ok
    | rewrite dec_number_ok ].

Lemma shaped_app (a b : line) :
  existsb is_jump a = false -> shaped (a ++ b) = shaped b.
Proof.
  induction a as [|t a IH]; [reflexivity|]. cbn [existsb].
  intros [Ht Ha]%orb_false_iff. cbn [app]. rewrite <- (IH Ha).
  destruct t; try discriminate Ht; reflexivity.
Qed.

Lemma conditions_no_jump (l : line) :
  Forall (fun t => is_cond t = true) l -> existsb is_jump l = false.
Proof.
  induction 1 as [|t l Ht Hl IH]; [reflexivity|]. cbn [existsb]. rewrite IH.
  now destruct t.
Qed.

Section WellFormed.

Variable cfg : config.
Hypothesis Hnames : names_ok cfg = true.

Lemma lang_plain : plain (lang cfg) = true.
Proof.
  unfold names_ok in Hnames. apply andb_true_iff in Hnames as [H _].
  now apply andb_true_iff in H as [H _].
Qed.

Lemma welcome_ok : name_ok (welcome cfg) = true.
Proof. unfold names_ok in Hnames. now apply andb_true_iff in Hnames as [_ H]. Qed.

Lemma sound_ok c : 1 <= c <= Text.numCards cfg -> name_ok (Text.sound cfg c) = true.
Proof.
  intros Hc. destruct (sound_in_range cfg c Hc) as [Hidx ->].
  assert (name_ok (nth (pair_index cfg c) (pairs cfg) "") = true) as Hp.
  { unfold names_ok in Hnames. apply andb_true_iff in Hnames as [H _].
    apply andb_true_iff in H as [_ H]. rewrite forallb_forall in H.
    apply H, nth_In, Hidx. }
  apply name_plain in Hp as [Hp Hne]. unfold sound_suffix.
  destruct (alternativeSounds cfg).
  - destruct (c <=? Text.numPairs cfg)%nat; rewrite name_ok_app_cons, Hp; reflexivity.
  - rewrite sapp_nil_r. unfold name_ok. fold (plain (nth (pair_index cfg c) (pairs cfg) "")).
    rewrite Hp. destruct (nth _ _ _); [contradiction | reflexivity].
Qed.

Lemma compare_ok player : forallb token_ok (Prog.compare cfg player) = true.
Proof.
  rewrite compare_tokens. cbn [forallb token_ok operand_ok Num].
  rewrite dec_number_ok. cbn [andb]. apply forallb_forall.
  intros t (other & <- & _)%in_map_iff. cbn [token_ok operand_ok].
  ok_norm. reflexivity.
Qed.

Lemma restart_line_ok vars l :
  Text.variables cfg = Some vars -> restart_line cfg vars l -> line_ok l = true.
Proof.
  intros Ev (batch & x & y & -> & _ & Hin & Hxy). unfold line_ok.
  rewrite forallb_app, shaped_app.
  - cbn [shaped forallb token_ok]. rewrite !andb_true_r.
    apply andb_true_iff. split.
    + apply forallb_forall. intros t (e & <- & He)%in_map_iff.
      pose proof (variables_ok cfg vars Ev) as Hok. rewrite List.Forall_forall in Hok.
      destruct (Hok e (Hin e He)) as [Hentry _]. unfold entry_ok in Hentry.
      apply andb_true_iff in Hentry as [Hentry _]. exact Hentry.
    + destruct Hxy as [(i & -> & ->)|[-> ->]].
      * cbn [String.append]. ok_norm. reflexivity.
      * now rewrite welcome_ok.
  - clear. induction batch as [|e b IH]; [reflexivity|]. exact IH.
Qed.

Theorem generated_lines_ok :
  exists scripts,
    Prog.scripts cfg = Some scripts
    /\ Text.scripts cfg = Some (show_table scripts)
    /\ forall name s l, In (name, s) scripts -> In l (script_lines s) -> line_ok l = true.
Proof.
  destruct (program_exists cfg) as (scripts & E & Et). exists scripts.
  split; [exact E|]. split; [exact Et|].
  apply (generated_lines cfg (fun _ l => line_ok l = true)); try exact E.
  all: try (intros; unfold_scripts; each_line).
  all: unfold Prog.idle, Prog.not_started_line, Prog.turn_line,
         Prog.draw_line, Prog.shuffle, Prog.shuffle_guard, Prog.lcg, Prog.draw,
         Prog.match_line, Prog.finished_line.
  all: try (unfold Prog.shuffle_line, Prog.swap_slots, Prog.start_game, Prog.draw;
            destruct (pos1 =? x)%nat, (pos1 =? Text.numCards cfg - 2)%nat).
  all: try (unfold line_ok;
            cbn [app forallb token_ok operand_ok shaped Num String.append];
            ok_norm; rewrite ?lang_plain, ?sound_ok by lia; reflexivity).
  - unfold Prog.winner_line, line_ok.
    rewrite forallb_app, compare_ok, shaped_app
      by apply conditions_no_jump, compare_conditions.
    cbn [app forallb token_ok operand_ok shaped Num String.append].
    ok_norm. rewrite ?lang_plain. reflexivity.
  - eapply restart_line_ok; eassumption.
Qed.

End WellFormed.

(** ** The play-mode pass on the generated program *)

Lemma line_ok_tokens (l : line) :
  line_ok l = true -> Forall (fun t => token_ok t = true) l /\ shaped l = true.
Proof.
  unfold line_ok. intros [Ht Hs]%andb_true_iff. split; [|exact Hs].
  apply List.Forall_forall. now apply forallb_forall.
Qed.

Lemma table_map_ext_in {A B} (f g : A -> B) (t : table A) :
  (forall name s l, In (name, s) t -> In l (script_lines s) -> f l = g l) ->
  table_map f t = table_map g t.
Proof.
  intros H. unfold table_map. apply map_ext_in. intros [name s] Hin. cbn.
  f_equal. destruct s as [x|ls]; cbn.
  - f_equal. apply (H name (Str x) x Hin). now left.
  - f_equal. apply map_ext_in. intros l Hl. now apply (H name (Lines ls) l Hin).
Qed.

Lemma table_map_map {A B C} (f : A -> B) (g : B -> C) (t : table A) :
  table_map g (table_map f t) = table_map (fun l => g (f l)) t.
Proof.
  unfold table_map. rewrite map_map. apply map_ext. intros [name s]. cbn.
  f_equal. destruct s as [x|ls]; cbn; [reflexivity|]. now rewrite map_map.
Qed.

(** Claim C9: for a definition whose names are proper (nonempty, without
    spaces and parentheses), the play-mode pass maps every generated line
    to the line without its [P(nop)] tokens and with its jump moved behind
    the play that followed it; the result has no no-op left to drop and no
    jump before a play, and a second application changes nothing, line by
    line and on the whole table. A line that is settled already is left as
    it is. *)
Theorem play_mode_pass cfg :
  names_ok cfg = true ->
  exists scripts,
    Prog.scripts cfg = Some scripts
    /\ Text.scripts cfg = Some (show_table scripts)
    /\ (forall name s l,
          In (name, s) scripts -> In l (script_lines s) ->
          Text.play_line (show_line l) = show_line (play_tokens l)
          /\ settled (play_tokens l) = true
          /\ Text.play_line (Text.play_line (show_line l)) = Text.play_line (show_line l))
    /\ Text.play_scripts (show_table scripts) = show_table (table_map play_tokens scripts)
    /\ Text.play_scripts (Text.play_scripts (show_table scripts))
       = Text.play_scripts (show_table scripts)
    /\ (forall l,
          Forall (fun t => token_ok t = true) l -> settled l = true ->
          Text.play_line (show_line l) = show_line l).
Proof.
  intros Hnames.
  destruct (generated_lines_ok cfg Hnames) as (scripts & E & Et & Hok).
  assert (Hline : forall name s l,
             In (name, s) scripts -> In l (script_lines s) ->
             Text.play_line (show_line l) = show_line (play_tokens l)
             /\ settled (play_tokens l) = true
             /\ Text.play_line (Text.play_line (show_line l))
                = Text.play_line (show_line l)).
  { intros name s l Hs Hl.
    destruct (line_ok_tokens l (Hok name s l Hs Hl)) as [Ht Hshape].
    pose proof (shaped_settles l Hshape) as Hset.
    split; [now apply play_line_tokens|]. split; [exact Hset|].
    rewrite (play_line_tokens l Ht).
    rewrite (play_line_tokens _ (play_tokens_ok l Ht)).
    now rewrite (settled_fixed _ Hset). }
  exists scripts. split; [exact E|]. split; [exact Et|]. split; [exact Hline|].
  split; [|split].
  - unfold Text.play_scripts, show_table. rewrite !table_map_map.
    apply table_map_ext_in. intros name s l Hs Hl.
    exact (proj1 (Hline name s l Hs Hl)).
  - unfold Text.play_scripts, show_table. rewrite !table_map_map.
    apply table_map_ext_in. intros name s l Hs Hl.
    exact (proj2 (proj2 (Hline name s l Hs Hl))).
  - intros l Ht Hset. rewrite (play_line_tokens l Ht). now rewrite (settled_fixed l Hset).
Qed.

Lemma play_mode_pass_witness :
  let cfg := two_pairs in
  names_ok cfg = true
  /\ exists scripts,
       Prog.scripts cfg = Some scripts
       /\ Text.scripts cfg = Some (show_table scripts)
       /\ (forall name s l,
             In (name, s) scripts -> In l (script_lines s) ->
             Text.play_line (show_line l) = show_line (play_tokens l)
             /\ settled (play_tokens l) = true
             /\ Text.play_line (Text.play_line (show_line l))
                = Text.play_line (show_line l))
       /\ Text.play_scripts (show_table scripts)
          = show_table (table_map play_tokens scripts)
       /\ Text.play_scripts (Text.play_scripts (show_table scripts))
          = Text.play_scripts (show_table scripts)
       /\ (forall l,
             Forall (fun t => token_ok t = true) l -> settled l = true ->
             Text.play_line (show_line l) = show_line l).
Proof.
  cbv zeta. split; [reflexivity|]. apply (play_mode_pass two_pairs). reflexivity.
Defined.

(** The pass on three lines of the program for [two_pairs], and on a line
    the generator never writes, where a second application still moves the
    jump. *)
Example play_line_examples :
  Text.play_line "$busy==0? $c1==0? $busy:=1 J(idle) P(en_empty)"
    = "$busy==0? $c1==0? $busy:=1 P(en_empty) J(idle)"
  /\ Text.play_line "$busy==0? $card1==$c1? $busy:=1 J(firstCard) P(nop)"
     = "$busy==0? $card1==$c1? $busy:=1 J(firstCard)"
  /\ Text.play_line "$pos==0? P(en_start) J(idle) P(en_player1)"
     = "$pos==0? P(en_start) P(en_player1) J(idle)"
  /\ Text.play_line "J(a) P(b) P(c)" = "P(b) J(a) P(c)"
  /\ Text.play_line "P(b) J(a) P(c)" = "P(b) P(c) J(a)".
Proof. repeat split; vm_compute; reflexivity. Qed.

(** Claim C9 fails as stated: idempotence needs names that are names.
    With the welcome name [b) P(c] the last restart script of the generated
    program ends in a jump followed by two plays. The pass moves the jump
    behind the first play only, so its result still holds a jump before a
    play, and a second application of the pass moves the jump again: twice
    is not once, on this line and on the table of scripts. *)
Lemma play_mode_twice_differs :
  let cfg := split_welcome in
  let line := "$lastPos:=0 $card2:=0 $pos2:=0 $sum:=0 J(idle) P(b) P(c)" in
  names_ok cfg = false
  /\ (exists scripts,
        Text.scripts cfg = Some scripts
        /\ In ("restart2", Str line) scripts
        /\ Text.play_scripts (Text.play_scripts scripts) <> Text.play_scripts scripts)
  /\ Text.play_line line = "$lastPos:=0 $card2:=0 $pos2:=0 $sum:=0 P(b) J(idle) P(c)"
  /\ Text.play_line (Text.play_line line)
     = "$lastPos:=0 $card2:=0 $pos2:=0 $sum:=0 P(b) P(c) J(idle)"
  /\ Text.play_line (Text.play_line line) <> Text.play_line line.
Proof.
  cbv zeta. split; [reflexivity|]. split.
  - eexists. split; [vm_compute; reflexivity|]. split.
    + repeat (first [left; reflexivity | right]).
    + vm_compute. discriminate.
  - split; [vm_compute; reflexivity|]. split; [vm_compute; reflexivity|].
    vm_compute. discriminate.
Qed.

(** ** Script names

    The names of the table are pairwise distinct: in the program, no
    assignment to [scripts] replaces an earlier entry, so the table is the
    list of the assignments in order. *)

Lemma range_snoc i : range 0 (i + 1) = range 0 i ++ [i].
Proof. unfold range. rewrite !Nat.sub_0_r, Nat.add_1_r. apply seq_S. Qed.

Lemma restart_names_step st variable :
  restart_names_invariant st -> restart_names_invariant (Text.restart_step st variable).
Proof.
  destruct st as [[[count cmd] i] out]. unfold restart_names_invariant, Text.restart_step.
  intros H. destruct (count =? 6)%nat; [|exact H].
  now rewrite map_app, H, range_snoc, map_app.
Qed.

Lemma restart_names cfg vars :
  exists k, map fst (Text.restart_scripts cfg vars)
            = map (fun i => "restart" +:+ dec i) (range 0 k).
Proof.
  unfold Text.restart_scripts.
  assert (restart_names_invariant (fold_left Text.restart_step vars (0, "", 0, []))) as H.
  { apply fold_left_invariant; [reflexivity|]. intros. now apply restart_names_step. }
  destruct (fold_left Text.restart_step vars _) as [[[count cmd] i] out].
  exists (i + 1). cbn [restart_names_invariant] in H.
  now rewrite map_app, H, range_snoc, map_app.
Qed.

Lemma scripts_names cfg scripts :
  Text.scripts cfg = Some scripts -> exists k, map fst scripts = script_names cfg k.
Proof.
  unfold Text.scripts. destruct (Text.variables cfg) as [vars|]; [|discriminate].
  intros E. assert (scripts = Text.base_scripts cfg ++ Text.restart_scripts cfg vars) as ->
    by congruence.
  destruct (restart_names cfg vars) as [k Hk]. exists k.
  unfold Text.base_scripts, script_names.
  rewrite !map_app, !map_map, Hk. cbn [map fst]. now rewrite <- !app_assoc.
Qed.

Lemma dec_head n c s : dec n = String c s -> Re.is_digit c = true.
Proof.
  intros E. pose proof (dec_number_ok n) as H. rewrite E in H.
  cbn in H. now apply andb_true_iff in H as [H _].
Qed.

(** Refute an equation between two names of different families. *)
Ltac name_neq E :=
  cbn in E;
  repeat first [discriminate E | injection E as E | injection E as ? E];
  first
    [ now apply dec_nonempty in E
    | symmetry in E; now apply dec_nonempty in E
    | apply dec_head in E; discriminate E
    | symmetry in E; apply dec_head in E; discriminate E ].

Ltac in_names H :=
  repeat first
    [ apply in_app_or in H as [H|H]
    | apply in_map_iff in H as (? & H & _)
    | destruct H as [H|H] ].

Theorem script_names_nodup cfg k : NoDup (script_names cfg k).
Proof.
  unfold script_names.
  repeat (apply NoDup_app; split; [|split]).
  all: try (apply (dec_names_nodup _ (fun x => x)); auto).
  all: try (refine (bool_decide_unpack _ _); vm_compute; exact I).
  all: intros x Hx%list_elem_of_In Hy%list_elem_of_In.
  all: in_names Hx; in_names Hy; subst.
  all: try contradiction.
  all: try (match goal with E : _ = _ |- _ => name_neq E end).
Qed.

(** ** Script codes of the generated program *)

Lemma text_names_nodup cfg scripts :
  Text.scripts cfg = Some scripts -> NoDup (map fst scripts).
Proof.
  intros (k & ->)%scripts_names. apply script_names_nodup.
Qed.

(** Claim C2: the code assignment keeps every code of the table it is
    given. A name without a code gets one by the fixed scheme: 2000 for [q],
    2001 for [r], 2001+p for player p, 3000+c for card c, and 4000, 4001, ...
    for the remaining scripts that lack a code, in the order of the script
    table. Nothing but these names is added. *)
Theorem codes_merge cfg (scriptcodes : option (gmap string Z)) :
  exists scripts,
    Text.scripts cfg = Some scripts
    /\ let prior := match scriptcodes with Some c => c | None => ∅ end in
       let fixed := Text.fixed_codes cfg scriptcodes in
       let codes := Text.assign_codes cfg scripts scriptcodes in
       (forall k v, prior !! k = Some v -> codes !! k = Some v)
       /\ (prior !! "q" = None -> codes !! "q" = Some 2000%Z)
       /\ (prior !! "r" = None -> codes !! "r" = Some 2001%Z)
       /\ (forall p, 1 <= p <= players cfg -> prior !! ("p" +:+ dec p) = None ->
                     codes !! ("p" +:+ dec p) = Some (2001 + Z.of_nat p)%Z)
       /\ (forall c, c < Text.numCards cfg -> prior !! ("c" +:+ dec c) = None ->
                     codes !! ("c" +:+ dec c) = Some (3000 + Z.of_nat c)%Z)
       /\ (forall i name, nth_error (uncoded fixed (map fst scripts)) i = Some name ->
                          codes !! name = Some (4000 + Z.of_nat i)%Z)
       /\ (forall k, prior !! k = None -> is_Some (codes !! k) ->
                     In k (code_names cfg scripts)).
Proof.
  destruct (scripts_total cfg) as [scripts E]. exists scripts. split; [exact E|].
  cbv zeta. apply codes_merge_table. now apply (text_names_nodup cfg).
Qed.

(** ** The restart chain *)

Lemma chain_commands_app (a b : table line) :
  chain_commands (a ++ b) = chain_commands a ++ chain_commands b.
Proof. unfold chain_commands. now rewrite table_lines_app, map_app, concat_app. Qed.

Lemma line_commands_app (a b : line) :
  line_commands (a ++ b) = line_commands a ++ line_commands b.
Proof. apply List.filter_app. Qed.

Lemma restart_chain_step done st variable :
  restart_chain_invariant done st ->
  restart_chain_invariant (done ++ [variable]) (Prog.restart_step st variable).
Proof.
  destruct st as [[[count cmd] i] out]. intros [H Hc].
  unfold Prog.restart_step, restart_chain_invariant.
  destruct (count =? 6)%nat.
  - split; [|reflexivity]. rewrite chain_commands_app, map_app, <- H.
    unfold chain_commands at 2. cbn [table_lines map snd script_lines concat app].
    rewrite line_commands_app, Hc. cbn [line_commands List.filter is_cmd app].
    rewrite ?app_nil_r, <- ?app_assoc. reflexivity.
  - split.
    + now rewrite map_app, <- H, app_assoc.
    + rewrite line_commands_app, Hc. reflexivity.
Qed.

Lemma restart_chain_fold l done st :
  restart_chain_invariant done st ->
  restart_chain_invariant (done ++ l) (fold_left Prog.restart_step l st).
Proof.
  revert done st. induction l as [|v l IH]; intros done st H; cbn [fold_left].
  - now rewrite app_nil_r.
  - replace (done ++ v :: l) with ((done ++ [v]) ++ l) by now rewrite <- app_assoc.
    apply IH, restart_chain_step, H.
Qed.

(** The assignments of the restart scripts, read in the order of the
    chain, are the entries of the register table, each once. *)
Theorem restart_chain cfg vars :
  chain_commands (Prog.restart_scripts cfg vars) = map assign_token vars.
Proof.
  unfold Prog.restart_scripts.
  pose proof (restart_chain_fold vars [] (0, [], 0, [])) as H.
  destruct (fold_left Prog.restart_step vars _) as [[[count cmd] i] out].
  destruct H as [H Hc]; [now split|]. cbn [app] in H.
  rewrite chain_commands_app, <- H. f_equal.
  unfold chain_commands. cbn [table_lines map snd script_lines concat app].
  rewrite line_commands_app, Hc. cbn [line_commands List.filter is_cmd app].
  now rewrite ?app_nil_r.
Qed.

(** * Further properties

    Properties of the generated program as a whole, of the restart chain,
    of the reaction of each script, and of the run around the generator. *)

(** ** Jump targets *)

Lemma restart_jumps_step st variable :
  restart_jumps_invariant st -> restart_jumps_invariant (Prog.restart_step st variable).
Proof.
  destruct st as [[[count cmd] i] out]. intros (Hcmd & Hnames & Hout).
  unfold Prog.restart_step, restart_jumps_invariant.
  destruct (count =? 6)%nat.
  - split; [|split].
    + intros x [E|[]]. discriminate E.
    + now rewrite map_app, Hnames, range_snoc, map_app.
    + intros name s l x Hs Hl Hx.
      apply in_app_or in Hs as [Hs|[[= <- <-]|[]]].
      * destruct (Hout name s l x Hs Hl Hx) as (j & Hj & ->). exists j. split; [lia|easy].
      * destruct Hl as [<-|[]]. apply in_app_or in Hx as [Hx|[[= <-]|[E|[]]]].
        -- now apply Hcmd in Hx.
        -- exists (i + 1). split; [lia|reflexivity].
        -- discriminate E.
  - split; [|split; [exact Hnames|exact Hout]].
    intros x Hx. apply in_app_or in Hx as [Hx|[E|[]]]; [now apply Hcmd in Hx|discriminate E].
Qed.

Lemma restart_jumps cfg vars :
  exists k,
    map fst (Prog.restart_scripts cfg vars) = map (fun j => "restart" +:+ dec j) (range 0 (k + 1))
    /\ forall name s l x,
         In (name, s) (Prog.restart_scripts cfg vars) -> In l (script_lines s) ->
         In (Jump x) l ->
         x = "idle" \/ exists j, j <= k /\ x = "restart" +:+ dec j.
Proof.
  unfold Prog.restart_scripts.
  assert (restart_jumps_invariant (fold_left Prog.restart_step vars (0, [], 0, []))) as H.
  { apply fold_left_invariant.
    - split; [intros x []|]. split; [reflexivity|]. intros ? ? ? ? [].
    - intros. now apply restart_jumps_step. }
  destruct (fold_left Prog.restart_step vars _) as [[[count cmd] i] out].
  destruct H as (Hcmd & Hnames & Hout). exists i. split.
  - now rewrite map_app, Hnames, range_snoc, map_app.
  - intros name s l x Hs Hl Hx.
    apply in_app_or in Hs as [Hs|[[= <- <-]|[]]]; [right; eauto|].
    destruct Hl as [<-|[]]. apply in_app_or in Hx as [Hx|[[= <-]|[E|[]]]].
    + now apply Hcmd in Hx.
    + now left.
    + discriminate E.
Qed.

Section Targets.

Variable cfg : config.

Lemma base_lines (P : string -> line -> Prop) :
  P "idle" Prog.idle ->
  (forall p, 1 <= p <= players cfg ->
             Forall (P ("p" +:+ dec p)) (Prog.player_script cfg p)) ->
  Forall (P "q") (Prog.question cfg) ->
  Forall (P "r") (Prog.repeat_script cfg) ->
  P "shuffle" (Prog.shuffle cfg) ->
  (forall pos1, pos1 + 1 < Text.numCards cfg ->
                Forall (P ("shuffle" +:+ dec pos1)) (Prog.shuffle_state cfg pos1)) ->
  (forall c, c < Text.numCards cfg ->
             Forall (P ("c" +:+ dec c)) (Prog.card_script cfg c)) ->
  Forall (P "firstCard") (Prog.firstCard cfg) ->
  Forall (P "secondCard") (Prog.secondCard cfg) ->
  Forall (P "test") (Prog.test cfg) ->
  Forall (P "clear1") (Prog.clear1 cfg) ->
  Forall (P "clear2") (Prog.clear2 cfg) ->
  forall name s l, In (name, s) (Prog.base_scripts cfg) -> In l (script_lines s) -> P name l.
Proof.
  intros Hidle Hp Hq Hr Hsh Hst Hc Hf Hs Ht Hc1 Hc2 name s l He Hl.
  unfold Prog.base_scripts in He.
  repeat (apply in_app_or in He as [He|He]).
  - destruct He as [[= <- <-]|[]]. destruct Hl as [<-|[]]. exact Hidle.
  - apply in_map_iff in He as (p & [= <- <-] & Hin). apply in_range in Hin.
    assert (1 <= p <= players cfg) as Hin' by lia.
    pose proof (Hp p Hin') as H. rewrite List.Forall_forall in H. now apply H.
  - destruct He as [[= <- <-]|[[= <- <-]|[[= <- <-]|[]]]].
    + rewrite List.Forall_forall in Hq. now apply Hq.
    + rewrite List.Forall_forall in Hr. now apply Hr.
    + destruct Hl as [<-|[]]. exact Hsh.
  - apply in_map_iff in He as (pos1 & [= <- <-] & Hin). apply in_range in Hin.
    assert (pos1 + 1 < Text.numCards cfg) as Hin' by lia.
    pose proof (Hst pos1 Hin') as H. rewrite List.Forall_forall in H. now apply H.
  - apply in_map_iff in He as (c & [= <- <-] & Hin). apply in_range in Hin.
    assert (c < Text.numCards cfg) as Hin' by lia.
    pose proof (Hc c Hin') as H. rewrite List.Forall_forall in H. now apply H.
  - destruct He as [[= <- <-]|[[= <- <-]|[[= <- <-]|[[= <- <-]|[[= <- <-]|[]]]]]];
      match goal with H : Forall _ ?ls, Hl : In _ (script_lines (Lines ?ls)) |- _ =>
        rewrite List.Forall_forall in H; now apply H end.
Qed.

End Targets.

Section TargetNames.

Variable cfg : config.

Lemma script_names_split k :
  script_names cfg k
  = script_names cfg 0 ++ map (fun i => "restart" +:+ dec i) (range 0 k).
Proof.
  unfold script_names. cbn [range Nat.sub seq map]. rewrite <- !app_assoc.
  cbn [app]. rewrite ?app_nil_r. reflexivity.
Qed.

Lemma prog_base_names : map fst (Prog.base_scripts cfg) = script_names cfg 0.
Proof.
  unfold Prog.base_scripts, script_names.
  rewrite !map_app, !map_map. cbn [map fst range Nat.sub seq]. now rewrite app_nil_r.
Qed.

Lemma fixed_name_in k x :
  In x ["idle"; "q"; "r"; "shuffle"; "firstCard"; "secondCard"; "test"; "clear1"; "clear2"] ->
  In x (script_names cfg k).
Proof.
  intros H. cbn [In] in H. unfold script_names. rewrite !in_app_iff. cbn [In]. tauto.
Qed.

Lemma state_name_in k n :
  n + 1 < Text.numCards cfg -> In ("shuffle" +:+ dec n) (script_names cfg k).
Proof.
  intros H. unfold script_names. rewrite !in_app_iff. do 3 right. left.
  apply in_map_iff. exists n. split; [reflexivity|]. apply in_range. lia.
Qed.

Lemma restart_name_in k j : j < k -> In ("restart" +:+ dec j) (script_names cfg k).
Proof.
  intros H. rewrite script_names_split. apply in_or_app. right.
  apply in_map_iff. exists j. split; [reflexivity|]. apply in_range. lia.
Qed.

End TargetNames.

(** Decide a goal [forall x, In (Jump x) l -> ...] for a line given by its
    tokens: one case per jump of the line. *)
Ltac each_jump :=
  let x := fresh "x" in let H := fresh "H" in
  intros x H; cbn [app] in H;
  repeat (destruct H as [H|H]; [try discriminate H; try (injection H as <-)|]);
  try contradiction.

Lemma base_jumps cfg :
  1 <= Text.numPairs cfg ->
  forall name s l x,
    In (name, s) (Prog.base_scripts cfg) -> In l (script_lines s) -> In (Jump x) l ->
    In x (script_names cfg 1).
Proof.
  intros Hpairs name s l x Hs Hl. revert x.
  assert (Hcards : 2 <= Text.numCards cfg) by (unfold Text.numCards; lia).
  pose proof (fixed_name_in cfg 1) as Hfix.
  apply (base_lines cfg (fun _ l => forall x, In (Jump x) l -> In x (script_names cfg 1)))
    with (name := name) (s := s); try assumption.
  - each_jump.
  - intros p Hp. unfold Prog.player_script. each_line; each_jump; apply Hfix; cbn; tauto.
  - unfold Prog.question, Prog.not_started_line, Prog.turn_line, Prog.winner_line,
      Prog.draw_line.
    each_line; try (each_jump; apply Hfix; cbn; tauto).
    intros y Hy. apply in_app_or in Hy as [Hy|Hy].
    + pose proof (compare_conditions cfg x) as Hc. rewrite List.Forall_forall in Hc.
      apply Hc in Hy. discriminate Hy.
    + revert y Hy. each_jump. apply Hfix; cbn; tauto.
  - unfold Prog.repeat_script. each_line; each_jump.
    + change "restart0" with ("restart" +:+ dec 0). apply restart_name_in. lia.
    + apply Hfix; cbn; tauto.
  - unfold Prog.shuffle, Prog.lcg, Prog.draw. each_jump.
    change "shuffle0" with ("shuffle" +:+ dec 0). apply state_name_in. lia.
  - intros pos1 Hpos. unfold Prog.shuffle_state, Prog.shuffle_guard, Prog.lcg.
    each_line.
    + each_jump. now apply state_name_in.
    + unfold Prog.shuffle_line, Prog.swap_slots, Prog.start_game, Prog.draw.
      destruct (pos1 =? x)%nat; destruct (pos1 =? Text.numCards cfg - 2)%nat eqn:E;
        each_jump; try (apply Hfix; cbn; tauto);
        apply Nat.eqb_neq in E; apply state_name_in; lia.
  - intros c Hc. unfold Prog.card_script. each_line; each_jump; apply Hfix; cbn; tauto.
  - unfold Prog.firstCard. each_line; each_jump; apply Hfix; cbn; tauto.
  - unfold Prog.secondCard. each_line; each_jump; apply Hfix; cbn; tauto.
  - unfold Prog.test, Prog.match_line. each_line; each_jump; apply Hfix; cbn; tauto.
  - unfold Prog.clear1, Prog.finished_line. each_line; each_jump; apply Hfix; cbn; tauto.
  - unfold Prog.clear2. each_line; each_jump; apply Hfix; cbn; tauto.
Qed.

(** X1: every jump of the generated program leads to a script of the table,
    provided there is at least one pair: the jump of [shuffle] to
    [shuffle0], the jumps of the shuffle states to themselves and to their
    successors, the jump of [r] to [restart0] and the jumps along the
    restart chain included. *)
Theorem jumps_reach_scripts cfg :
  1 <= Text.numPairs cfg ->
  exists scripts,
    Prog.scripts cfg = Some scripts
    /\ Text.scripts cfg = Some (show_table scripts)
    /\ forall name s l x,
         In (name, s) scripts -> In l (script_lines s) -> In (Jump x) l ->
         exists target, In (x, target) scripts.
Proof.
  intros Hpairs. destruct (program_exists cfg) as (scripts & E & Et).
  exists scripts. split; [exact E|]. split; [exact Et|].
  unfold Prog.scripts in E. destruct (Text.variables cfg) as [vars|]; [|discriminate].
  assert (scripts = Prog.base_scripts cfg ++ Prog.restart_scripts cfg vars) as ->
    by congruence.
  clear E Et. destruct (restart_jumps cfg vars) as (k & Hnames & Hjumps).
  assert (Hin : forall x, In x (script_names cfg (k + 1)) ->
                  exists target,
                    In (x, target) (Prog.base_scripts cfg ++ Prog.restart_scripts cfg vars)).
  { intros x Hx. rewrite script_names_split, <- prog_base_names, <- Hnames, <- map_app in Hx.
    apply in_map_iff in Hx as ([y target] & <- & Hy). now exists target. }
  intros name s l x Hs Hl Hx. apply Hin.
  apply in_app_or in Hs as [Hs|Hs].
  - pose proof (base_jumps cfg Hpairs name s l x Hs Hl Hx) as H1.
    rewrite script_names_split in H1 |- *. apply in_app_or in H1 as [H1|H1].
    + apply in_or_app. now left.
    + apply in_or_app. right. apply in_map_iff in H1 as (j & <- & Hj).
      apply in_range in Hj. apply in_map_iff. exists j. split; [reflexivity|].
      apply in_range. lia.
  - destruct (Hjumps name s l x Hs Hl Hx) as [->|(j & Hj & ->)].
    + apply fixed_name_in. now left.
    + apply restart_name_in. lia.
Qed.

Lemma jumps_reach_scripts_witness :
  1 <= Text.numPairs one_pair
  /\ exists scripts,
       Prog.scripts one_pair = Some scripts
       /\ Text.scripts one_pair = Some (show_table scripts)
       /\ forall name s l x,
            In (name, s) scripts -> In l (script_lines s) -> In (Jump x) l ->
            exists target, In (x, target) scripts.
Proof.
  split; [cbn; lia|]. apply (jumps_reach_scripts one_pair). cbn. lia.
Defined.

(** Without pairs the jump of [shuffle] has no target: no shuffle state is
    written. *)
Example shuffle0_missing_without_pairs :
  let cfg := Config [] 1 false "en" "hello" in
  exists scripts,
    Text.scripts cfg = Some scripts
    /\ In ("shuffle",
           Str "$random*=25173 $random+=13849 $rnd:=$random $pos:=$rnd $pos%=0 $rnd/=0 J(shuffle0) P(nop)")
          scripts
    /\ existsb (String.eqb "shuffle0") (map fst scripts) = false.
Proof.
  cbv zeta. eexists. split; [vm_compute; reflexivity|]. split.
  - do 4 right. left. reflexivity.
  - vm_compute. reflexivity.
Qed.

(** ** The layout of the lines *)

Lemma laid_out_conditions (a b : line) :
  Forall (fun t => is_cond t = true) a -> laid_out (a ++ b) = laid_out b.
Proof.
  induction 1 as [|t a Ht Ha IH]; [reflexivity|].
  destruct t; try discriminate Ht. exact IH.
Qed.

Lemma ending_assignments (batch : dict) (tail : line) :
  ending tail = true -> ending (map assign_token batch ++ tail) = true.
Proof. intros H. induction batch as [|e batch IH]; [exact H|exact IH]. Qed.

Lemma laid_out_ending (l : line) :
  match l with Cond _ _ _ :: _ => False | _ => True end -> laid_out l = ending l.
Proof. destruct l as [|[] l]; tauto. Qed.

(** X3: every generated line consists of its conditions, then its commands,
    then one of: nothing, a play, a jump and a play, or a play, a jump and a
    play; it is not empty. *)
Theorem lines_laid_out cfg :
  exists scripts,
    Prog.scripts cfg = Some scripts
    /\ Text.scripts cfg = Some (show_table scripts)
    /\ forall name s l,
         In (name, s) scripts -> In l (script_lines s) ->
         laid_out l = true /\ l <> [].
Proof.
  destruct (program_exists cfg) as (scripts & E & Et).
  exists scripts. split; [exact E|]. split; [exact Et|].
  apply (generated_lines cfg (fun _ l => laid_out l = true /\ l <> []))
    with (scripts := scripts); try assumption.
  - now split.
  - intros p _. unfold Prog.player_script. each_line; now split.
  - unfold Prog.question, Prog.not_started_line, Prog.turn_line, Prog.winner_line,
      Prog.draw_line.
    each_line; try (now split).
    rewrite (laid_out_conditions _ _ (compare_conditions cfg x)). split; [reflexivity|].
    now destruct (Prog.compare cfg x).
  - unfold Prog.repeat_script. each_line; now split.
  - now split.
  - intros pos1 _. unfold Prog.shuffle_state, Prog.shuffle_guard, Prog.lcg.
    each_line; [now split|].
    unfold Prog.shuffle_line, Prog.swap_slots, Prog.start_game, Prog.draw.
    destruct (pos1 =? x)%nat, (pos1 =? Text.numCards cfg - 2)%nat; now split.
  - intros c _. unfold Prog.card_script. each_line; now split.
  - unfold Prog.firstCard. each_line; now split.
  - unfold Prog.secondCard. each_line; now split.
  - unfold Prog.test, Prog.match_line. each_line; now split.
  - unfold Prog.clear1, Prog.finished_line. each_line; now split.
  - unfold Prog.clear2. each_line; now split.
  - intros vars i l _ (batch & x & y & -> & _). split.
    + rewrite laid_out_ending.
      * now apply ending_assignments.
      * now destruct batch.
    + now destruct batch.
Qed.

(** ** The assignments of the initialisation line *)

Lemma var_consumes s w r : Re.var s = Some (w, r) -> String.length r < String.length s.
Proof.
  intros (-> & _ & _)%var_spec. rewrite !slength_app. cbn. lia.
Qed.

Lemma assign_consumes s a r :
  Re.assign s = Some (a, r) -> String.length r < String.length s.
Proof.
  unfold Re.assign. destruct (Re.var s) as [[name s1]|] eqn:E1; [|discriminate].
  destruct (Re.literal ":=" s1) as [s2|] eqn:E2; [|discriminate].
  destruct (Re.plus Re.is_digit s2) as [[value rest]|] eqn:E3; [|discriminate].
  intros [= <- <-]. apply var_consumes in E1. apply literal_spec in E2 as ->.
  apply plus_spec in E3 as (-> & _ & _). rewrite !slength_app in *. cbn in *. lia.
Qed.

Lemma span_all (p : ascii -> bool) w :
  forallb p (list_ascii_of_string w) = true -> Re.span p w = (w, "").
Proof.
  induction w as [|d w IH]; cbn [Re.span]; [reflexivity|].
  cbn. intros [Hd Hw]%andb_true_iff. now rewrite Hd, IH.
Qed.

Lemma span_number d rest :
  number_ok d = true -> ends_number rest -> Re.span Re.is_digit (d +:+ rest) = (d, rest).
Proof.
  intros Hd [->|[r ->]].
  - rewrite sapp_nil_r. now apply span_all.
  - now apply span_stop.
Qed.

Lemma assign_match w d rest :
  word_ok w = true -> w <> "" -> number_ok d = true -> d <> "" -> ends_number rest ->
  Re.assign ("$" +:+ w +:+ ":=" +:+ d +:+ rest) = Some ((w, d), rest).
Proof.
  intros Hw Hwne Hd Hdne Hrest. unfold Re.assign, Re.var.
  change (Re.literal "$" ("$" +:+ w +:+ ":=" +:+ d +:+ rest))
    with (Some (w +:+ ":=" +:+ d +:+ rest)).
  cbv beta iota. unfold Re.plus at 1.
  change (w +:+ ":=" +:+ d +:+ rest) with (w +:+ String ":" ("=" +:+ d +:+ rest)).
  rewrite (span_stop Re.is_alnum w ":" _ Hw eq_refl).
  destruct w as [|c w]; [contradiction|].
  change (Re.literal ":=" (String ":" ("=" +:+ d +:+ rest))) with (Some (d +:+ rest)).
  cbv beta iota. unfold Re.plus. rewrite (span_number _ _ Hd Hrest).
  destruct d as [|c' d]; [contradiction|]. reflexivity.
Qed.

Lemma findall_assign_match s a r :
  Re.assign s = Some (a, r) -> Re.findall Re.assign s = a :: Re.findall Re.assign r.
Proof.
  intros E. unfold Re.findall. now rewrite (items_match _ assign_consumes _ _ _ E).
Qed.

Lemma findall_assign_space s :
  Re.findall Re.assign (String " " s) = Re.findall Re.assign s.
Proof. unfold Re.findall. now rewrite items_skip. Qed.

Lemma findall_assign_nil : Re.findall Re.assign "" = [].
Proof. reflexivity. Qed.

Lemma entry_match e rest :
  entry_ok e = true -> fst e <> "" -> ends_number rest ->
  Re.findall Re.assign (show_token (assign_token e) +:+ rest)
  = e :: Re.findall Re.assign rest.
Proof.
  destruct e as [w d]. unfold entry_ok. cbn [fst snd].
  intros [[Hw Hd]%andb_true_iff Hne]%andb_true_iff Hwne Hrest.
  apply negb_true_iff, String.eqb_neq in Hne.
  apply findall_assign_match. unfold assign_token, show_token, show_aop, show_operand.
  cbn [fst snd]. rewrite !sapp_assoc. now apply assign_match.
Qed.

(** The assignments found in a line of entries separated by single spaces
    and followed by text that starts with a space. *)
Lemma findall_entries l tail :
  Forall (fun e => entry_ok e = true /\ fst e <> "") l ->
  Re.findall Re.assign (join (map (fun e => show_token (assign_token e)) l)
                          +:+ String " " tail)
  = l ++ Re.findall Re.assign tail.
Proof.
  induction 1 as [|e l [He Hne] Hl IH].
  - cbn [map join String.concat String.append]. apply findall_assign_space.
  - destruct l as [|e' l].
    + cbn [map join String.concat]. rewrite entry_match; [|assumption|assumption|right; eauto].
      cbn [app]. now rewrite findall_assign_space.
    + change (join (map (fun e => show_token (assign_token e)) (e :: e' :: l)))
        with (show_token (assign_token e) +:+ " "
                +:+ join (map (fun e => show_token (assign_token e)) (e' :: l))).
      rewrite !sapp_assoc. rewrite entry_match; [|assumption|assumption|right; eauto].
      cbn [app String.append]. rewrite findall_assign_space. f_equal. exact IH.
Qed.

Section InitEntries.

Variable cfg : config.

Lemma card_entry_ok x : entry_ok ("c" +:+ dec x, dec (x + 1)) = true.
Proof.
  unfold entry_ok. cbn [fst snd].
  change ("c" +:+ dec x) with (String "c" (dec x)).
  unfold word_ok. cbn [list_ascii_of_string forallb].
  fold (word_ok (dec x)). rewrite dec_word_ok, dec_number_ok.
  destruct (String.eqb_spec (dec (x + 1)) ""); [now apply dec_nonempty in e|reflexivity].
Qed.

Lemma findall_init : Re.findall Re.assign (Text.init cfg) = init_entries cfg.
Proof.
  unfold Text.init, init_entries.
  replace (map (fun x => "$c" +:+ dec x +:+ ":=" +:+ dec (x + 1))
             (range 0 (Text.numCards cfg)))
    with (map (fun e => show_token (assign_token e))
            (map (fun x => ("c" +:+ dec x, dec (x + 1))) (range 0 (Text.numCards cfg)))).
  2: { rewrite map_map. apply map_ext. intros x.
       unfold assign_token, show_token, show_aop, show_operand. cbn [fst snd].
       now rewrite !sapp_assoc. }
  change (" $remaining:=" +:+ dec (Text.numPairs cfg) +:+ " $player:=1")
    with (String " " (show_token (assign_token ("remaining", dec (Text.numPairs cfg)))
                        +:+ String " " (show_token (assign_token ("player", "1")) +:+ ""))).
  rewrite findall_entries.
  - f_equal. rewrite entry_match.
    + reflexivity.
    + unfold entry_ok. cbn [fst snd]. rewrite dec_number_ok.
      destruct (String.eqb_spec (dec (Text.numPairs cfg)) "");
        [now apply dec_nonempty in e|reflexivity].
    + discriminate.
    + right. eauto.
  - apply List.Forall_map, List.Forall_forall. intros x _. split; [apply card_entry_ok|].
    discriminate.
Qed.

End InitEntries.

(** ** Dictionaries *)

Lemma dict_mem_In k (d : dict) : dict_mem k d = true <-> In k (map fst d).
Proof.
  unfold dict_mem. rewrite existsb_exists. split.
  - intros ([k' v] & He & E). apply String.eqb_eq in E. apply in_map_iff.
    now exists (k', v).
  - intros ([k' v] & E & He)%in_map_iff. exists (k', v). split; [exact He|].
    now apply String.eqb_eq.
Qed.

Lemma dict_mem_app k (a b : dict) : dict_mem k (a ++ b) = dict_mem k a || dict_mem k b.
Proof. unfold dict_mem. apply existsb_app. Qed.

(** Setting a key that is absent appends the entry. *)
Lemma dict_set_fresh (d : dict) k v :
  dict_mem k d = false -> dict_set d k v = d ++ [(k, v)].
Proof.
  induction d as [|[k0 v0] d IH]; [reflexivity|].
  cbn [dict_mem existsb fst dict_set app]. intros [H0 Hd]%orb_false_iff.
  rewrite H0. f_equal. now apply IH.
Qed.

Lemma fold_dict_set_fresh (l d : dict) :
  NoDup (map fst (d ++ l)) ->
  fold_left (fun vars a => dict_set vars (fst a) (snd a)) l d = d ++ l.
Proof.
  revert d. induction l as [|[k v] l IH]; intros d Hnd; cbn [fold_left].
  - now rewrite app_nil_r.
  - cbn [fst snd]. replace (d ++ (k, v) :: l) with ((d ++ [(k, v)]) ++ l) in *
      by now rewrite <- app_assoc.
    rewrite dict_set_fresh.
    + now apply IH.
    + rewrite !map_app in Hnd. apply NoDup_app in Hnd as [Hnd _].
      apply NoDup_app in Hnd as (_ & Hd & _).
      destruct (dict_mem k d) eqn:E; [|reflexivity].
      apply dict_mem_In, list_elem_of_In in E. exfalso. apply (Hd k E). now left.
Qed.

Lemma filter_all {A} (f : A -> bool) l :
  Forall (fun x => f x = true) l -> List.filter f l = l.
Proof.
  induction 1 as [|x l Hx Hl IH]; [reflexivity|]. cbn. now rewrite Hx, IH.
Qed.

Lemma nodup_filter_keys (f : string * string -> bool) (d : dict) :
  NoDup (map fst d) -> NoDup (map fst (List.filter f d)).
Proof.
  induction d as [|e d IH]; [easy|]. cbn [map List.filter].
  intros [Hn Hd]%NoDup_cons. destruct (f e); [|auto]. cbn [map].
  apply NoDup_cons. split; [|auto]. intros Hin. apply Hn.
  apply list_elem_of_In in Hin. apply list_elem_of_In.
  apply in_map_iff in Hin as (e' & <- & He'). apply filter_In in He' as [He' _].
  apply in_map_iff. now exists e'.
Qed.

(** A key that occurs once in the table is assigned once by the commands
    made of it. *)
Lemma assigns_once (d : dict) o :
  NoDup (map fst d) -> In o (map fst d) ->
  length (List.filter (assigns o) (map assign_token d)) = 1.
Proof.
  induction d as [|[k v] d IH]; [intros _ []|].
  cbn [map fst List.filter assign_token assigns snd].
  intros [Hn Hd]%NoDup_cons [->|Hin].
  - rewrite String.eqb_refl. cbn [length]. f_equal.
    assert (List.filter (assigns o) (map assign_token d) = []) as ->; [|reflexivity].
    clear IH Hd. induction d as [|[k v'] d IH]; [reflexivity|].
    cbn [map List.filter assign_token assigns fst snd].
    destruct (String.eqb_spec k o) as [->|_].
    + exfalso. apply Hn. now left.
    + apply IH. intros H. apply Hn. now right.
  - destruct (String.eqb_spec k o) as [->|_].
    + exfalso. apply Hn. now apply list_elem_of_In.
    + now apply IH.
Qed.

Lemma assigns_never (d : dict) o :
  ~ In o (map fst d) -> List.filter (assigns o) (map assign_token d) = [].
Proof.
  induction d as [|[k v] d IH]; [reflexivity|].
  cbn [map fst List.filter assign_token assigns snd]. intros H.
  destruct (String.eqb_spec k o) as [->|_]; [exfalso; apply H; now left|].
  apply IH. intros Hin. apply H. now right.
Qed.

(** ** What the register scan adds *)

Section ScanSpec.

Variable vars0 : dict.
Variable scripts : table string.

Lemma note_register_added vars o :
  named_in scripts o -> scan_added vars0 scripts vars ->
  scan_added vars0 scripts (Text.note_register vars o).
Proof.
  intros Ho (zeros & -> & Hz & Hnd). unfold Text.note_register.
  destruct (dict_mem o (vars0 ++ zeros)) eqn:E; [now exists zeros|].
  rewrite dict_set_fresh by exact E. rewrite dict_mem_app in E.
  apply orb_false_iff in E as [E0 Ez].
  exists (zeros ++ [(o, "0")]). split; [now rewrite app_assoc|]. split.
  - apply List.Forall_app. split; [exact Hz|]. now repeat constructor.
  - rewrite map_app. cbn [map fst]. apply NoDup_app. split; [exact Hnd|]. split.
    + intros k Hk Hk'. apply list_elem_of_In in Hk'. destruct Hk' as [<-|[]].
      apply list_elem_of_In, dict_mem_In in Hk. congruence.
    + apply NoDup_singleton.
Qed.

Lemma scan_scripts_added : scan_added vars0 scripts (Text.scan_scripts vars0 scripts).
Proof.
  unfold Text.scan_scripts.
  apply (fold_left_invariant_in (scan_added vars0 scripts)).
  - exists []. split; [now rewrite app_nil_r|]. split; constructor.
  - intros d script Hs Hd. unfold Text.scan_script.
    apply (fold_left_invariant_in (scan_added vars0 scripts)); [exact Hd|].
    intros d' line Hl Hd'. unfold Text.note_registers.
    apply (fold_left_invariant_in (scan_added vars0 scripts)); [exact Hd'|].
    intros d'' o Ho Hd''. apply note_register_added; [|exact Hd''].
    apply in_map_iff in Hs as ([name s] & <- & Hs). cbn [snd] in Hl.
    destruct s as [s|ls]; cbn [iter_script] in Hl.
    + unfold chars in Hl. apply in_map_iff in Hl as (c & <- & _).
      rewrite findall_var_char in Ho. destruct Ho.
    + now exists name, ls, line.
Qed.

End ScanSpec.

(** ** The register table in closed form *)

Section Table.

Variable cfg : config.

Lemma init_keys_nodup : NoDup (map fst (init_entries cfg)).
Proof.
  unfold init_entries. rewrite map_app, map_map. cbn [map fst].
  apply NoDup_app. split; [|split].
  - apply (dec_names_nodup _ (fun x => x)); auto.
  - intros x Hx%list_elem_of_In Hy%list_elem_of_In.
    apply in_map_iff in Hx as (n & E & _). subst x.
    destruct Hy as [E|[E|[]]]; discriminate E.
  - refine (bool_decide_unpack _ _). vm_compute. exact I.
Qed.

Lemma init_keys_not_busy : Forall (fun e => negb (String.eqb (fst e) "busy") = true)
                                  (init_entries cfg).
Proof.
  unfold init_entries. apply List.Forall_app. split.
  - apply List.Forall_map, List.Forall_forall. intros x _. reflexivity.
  - repeat constructor.
Qed.

Lemma init_variables_entries : Text.init_variables cfg = init_entries cfg.
Proof.
  unfold Text.init_variables. rewrite findall_init.
  apply (fold_dict_set_fresh (init_entries cfg) []). apply init_keys_nodup.
Qed.

(** The register table: the assignments of the initialisation line, then
    zeros for the other registers that the list-valued scripts name. *)
Lemma variables_entries :
  exists zeros,
    Text.variables cfg = Some (init_entries cfg ++ zeros)
    /\ Forall (fun e => snd e = "0" /\ fst e <> "busy"
                        /\ dict_mem (fst e) (init_entries cfg) = false
                        /\ named_in (Text.base_scripts cfg) (fst e)) zeros
    /\ NoDup (map fst zeros)
    /\ forall o, named_in (Text.base_scripts cfg) o -> o <> "busy" ->
                 dict_mem o (init_entries cfg) = true \/ In o (map fst zeros).
Proof.
  destruct (variables_total cfg) as [vars Ev].
  pose proof (scan_scripts_added (Text.init_variables cfg) (Text.base_scripts cfg))
    as (zeros & Es & Hz & Hnd).
  rewrite init_variables_entries in Es, Hz.
  exists (List.filter (fun e => negb (String.eqb (fst e) "busy")) zeros).
  split; [|split; [|split]].
  - unfold Text.variables, dict_del in *.
    destruct (dict_mem "busy" _); [|discriminate]. f_equal.
    rewrite init_variables_entries, Es, List.filter_app.
    now rewrite (filter_all _ _ init_keys_not_busy).
  - apply List.Forall_forall. intros e [He Hb]%filter_In.
    rewrite List.Forall_forall in Hz. destruct (Hz e He) as (H0 & Hm & Hn).
    repeat split; try assumption.
    now apply negb_true_iff, String.eqb_neq in Hb.
  - now apply nodup_filter_keys.
  - intros o (name & ls & line & Hs & Hl & Ho) Hb.
    pose proof (scan_scripts_found (Text.init_variables cfg) _ _ _ _ _ Hs Hl Ho) as Hm.
    rewrite init_variables_entries, Es, dict_mem_app in Hm.
    apply orb_true_iff in Hm as [Hm|Hm]; [now left|right].
    apply dict_mem_In, in_map_iff in Hm as ([k v] & E & He). cbn [fst] in E. subst k.
    apply in_map_iff. exists (o, v). split; [reflexivity|].
    apply filter_In. split; [exact He|]. cbn [fst].
    apply negb_true_iff, String.eqb_neq. exact Hb.
Qed.

End Table.

(** X4: the restart chain restores the initialisation: its assignments are
    those of the initialisation line, in order and with the same values
    ([$c0:=1], [$c1:=2], ..., [$remaining:=numPairs], [$player:=1]),
    followed by assignments of 0 only. *)
Theorem restart_restores_init cfg :
  exists vars zeros,
    Text.variables cfg = Some vars
    /\ Re.findall Re.assign (Text.init cfg) = init_entries cfg
    /\ vars = init_entries cfg ++ zeros
    /\ Text.restart_scripts cfg vars = show_table (Prog.restart_scripts cfg vars)
    /\ chain_commands (Prog.restart_scripts cfg vars)
       = map assign_token (init_entries cfg) ++ map zero_token zeros.
Proof.
  destruct (variables_entries cfg) as (zeros & Ev & Hz & _).
  exists (init_entries cfg ++ zeros), zeros.
  split; [exact Ev|]. split; [apply findall_init|]. split; [reflexivity|].
  split; [symmetry; apply show_restart_scripts|].
  rewrite restart_chain, map_app. f_equal.
  apply map_ext_in. intros [k v] He. rewrite List.Forall_forall in Hz.
  destruct (Hz _ He) as (Hv & _). cbn [snd] in Hv. subst v. reflexivity.
Qed.

(** X5: the registers of the restart chain are those that the initialisation
    line assigns and those that a line of a list-valued script names, [busy]
    excepted; the chain assigns each of them exactly once and never assigns
    [busy]. *)
Theorem registers_reset_once cfg :
  exists vars,
    Text.variables cfg = Some vars
    /\ Text.restart_scripts cfg vars = show_table (Prog.restart_scripts cfg vars)
    /\ (forall o, In o (map fst vars) <->
                  o <> "busy"
                  /\ (In o (assigned_registers (Text.init cfg))
                      \/ named_in (Text.base_scripts cfg) o))
    /\ (forall o, In o (map fst vars) ->
          length (List.filter (assigns o)
                    (chain_commands (Prog.restart_scripts cfg vars))) = 1)
    /\ List.filter (assigns "busy") (chain_commands (Prog.restart_scripts cfg vars)) = [].
Proof.
  destruct (variables_entries cfg) as (zeros & Ev & Hz & Hnd & Hcov).
  exists (init_entries cfg ++ zeros). split; [exact Ev|].
  split; [symmetry; apply show_restart_scripts|].
  rewrite List.Forall_forall in Hz.
  assert (Hkeys : NoDup (map fst (init_entries cfg ++ zeros))).
  { rewrite map_app. apply NoDup_app. split; [apply init_keys_nodup|]. split; [|exact Hnd].
    intros k Hk%list_elem_of_In Hk'%list_elem_of_In.
    apply in_map_iff in Hk' as (e & <- & He). destruct (Hz e He) as (_ & _ & Hm & _).
    apply dict_mem_In in Hk. congruence. }
  assert (Hbusy : ~ In "busy" (map fst (init_entries cfg ++ zeros))).
  { rewrite map_app. intros [H|H]%in_app_or.
    - apply in_map_iff in H as (e & E & He).
      pose proof (init_keys_not_busy cfg) as Hi. rewrite List.Forall_forall in Hi.
      specialize (Hi e He). rewrite E in Hi. discriminate Hi.
    - apply in_map_iff in H as (e & E & He). destruct (Hz e He) as (_ & Hb & _).
      contradiction. }
  split; [|split].
  - intros o. unfold assigned_registers. rewrite findall_init, map_app. split.
    + intros Ho. split; [intros ->; apply Hbusy; now rewrite map_app|].
      apply in_app_or in Ho as [Ho|Ho]; [now left|right].
      apply in_map_iff in Ho as (e & <- & He). now destruct (Hz e He) as (_ & _ & _ & Hn).
    + intros [Hb [Ho|Ho]]; apply in_or_app; [now left|].
      destruct (Hcov o Ho Hb) as [Hm|Hm]; [left; now apply dict_mem_In|now right].
  - intros o Ho. rewrite restart_chain. now apply assigns_once.
  - rewrite restart_chain. now apply assigns_never.
Qed.

(** ** The batches of the restart chain *)

Lemma batch_snoc (done : dict) v j :
  6 * j + 6 <= length done -> batch (done ++ [v]) j = batch done j.
Proof.
  intros H. unfold batch. rewrite List.skipn_app, List.firstn_app, List.length_skipn.
  replace (6 - (length done - 6 * j)) with 0 by lia. cbn [firstn].
  now rewrite List.firstn_O, app_nil_r.
Qed.

Lemma restart_link_snoc (done : dict) v i :
  6 * i <= length done ->
  map (restart_link (done ++ [v])) (range 0 i) = map (restart_link done) (range 0 i).
Proof.
  intros H. apply map_ext_in. intros j Hj%in_range. unfold restart_link.
  rewrite batch_snoc by lia. reflexivity.
Qed.

Lemma restart_batches_step done st v :
  restart_batches_invariant done st ->
  restart_batches_invariant (done ++ [v]) (Prog.restart_step st v).
Proof.
  destruct st as [[[count cmd] i] out]. intros (Hlen & Hle & Hne & -> & ->).
  unfold Prog.restart_step, restart_batches_invariant.
  rewrite length_app. cbn [length].
  destruct (count =? 6)%nat eqn:E.
  - apply Nat.eqb_eq in E. subst count. repeat split; try lia.
    + rewrite List.skipn_app, List.skipn_all2 by lia.
      replace (6 * (i + 1) - length done) with 0 by lia. reflexivity.
    + rewrite range_snoc, map_app, restart_link_snoc by lia. f_equal.
      cbn [map]. unfold restart_link.
      assert (batch (done ++ [v]) i = skipn (6 * i) done) as ->; [|reflexivity].
      unfold batch. rewrite List.skipn_app, List.firstn_app, List.length_skipn.
      replace (6 - (length done - 6 * i)) with 0 by lia.
      rewrite List.firstn_O, app_nil_r, List.firstn_all2; [reflexivity|].
      rewrite List.length_skipn. lia.
  - apply Nat.eqb_neq in E. repeat split; try lia.
    + rewrite List.skipn_app. replace (6 * i - length done) with 0 by lia.
      cbn [skipn]. now rewrite map_app.
    + now rewrite restart_link_snoc by lia.
Qed.

Lemma restart_batches_fold l done st :
  restart_batches_invariant done st ->
  restart_batches_invariant (done ++ l) (fold_left Prog.restart_step l st).
Proof.
  revert done st. induction l as [|v l IH]; intros done st H; cbn [fold_left].
  - now rewrite app_nil_r.
  - replace (done ++ v :: l) with ((done ++ [v]) ++ l) by now rewrite <- app_assoc.
    apply IH, restart_batches_step, H.
Qed.

Lemma restart_fold_batches vars :
  restart_batches_invariant vars (fold_left Prog.restart_step vars (0, [], 0, [])).
Proof.
  apply (restart_batches_fold vars [] (0, [], 0, [])). cbn. repeat split; auto; lia.
Qed.

(** The index of the last restart script, from the counters of the loop. *)
Lemma batches_index n i count :
  n = 6 * i + count -> count <= 6 -> (n = 0 \/ 1 <= count) -> (n - 1) / 6 = i.
Proof.
  intros Hn Hle [->|Hc].
  - assert (i = 0) as -> by lia. reflexivity.
  - symmetry. apply (Nat.div_unique _ _ _ (count - 1)); lia.
Qed.

(** X6: the restart chain has one script for every six registers of the
    table, named [restart0], [restart1], ... in the order of the chain. With
    [k] the index of the last script, script [j < k] assigns the [j]-th
    batch of six entries and continues with script [j+1]; the last script
    assigns the rest, between one and six entries unless the table is empty,
    then goes to [idle] and plays the welcome narration. *)
Theorem restart_batches cfg vars :
  let k := (length vars - 1) / 6 in
  Prog.restart_scripts cfg vars
  = map (restart_link vars) (range 0 k)
    ++ [("restart" +:+ dec k,
         Str (map assign_token (batch vars k) ++ [Jump "idle"; Play (welcome cfg)]))]
  /\ Text.restart_scripts cfg vars = show_table (Prog.restart_scripts cfg vars)
  /\ (forall j, j < k -> length (batch vars j) = 6)
  /\ length (batch vars k) = length vars - 6 * k
  /\ (vars <> [] -> 1 <= length (batch vars k) <= 6).
Proof.
  cbv zeta. unfold Prog.restart_scripts at 1.
  pose proof (restart_fold_batches vars) as H.
  destruct (fold_left Prog.restart_step vars _) as [[[count cmd] i] out].
  destruct H as (Hlen & Hle & Hne & -> & ->).
  assert (Hne' : length vars = 0 \/ 1 <= count).
  { destruct Hne as [->|Hc]; [now left|now right]. }
  rewrite (batches_index _ i count Hlen Hle Hne').
  assert (Hb : batch vars i = skipn (6 * i) vars).
  { unfold batch. apply List.firstn_all2. rewrite List.length_skipn. lia. }
  split; [now rewrite Hb|]. split; [symmetry; apply show_restart_scripts|].
  split; [|split].
  - intros j Hj. unfold batch. rewrite List.length_firstn, List.length_skipn. lia.
  - rewrite Hb, List.length_skipn. lia.
  - intros Hv. rewrite Hb, List.length_skipn.
    destruct Hne as [->|Hc]; [contradiction|lia].
Qed.

(** ** The names of the script table *)

Lemma show_table_names (t : table line) : map fst (show_table t) = map fst t.
Proof. unfold show_table, table_map. rewrite map_map. reflexivity. Qed.

Lemma restart_scripts_names cfg vars :
  map fst (Prog.restart_scripts cfg vars)
  = map (fun i => "restart" +:+ dec i) (range 0 ((length vars - 1) / 6 + 1)).
Proof.
  unfold Prog.restart_scripts.
  pose proof (restart_fold_batches vars) as H.
  destruct (fold_left Prog.restart_step vars _) as [[[count cmd] i] out].
  destruct H as (Hlen & Hle & Hne & _ & ->).
  rewrite (batches_index _ i count Hlen Hle).
  - rewrite range_snoc, !map_app, map_map. reflexivity.
  - destruct Hne as [->|Hc]; [now left|now right].
Qed.

(** X2: the script table in full: the names of its entries, in order, with
    one restart script for every six registers of the restart chain. No two
    entries share a name, so no assignment of the program to [scripts]
    replaces a script written before. *)
Theorem script_table_names cfg :
  exists scripts vars,
    Text.scripts cfg = Some scripts
    /\ Text.variables cfg = Some vars
    /\ map fst scripts = script_names cfg ((length vars - 1) / 6 + 1)
    /\ NoDup (map fst scripts)
    /\ length scripts
       = players cfg + (Text.numCards cfg - 1) + Text.numCards cfg + 9
         + ((length vars - 1) / 6 + 1).
Proof.
  destruct (variables_total cfg) as [vars Ev].
  exists (Text.base_scripts cfg ++ Text.restart_scripts cfg vars), vars.
  assert (Hnames : map fst (Text.base_scripts cfg ++ Text.restart_scripts cfg vars)
                   = script_names cfg ((length vars - 1) / 6 + 1)).
  { rewrite map_app, <- show_base_scripts, <- show_restart_scripts, !show_table_names.
    now rewrite prog_base_names, restart_scripts_names, <- script_names_split. }
  split; [unfold Text.scripts; now rewrite Ev|]. split; [exact Ev|].
  split; [exact Hnames|]. split; [rewrite Hnames; apply script_names_nodup|].
  rewrite <- (length_map fst), Hnames. unfold script_names, range.
  rewrite !length_app, !length_map, !length_seq. cbn [length]. lia.
Qed.

(** ** The busy flag as a lock *)

Ltac not_field :=
  let E := fresh "E" in
  intros [E|[E|[[? E]|[? E]]]]; exfalso; name_neq E.

Ltac locked Hb Hp :=
  intros _; split;
  [ first
      [ intros _; reflexivity
      | let H := fresh "H" in
        cbn [enabled forallb holds eval_cmp eval_operand Num app];
        rewrite lit_value_dec; intros [H%Z.eqb_eq _]%andb_true_iff;
        change (Z.of_nat 0) with 0%Z in H; congruence ]
  | let H := fresh "H" in intros H; first [reflexivity | discriminate H] ].

(** X7: the busy flag is a lock on the fields of the board. While [busy] is
    set and the game has started, a line of the query, repeat, player or
    card scripts that can fire holds conditions and plays only: it changes
    no register and starts no script. Every other line of these scripts sets
    [busy] to 1. *)
Theorem busy_lock cfg (st : store) :
  st "busy" <> 0%Z -> st "players" <> 0%Z ->
  exists scripts,
    Prog.scripts cfg = Some scripts
    /\ Text.scripts cfg = Some (show_table scripts)
    /\ forall name s l,
         In (name, s) scripts -> In l (script_lines s) -> is_field name ->
         (enabled st l = true -> forallb quiet l = true)
         /\ (forallb quiet l = false -> existsb takes_busy l = true).
Proof.
  intros Hb Hp. destruct (program_exists cfg) as (scripts & E & Et).
  exists scripts. split; [exact E|]. split; [exact Et|].
  intros name s l Hs Hl.
  apply (generated_lines cfg (busy_locked st)) with (scripts := scripts) (s := s);
    try assumption; unfold busy_locked.
  - not_field.
  - intros p _. unfold Prog.player_script. each_line. all: locked Hb Hp.
  - unfold Prog.question, Prog.not_started_line, Prog.turn_line, Prog.winner_line,
      Prog.draw_line.
    each_line; try (locked Hb Hp).
    rewrite compare_tokens. intros _. split.
    + cbn [enabled forallb holds eval_cmp eval_operand Num app].
      rewrite lit_value_dec. intros [H%Z.eqb_eq _]%andb_true_iff.
      change (Z.of_nat 0) with 0%Z in H. congruence.
    + intros _. cbn [app existsb takes_busy]. rewrite existsb_app. cbn.
      apply orb_true_r.
  - unfold Prog.repeat_script. each_line; locked Hb Hp.
  - not_field.
  - intros pos1 _. apply List.Forall_forall. intros l' _. not_field.
  - intros c _. unfold Prog.card_script. each_line; locked Hb Hp.
  - apply List.Forall_forall. intros l' _. not_field.
  - apply List.Forall_forall. intros l' _. not_field.
  - apply List.Forall_forall. intros l' _. not_field.
  - apply List.Forall_forall. intros l' _. not_field.
  - apply List.Forall_forall. intros l' _. not_field.
  - intros vars i l' _ _. not_field.
Qed.

Lemma busy_lock_witness :
  busy_store "busy" <> 0%Z /\ busy_store "players" <> 0%Z
  /\ exists scripts,
       Prog.scripts two_pairs = Some scripts
       /\ Text.scripts two_pairs = Some (show_table scripts)
       /\ forall name s l,
            In (name, s) scripts -> In l (script_lines s) -> is_field name ->
            (enabled busy_store l = true -> forallb quiet l = true)
            /\ (forallb quiet l = false -> existsb takes_busy l = true).
Proof.
  split; [discriminate|]. split; [discriminate|].
  apply (busy_lock two_pairs busy_store); discriminate.
Defined.

(** ** Which line of a script fires *)

(** X8: how a card field reacts, in full: before the game it says so, after
    the game it says so; during the game it is silent while [busy] is set,
    and otherwise tells an empty field, takes the card as the first card,
    repeats the first card, or takes it as the second card. *)
Theorem card_script_reaction cfg c (st : store) :
  c < Text.numCards cfg ->
  exists scripts,
    Prog.scripts cfg = Some scripts
    /\ Text.scripts cfg = Some (show_table scripts)
    /\ In ("c" +:+ dec c, Lines (Prog.card_script cfg c)) scripts
    /\ fire st (Prog.card_script cfg c)
       = if (st "players" =? 0)%Z then Some 0
         else if (st "remaining" =? 0)%Z then Some 1
         else if negb (st "busy" =? 0)%Z then None
         else if (st ("c" +:+ dec c) =? 0)%Z then Some 2
         else if (st "card1" =? 0)%Z then Some 3
         else if (st "card1" =? st ("c" +:+ dec c))%Z then Some 4
         else Some 5.
Proof.
  intros Hc. destruct (program_exists cfg) as (scripts & E & Et).
  exists scripts. split; [exact E|]. split; [exact Et|]. split.
  - apply (base_script_in cfg scripts _ _ E). unfold Prog.base_scripts.
    rewrite !in_app_iff. do 4 right. left. apply in_map_iff. exists c.
    split; [reflexivity|]. apply in_range. lia.
  - unfold Prog.card_script. cbn [fire]. rewrite !enabled_eq_num.
    unfold enabled. cbn [forallb holds eval_cmp eval_operand Num].
    rewrite ?lit_value_dec. change (Z.of_nat 0) with 0%Z. rewrite ?andb_true_r.
    destruct (st "players" =? 0)%Z; [reflexivity|].
    destruct (st "remaining" =? 0)%Z; [reflexivity|].
    destruct (st "busy" =? 0)%Z; [|reflexivity]. cbn [andb negb option_map].
    destruct (st ("c" +:+ dec c) =? 0)%Z; [reflexivity|].
    destruct (st "card1" =? 0)%Z; [reflexivity|].
    destruct (st "card1" =? st ("c" +:+ dec c))%Z; reflexivity.
Qed.

Lemma card_script_reaction_witness :
  1 < Text.numCards two_pairs
  /\ exists scripts,
       Prog.scripts two_pairs = Some scripts
       /\ Text.scripts two_pairs = Some (show_table scripts)
       /\ In ("c" +:+ dec 1, Lines (Prog.card_script two_pairs 1)) scripts
       /\ fire busy_store (Prog.card_script two_pairs 1)
          = if (busy_store "players" =? 0)%Z then Some 0
            else if (busy_store "remaining" =? 0)%Z then Some 1
            else if negb (busy_store "busy" =? 0)%Z then None
            else if (busy_store ("c" +:+ dec 1) =? 0)%Z then Some 2
            else if (busy_store "card1" =? 0)%Z then Some 3
            else if (busy_store "card1" =? busy_store ("c" +:+ dec 1))%Z then Some 4
            else Some 5.
Proof.
  split; [cbn; lia|]. apply (card_script_reaction two_pairs 1 busy_store). cbn. lia.
Defined.

(** X10: the card that is announced is the card that was taken: with card
    [c] in [$card1], [$card2] or [$lastCard], the script of the generated
    program that reads out the first card, the second card or the last card
    fires the line that plays the narration of [c]. *)
Theorem card_narration cfg (st : store) c :
  1 <= c <= Text.numCards cfg ->
  exists scripts,
    Prog.scripts cfg = Some scripts
    /\ Text.scripts cfg = Some (show_table scripts)
    /\ In ("firstCard", Lines (Prog.firstCard cfg)) scripts
    /\ In ("secondCard", Lines (Prog.secondCard cfg)) scripts
    /\ In ("r", Lines (Prog.repeat_script cfg)) scripts
    /\ (st "card1" = Z.of_nat c ->
        fire st (Prog.firstCard cfg) = Some (c - 1)
        /\ nth_error (Prog.firstCard cfg) (c - 1)
           = Some [Cond "card1" CEq (Num c); Jump "idle"; Play (Text.sound cfg c)])
    /\ (st "card2" = Z.of_nat c ->
        fire st (Prog.secondCard cfg) = Some (c - 1)
        /\ nth_error (Prog.secondCard cfg) (c - 1)
           = Some [Cond "card2" CEq (Num c);
                   Cmd "sum" ASet (Reg "card1"); Cmd "sum" AAdd (Reg "card2");
                   Cmd "card1" ASet (Num 0); Cmd "card2" ASet (Num 0);
                   Jump "test"; Play (Text.sound cfg c)])
    /\ (st "busy" = 0%Z -> st "remaining" <> 0%Z -> st "lastCard" = Z.of_nat c ->
        fire st (Prog.repeat_script cfg) = Some c
        /\ nth_error (Prog.repeat_script cfg) c
           = Some [Cond "busy" CEq (Num 0); Cond "lastCard" CEq (Num c);
                   Cmd "busy" ASet (Num 1); Jump "idle"; Play (Text.sound cfg c)]).
Proof.
  intros Hc.
  assert (Hnth : forall (f : nat -> line),
            nth_error (map f (range 1 (Text.numCards cfg + 1))) (c - 1) = Some (f c)).
  { intros f. rewrite nth_error_map, nth_error_range.
    replace (c - 1 <? Text.numCards cfg + 1 - 1)%nat with true
      by (symmetry; apply Nat.ltb_lt; lia).
    cbn [option_map]. replace (1 + (c - 1)) with c by lia. reflexivity. }
  destruct (program_exists cfg) as (scripts & E & Et).
  exists scripts. split; [exact E|]. split; [exact Et|].
  split.
  { apply (base_script_in cfg scripts _ _ E). unfold Prog.base_scripts.
    rewrite !in_app_iff. do 5 right. cbn. tauto. }
  split.
  { apply (base_script_in cfg scripts _ _ E). unfold Prog.base_scripts.
    rewrite !in_app_iff. do 5 right. cbn. tauto. }
  split.
  { apply (base_script_in cfg scripts _ _ E). unfold Prog.base_scripts.
    rewrite !in_app_iff. do 2 right. left. cbn. tauto. }
  split; [|split].
  - intros H1. split; [|apply Hnth]. unfold Prog.firstCard, range.
    apply fire_select; [lia| |].
    + now rewrite enabled_eq_num, H1, Z.eqb_refl.
    + intros p Hp. rewrite enabled_eq_num, H1.
      destruct (Z.eqb_spec (Z.of_nat c) (Z.of_nat p)); [lia|reflexivity].
  - intros H2. split; [|apply Hnth]. unfold Prog.secondCard, range.
    apply fire_select; [lia| |].
    + now rewrite enabled_eq_num, H2, Z.eqb_refl.
    + intros p Hp. rewrite enabled_eq_num, H2.
      destruct (Z.eqb_spec (Z.of_nat c) (Z.of_nat p)); [lia|reflexivity].
  - intros Hb Hr Hl. unfold Prog.repeat_script. split.
    + cbn [app fire]. rewrite !enabled_eq_num, Hb. change (Z.of_nat 0) with 0%Z.
      destruct (Z.eqb_spec (st "remaining") 0) as [|_]; [contradiction|].
      cbn [andb Z.eqb]. unfold range.
      rewrite (fire_select st _ 1 (Text.numCards cfg + 1 - 1) c).
      * cbn [option_map]. f_equal. lia.
      * lia.
      * rewrite !enabled_eq_num, Hb, Hl, !Z.eqb_refl. reflexivity.
      * intros p Hp. rewrite !enabled_eq_num, Hb, Hl.
        destruct (Z.eqb_spec (Z.of_nat c) (Z.of_nat p)); [lia|reflexivity].
    + destruct c as [|c]; [lia|]. cbn [app nth_error].
      replace c with (S c - 1) at 1 by lia. apply Hnth.
Qed.

(** The theorem in a game of [two_pairs]: card 3 turned first is read out
    by line 2 of [firstCard] and repeated by line 3 of [r]; card 2 turned
    second is read out by line 1 of [secondCard]. Both cards are [dog]. *)
Lemma card_narration_witness :
  (1 <= 3 <= Text.numCards two_pairs
   /\ card_turned "card1" = 3%Z
   /\ fire card_turned (Prog.firstCard two_pairs) = Some 2
   /\ nth_error (Prog.firstCard two_pairs) 2
      = Some [Cond "card1" CEq (Num 3); Jump "idle"; Play "dog"])
  /\ (1 <= 2 <= Text.numCards two_pairs
      /\ pair_turned "card2" = 2%Z
      /\ fire pair_turned (Prog.secondCard two_pairs) = Some 1
      /\ nth_error (Prog.secondCard two_pairs) 1
         = Some [Cond "card2" CEq (Num 2);
                 Cmd "sum" ASet (Reg "card1"); Cmd "sum" AAdd (Reg "card2");
                 Cmd "card1" ASet (Num 0); Cmd "card2" ASet (Num 0);
                 Jump "test"; Play "dog"])
  /\ (card_turned "busy" = 0%Z /\ card_turned "remaining" <> 0%Z
      /\ card_turned "lastCard" = 3%Z
      /\ fire card_turned (Prog.repeat_script two_pairs) = Some 3
      /\ nth_error (Prog.repeat_script two_pairs) 3
         = Some [Cond "busy" CEq (Num 0); Cond "lastCard" CEq (Num 3);
                 Cmd "busy" ASet (Num 1); Jump "idle"; Play "dog"]).
Proof.
  split; [|split].
  - split; [cbn; lia|]. split; [reflexivity|].
    destruct (card_narration two_pairs card_turned 3 ltac:(cbn; lia))
      as (scripts & _ & _ & _ & _ & _ & H & _ & _).
    exact (H eq_refl).
  - split; [cbn; lia|]. split; [reflexivity|].
    destruct (card_narration two_pairs pair_turned 2 ltac:(cbn; lia))
      as (scripts & _ & _ & _ & _ & _ & _ & H & _).
    exact (H eq_refl).
  - split; [reflexivity|]. split; [discriminate|]. split; [reflexivity|].
    destruct (card_narration two_pairs card_turned 3 ltac:(cbn; lia))
      as (scripts & _ & _ & _ & _ & _ & _ & _ & H).
    exact (H eq_refl ltac:(discriminate) eq_refl).
Defined.

(** X9: how a player field reacts, in full: before the game it sets the
    number of players and starts the shuffle; during the game it is silent
    while [busy] is set, and otherwise tells a player that does not take
    part so, or tells the number of pairs of the player. *)
Theorem player_script_reaction cfg p (st : store) :
  1 <= p <= players cfg ->
  exists scripts,
    Prog.scripts cfg = Some scripts
    /\ Text.scripts cfg = Some (show_table scripts)
    /\ In ("p" +:+ dec p, Lines (Prog.player_script cfg p)) scripts
    /\ fire st (Prog.player_script cfg p)
       = if (st "players" =? 0)%Z then Some 0
         else if negb (st "busy" =? 0)%Z then None
         else if (st "players" <? Z.of_nat p)%Z then Some 1
         else if (0 <=? st ("pairs" +:+ dec p))%Z
                 && (st ("pairs" +:+ dec p) <=? Z.of_nat (Text.numPairs cfg))%Z
              then Some (2 + Z.to_nat (st ("pairs" +:+ dec p)))
              else None.
Proof.
  intros Hp. destruct (program_exists cfg) as (scripts & E & Et).
  exists scripts. split; [exact E|]. split; [exact Et|]. split.
  - apply (base_script_in cfg scripts _ _ E). unfold Prog.base_scripts.
    rewrite !in_app_iff. right. left. apply in_map_iff. exists p.
    split; [reflexivity|]. apply in_range. lia.
  - unfold Prog.player_script. cbn [app fire]. rewrite !enabled_eq_num.
    unfold enabled at 1 2. cbn [forallb holds eval_cmp eval_operand Num].
    rewrite ?lit_value_dec. change (Z.of_nat 0) with 0%Z. rewrite ?andb_true_r.
    destruct (st "players" =? 0)%Z; [reflexivity|].
    destruct (Z.eqb_spec (st "busy") 0) as [Hb|Hb]; cbn [andb negb].
    + destruct (st "players" <? Z.of_nat p)%Z; [reflexivity|]. cbn [option_map].
      set (v := st ("pairs" +:+ dec p)).
      destruct (Z.leb_spec 0 v) as [H0|H0]; cbn [andb].
      * destruct (Z.leb_spec v (Z.of_nat (Text.numPairs cfg))) as [H1|H1].
        -- unfold range. rewrite (fire_select st _ 0 (Text.numPairs cfg + 1 - 0) (Z.to_nat v)).
           ++ cbn [option_map]. f_equal. lia.
           ++ lia.
           ++ rewrite !enabled_eq_num, Hb. fold v. rewrite Z2Nat.id by lia.
              change (Z.of_nat 0) with 0%Z. rewrite !Z.eqb_refl. reflexivity.
           ++ intros q Hq. rewrite !enabled_eq_num, Hb. fold v.
              destruct (Z.eqb_spec v (Z.of_nat q)); [lia|reflexivity].
        -- rewrite fire_none; [reflexivity|].
           apply List.Forall_map, List.Forall_forall. intros q Hq%in_range.
           rewrite !enabled_eq_num, Hb. fold v.
           destruct (Z.eqb_spec v (Z.of_nat q)); [lia|reflexivity].
      * rewrite fire_none; [reflexivity|].
        apply List.Forall_map, List.Forall_forall. intros q Hq%in_range.
        rewrite !enabled_eq_num, Hb. fold v.
        destruct (Z.eqb_spec v (Z.of_nat q)); [lia|reflexivity].
    + rewrite fire_none; [reflexivity|].
      apply List.Forall_map, List.Forall_forall. intros q Hq%in_range.
      rewrite !enabled_eq_num. change (Z.of_nat 0) with 0%Z.
      destruct (Z.eqb_spec (st "busy") 0); [contradiction|reflexivity].
Qed.

Lemma player_script_reaction_witness :
  1 <= 2 <= players two_pairs
  /\ exists scripts,
       Prog.scripts two_pairs = Some scripts
       /\ Text.scripts two_pairs = Some (show_table scripts)
       /\ In ("p" +:+ dec 2, Lines (Prog.player_script two_pairs 2)) scripts
       /\ fire busy_store (Prog.player_script two_pairs 2)
          = if (busy_store "players" =? 0)%Z then Some 0
            else if negb (busy_store "busy" =? 0)%Z then None
            else if (busy_store "players" <? Z.of_nat 2)%Z then Some 1
            else if (0 <=? busy_store ("pairs" +:+ dec 2))%Z
                    && (busy_store ("pairs" +:+ dec 2)
                        <=? Z.of_nat (Text.numPairs two_pairs))%Z
                 then Some (2 + Z.to_nat (busy_store ("pairs" +:+ dec 2)))
                 else None.
Proof.
  split; [cbn; lia|]. apply (player_script_reaction two_pairs 2 busy_store). cbn. lia.
Defined.

(** X11: after two cards that do not match, the turn passes on in a circle
    over the players that take part, whatever the number of player fields:
    the line that fires announces player 1 after the last player and the
    next player otherwise. *)
Theorem turn_passes cfg (st : store) k np :
  1 <= k <= np -> np <= players cfg ->
  st "player" = Z.of_nat k -> st "players" = Z.of_nat np ->
  st "sum" <> Z.of_nat (Text.numCards cfg + 1) ->
  exists scripts i,
    Prog.scripts cfg = Some scripts
    /\ Text.scripts cfg = Some (show_table scripts)
    /\ In ("test", Lines (Prog.test cfg)) scripts
    /\ fire st (Prog.test cfg) = Some i
    /\ nth_error (Prog.test cfg) i = Some (turn_pass_line cfg k np).
Proof.
  intros Hk Hnp Hplayer Hplayers Hsum.
  destruct (program_exists cfg) as (scripts & E & Et).
  exists scripts, (players cfg + if (k =? np)%nat then 0 else k).
  split; [exact E|]. split; [exact Et|]. split.
  { apply (base_script_in cfg scripts _ _ E). unfold Prog.base_scripts.
    rewrite !in_app_iff. do 5 right. cbn. tauto. }
  unfold Prog.test.
  assert (Hlen : length (map (Prog.match_line cfg) (range 1 (players cfg + 1)))
                 = players cfg).
  { unfold range. rewrite length_map, length_seq. lia. }
  split.
  - rewrite fire_app, fire_none.
    2: { apply List.Forall_map, List.Forall_forall. intros p _.
         destruct (enabled st (Prog.match_line cfg p)) eqn:Ee; [|reflexivity].
         apply match_line_enabled in Ee as [Hs _]. contradiction. }
    rewrite Hlen. cbn [app fire].
    unfold enabled at 1. cbn [forallb holds eval_cmp eval_operand].
    rewrite Hplayer, Hplayers, andb_true_r.
    destruct (Nat.eqb_spec k np) as [->|Hne].
    + rewrite Z.eqb_refl. reflexivity.
    + destruct (Z.eqb_spec (Z.of_nat k) (Z.of_nat np)) as [Heq|_]; [lia|].
      unfold range. rewrite (fire_select st _ 1 (players cfg - 1) k).
      * cbn [option_map]. f_equal. lia.
      * lia.
      * rewrite enabled_eq_num, Hplayer, Z.eqb_refl. reflexivity.
      * intros p Hp. rewrite enabled_eq_num, Hplayer.
        destruct (Z.eqb_spec (Z.of_nat k) (Z.of_nat p)); [lia|reflexivity].
  - rewrite nth_error_app2 by lia. rewrite Hlen. unfold turn_pass_line.
    destruct (Nat.eqb_spec k np) as [->|Hne].
    + replace (players cfg + 0 - players cfg) with 0 by lia. reflexivity.
    + replace (players cfg + k - players cfg) with (S (k - 1)) by lia.
      cbn [app nth_error]. rewrite nth_error_map, nth_error_range.
      replace (k - 1 <? players cfg - 1)%nat with true by (symmetry; apply Nat.ltb_lt; lia).
      cbn [option_map]. replace (1 + (k - 1)) with k by lia. reflexivity.
Qed.

Lemma turn_passes_witness :
  1 <= 2 <= 2 /\ 2 <= players three_players
  /\ second_turn "player" = Z.of_nat 2 /\ second_turn "players" = Z.of_nat 2
  /\ second_turn "sum" <> Z.of_nat (Text.numCards three_players + 1)
  /\ exists scripts i,
       Prog.scripts three_players = Some scripts
       /\ Text.scripts three_players = Some (show_table scripts)
       /\ In ("test", Lines (Prog.test three_players)) scripts
       /\ fire second_turn (Prog.test three_players) = Some i
       /\ nth_error (Prog.test three_players) i
          = Some (turn_pass_line three_players 2 2).
Proof.
  split; [lia|]. split; [cbn; lia|]. split; [reflexivity|]. split; [reflexivity|].
  split; [discriminate|].
  apply (turn_passes three_players second_turn 2 2);
    [lia | cbn; lia | reflexivity | reflexivity | discriminate].
Defined.

Lemma shuffle_line_enabled cfg (st : store) pos1 pos2 :
  enabled st (Prog.shuffle_line cfg pos1 pos2)
  = (st "pos" =? Z.of_nat (pos2 - pos1))%Z.
Proof.
  unfold Prog.shuffle_line, Prog.swap_slots, Prog.start_game, Prog.draw.
  destruct (pos1 =? pos2)%nat, (pos1 =? Text.numCards cfg - 2)%nat;
    cbn [app]; rewrite enabled_eq_num; cbn; now rewrite andb_true_r.
Qed.

(** X12: a step of the shuffle exchanges the card at its position with the
    card [$pos] places further on: in the state for position [pos1], once
    [$rnd] is large enough for the guard to let pass, the line that fires is
    the line for the slot [pos1 + $pos]; it swaps the two slots unless they
    are the same slot, and either draws the next offset and goes on to the
    next state or, in the last state, starts the game. *)
Theorem shuffle_step_selects cfg (st : store) pos1 pos2 :
  pos1 + 1 < Text.numCards cfg -> pos1 <= pos2 < Text.numCards cfg ->
  st "pos" = Z.of_nat (pos2 - pos1) ->
  (pos1 + 2 < Text.numCards cfg ->
   (Z.of_nat (10 * (Text.numCards cfg - pos1 - 1)) <= st "rnd")%Z) ->
  exists scripts i,
    Prog.scripts cfg = Some scripts
    /\ Text.scripts cfg = Some (show_table scripts)
    /\ In ("shuffle" +:+ dec pos1, Lines (Prog.shuffle_state cfg pos1)) scripts
    /\ fire st (Prog.shuffle_state cfg pos1) = Some i
    /\ nth_error (Prog.shuffle_state cfg pos1) i
       = Some ([Cond "pos" CEq (Num (pos2 - pos1))]
               ++ (if (pos1 =? pos2)%nat then [] else Prog.swap_slots pos1 pos2)
               ++ (if (pos1 =? Text.numCards cfg - 2)%nat then Prog.start_game cfg
                   else Prog.draw (Text.numCards cfg - pos1 - 1)
                        ++ [Jump ("shuffle" +:+ dec (pos1 + 1)); Play "nop"])).
Proof.
  intros Hpos1 Hpos2 Hpos Hrnd.
  destruct (program_exists cfg) as (scripts & E & Et).
  set (g := if (pos1 <? Text.numCards cfg - 2)%nat then 1 else 0).
  exists scripts, (g + (pos2 - pos1)).
  split; [exact E|]. split; [exact Et|]. split.
  { apply (base_script_in cfg scripts _ _ E). unfold Prog.base_scripts.
    rewrite !in_app_iff. do 3 right. left. apply in_map_iff. exists pos1.
    split; [reflexivity|]. apply in_range. lia. }
  assert (Hline : Prog.shuffle_line cfg pos1 pos2
                  = [Cond "pos" CEq (Num (pos2 - pos1))]
                    ++ (if (pos1 =? pos2)%nat then [] else Prog.swap_slots pos1 pos2)
                    ++ (if (pos1 =? Text.numCards cfg - 2)%nat then Prog.start_game cfg
                        else Prog.draw (Text.numCards cfg - pos1 - 1)
                             ++ [Jump ("shuffle" +:+ dec (pos1 + 1)); Play "nop"])).
  { unfold Prog.shuffle_line.
    destruct (pos1 =? pos2)%nat, (pos1 =? Text.numCards cfg - 2)%nat;
      cbn [app]; now rewrite <- ?app_assoc. }
  rewrite <- Hline. unfold Prog.shuffle_state. fold g.
  assert (Hsel : fire st (map (Prog.shuffle_line cfg pos1) (range pos1 (Text.numCards cfg)))
                 = Some (pos2 - pos1)).
  { unfold range. apply fire_select; [lia| |].
    - now rewrite shuffle_line_enabled, Hpos, Z.eqb_refl.
    - intros p Hp. rewrite shuffle_line_enabled, Hpos.
      destruct (Z.eqb_spec (Z.of_nat (pos2 - pos1)) (Z.of_nat (p - pos1))); [lia|reflexivity]. }
  assert (Hnth : nth_error (map (Prog.shuffle_line cfg pos1) (range pos1 (Text.numCards cfg)))
                   (pos2 - pos1) = Some (Prog.shuffle_line cfg pos1 pos2)).
  { rewrite nth_error_map, nth_error_range.
    replace (pos2 - pos1 <? Text.numCards cfg - pos1)%nat with true
      by (symmetry; apply Nat.ltb_lt; lia).
    cbn [option_map]. replace (pos1 + (pos2 - pos1)) with pos2 by lia. reflexivity. }
  subst g. destruct (Nat.ltb_spec pos1 (Text.numCards cfg - 2)) as [Hlt|_];
    cbn [app Nat.add].
  - specialize (Hrnd ltac:(lia)). split; [|exact Hnth]. cbn [fire].
    unfold Prog.shuffle_guard. cbn [app]. unfold enabled at 1.
    cbn [forallb holds eval_cmp eval_operand Num]. rewrite lit_value_dec.
    destruct (Z.ltb_spec (st "rnd") (Z.of_nat (10 * (Text.numCards cfg - pos1 - 1))));
      [lia|]. cbn [andb]. now rewrite Hsel.
  - split; [exact Hsel|exact Hnth].
Qed.

Lemma shuffle_step_selects_witness :
  0 + 1 < Text.numCards two_pairs /\ 0 <= 2 < Text.numCards two_pairs
  /\ first_draw "pos" = Z.of_nat (2 - 0)
  /\ (0 + 2 < Text.numCards two_pairs ->
      (Z.of_nat (10 * (Text.numCards two_pairs - 0 - 1)) <= first_draw "rnd")%Z)
  /\ exists scripts i,
       Prog.scripts two_pairs = Some scripts
       /\ Text.scripts two_pairs = Some (show_table scripts)
       /\ In ("shuffle" +:+ dec 0, Lines (Prog.shuffle_state two_pairs 0)) scripts
       /\ fire first_draw (Prog.shuffle_state two_pairs 0) = Some i
       /\ nth_error (Prog.shuffle_state two_pairs 0) i
          = Some ([Cond "pos" CEq (Num (2 - 0))]
                  ++ (if (0 =? 2)%nat then [] else Prog.swap_slots 0 2)
                  ++ (if (0 =? Text.numCards two_pairs - 2)%nat
                      then Prog.start_game two_pairs
                      else Prog.draw (Text.numCards two_pairs - 0 - 1)
                           ++ [Jump ("shuffle" +:+ dec (0 + 1)); Play "nop"])).
Proof.
  split; [cbn; lia|]. split; [cbn; lia|]. split; [reflexivity|].
  split; [intros _; vm_compute; discriminate|].
  apply (shuffle_step_selects two_pairs first_draw 0 2);
    [cbn; lia | cbn; lia | reflexivity | intros _; vm_compute; discriminate].
Defined.

(** X21: what the query field tells before the end of the game. The script
    [q] of the generated program fires no line while [busy] is set; with no
    player set it fires its first line, which plays the not-started
    narration; and else, while pairs remain and it is the turn of player p,
    it fires line p, which plays the narration of player p. *)
Theorem question_before_the_end cfg (st : store) :
  exists scripts,
    Prog.scripts cfg = Some scripts
    /\ Text.scripts cfg = Some (show_table scripts)
    /\ In ("q", Lines (Prog.question cfg)) scripts
    /\ (st "busy" <> 0%Z -> fire st (Prog.question cfg) = None)
    /\ (st "busy" = 0%Z -> st "players" = 0%Z ->
        fire st (Prog.question cfg) = Some 0
        /\ nth_error (Prog.question cfg) 0
           = Some [Cond "busy" CEq (Num 0); Cond "players" CEq (Num 0);
                   Cmd "busy" ASet (Num 1); Jump "idle";
                   Play (lang cfg +:+ "_not_started")])
    /\ (forall p,
          1 <= p <= players cfg ->
          st "busy" = 0%Z -> st "players" <> 0%Z -> (0 < st "remaining")%Z ->
          st "player" = Z.of_nat p ->
          fire st (Prog.question cfg) = Some p
          /\ nth_error (Prog.question cfg) p
             = Some [Cond "busy" CEq (Num 0); Cond "remaining" CGt (Num 0);
                     Cond "player" CEq (Num p); Cmd "busy" ASet (Num 1);
                     Jump "idle"; Play (lang cfg +:+ "_player" +:+ dec p)]).
Proof.
  destruct (program_exists cfg) as (scripts & E & Et).
  exists scripts. split; [exact E|]. split; [exact Et|]. split.
  { apply (base_script_in cfg scripts _ _ E). unfold Prog.base_scripts.
    rewrite !in_app_iff. do 2 right. left. now left. }
  split; [|split].
  - intros Hb. apply fire_none. unfold Prog.question, Prog.not_started_line,
      Prog.turn_line, Prog.winner_line, Prog.draw_line.
    each_line; try rewrite compare_tokens; cbn [app]; rewrite enabled_eq_num;
      change (Z.of_nat 0) with 0%Z;
      (destruct (Z.eqb_spec (st "busy") 0); [contradiction|reflexivity]).
  - intros Hb Hp. split; [|reflexivity]. unfold Prog.question. cbn [app fire].
    unfold Prog.not_started_line. rewrite !enabled_eq_num, Hb, Hp. reflexivity.
  - intros p Hin Hb Hp Hr Hpl. split.
    + unfold Prog.question. cbn [app fire].
      unfold Prog.not_started_line at 1. rewrite !enabled_eq_num, Hb.
      change (Z.of_nat 0) with 0%Z.
      destruct (Z.eqb_spec (st "players") 0) as [|_]; [contradiction|].
      cbn [andb Z.eqb]. rewrite fire_app. unfold range.
      rewrite (fire_select st _ 1 (players cfg + 1 - 1) p).
      * cbn [option_map]. f_equal. lia.
      * lia.
      * unfold Prog.turn_line. rewrite enabled_eq_num, Hb. unfold enabled.
        cbn [forallb holds eval_cmp eval_operand Num]. rewrite !lit_value_dec, Hpl.
        change (Z.of_nat 0) with 0%Z. rewrite !Z.eqb_refl.
        destruct (Z.ltb_spec 0 (st "remaining")); [reflexivity|lia].
      * intros q Hq. unfold Prog.turn_line. rewrite enabled_eq_num, Hb. unfold enabled.
        cbn [forallb holds eval_cmp eval_operand Num]. rewrite !lit_value_dec, Hpl.
        destruct (Z.eqb_spec (Z.of_nat p) (Z.of_nat q)); [lia|].
        now rewrite andb_false_r.
    + rewrite question_nth.
      destruct (Nat.eqb_spec p 0); [lia|].
      destruct (Nat.leb_spec p (players cfg)); [reflexivity|lia].
Qed.

(** The theorem in a game of [two_pairs]: no line while a script runs, the
    first line before any player is set, line 1 in the turn of player 1. *)
Lemma question_before_the_end_witness :
  (busy_store "busy" <> 0%Z
   /\ fire busy_store (Prog.question two_pairs) = None)
  /\ (store_of [] "busy" = 0%Z /\ store_of [] "players" = 0%Z
      /\ fire (store_of []) (Prog.question two_pairs) = Some 0
      /\ nth_error (Prog.question two_pairs) 0
         = Some [Cond "busy" CEq (Num 0); Cond "players" CEq (Num 0);
                 Cmd "busy" ASet (Num 1); Jump "idle"; Play "en_not_started"])
  /\ (1 <= 1 <= players two_pairs
      /\ card_turned "busy" = 0%Z /\ card_turned "players" <> 0%Z
      /\ (0 < card_turned "remaining")%Z /\ card_turned "player" = 1%Z
      /\ fire card_turned (Prog.question two_pairs) = Some 1
      /\ nth_error (Prog.question two_pairs) 1
         = Some [Cond "busy" CEq (Num 0); Cond "remaining" CGt (Num 0);
                 Cond "player" CEq (Num 1); Cmd "busy" ASet (Num 1);
                 Jump "idle"; Play "en_player1"]).
Proof.
  split; [|split].
  - split; [discriminate|].
    destruct (question_before_the_end two_pairs busy_store)
      as (scripts & _ & _ & _ & H & _ & _).
    exact (H ltac:(discriminate)).
  - split; [reflexivity|]. split; [reflexivity|].
    destruct (question_before_the_end two_pairs (store_of []))
      as (scripts & _ & _ & _ & _ & H & _).
    exact (H eq_refl eq_refl).
  - split; [cbn; lia|]. split; [reflexivity|]. split; [discriminate|].
    split; [reflexivity|]. split; [reflexivity|].
    destruct (question_before_the_end two_pairs card_turned)
      as (scripts & _ & _ & _ & _ & _ & H).
    exact (H 1 ltac:(cbn; lia) eq_refl ltac:(discriminate) eq_refl eq_refl).
Defined.

(** X22: the cards of a found pair leave the board. Once the pair is
    counted, the script [clear1] of the generated program empties the slot
    of the first card and goes on with [clear2], which empties the slot of
    the second card; unless no pair remains, when [clear1] clears [busy],
    tells the end of the game and goes on with [q], and the last two cards
    stay. *)
Theorem found_pair_removed cfg (st : store) c :
  c < Text.numCards cfg ->
  exists scripts,
    Prog.scripts cfg = Some scripts
    /\ Text.scripts cfg = Some (show_table scripts)
    /\ In ("clear1", Lines (Prog.clear1 cfg)) scripts
    /\ In ("clear2", Lines (Prog.clear2 cfg)) scripts
    /\ (st "remaining" = 0%Z ->
        fire st (Prog.clear1 cfg) = Some 0
        /\ nth_error (Prog.clear1 cfg) 0
           = Some [Cond "remaining" CEq (Num 0); Cmd "busy" ASet (Num 0);
                   Jump "q"; Play (lang cfg +:+ "_finished")])
    /\ (st "remaining" <> 0%Z -> st "pos1" = Z.of_nat c ->
        fire st (Prog.clear1 cfg) = Some (c + 1)
        /\ nth_error (Prog.clear1 cfg) (c + 1)
           = Some [Cond "pos1" CEq (Num c); Cmd ("c" +:+ dec c) ASet (Num 0);
                   Cmd "pos1" ASet (Num 0); Jump "clear2"; Play "nop"])
    /\ (st "pos2" = Z.of_nat c ->
        fire st (Prog.clear2 cfg) = Some c
        /\ nth_error (Prog.clear2 cfg) c
           = Some [Cond "pos2" CEq (Num c); Cmd ("c" +:+ dec c) ASet (Num 0);
                   Cmd "pos2" ASet (Num 0); Jump "idle";
                   Play (lang cfg +:+ "_continue")]).
Proof.
  intros Hc.
  assert (Hnth : forall (f : nat -> line),
            nth_error (map f (range 0 (Text.numCards cfg))) c = Some (f c)).
  { intros f. rewrite nth_error_map, nth_error_range.
    replace (c <? Text.numCards cfg - 0)%nat with true by (symmetry; apply Nat.ltb_lt; lia).
    reflexivity. }
  destruct (program_exists cfg) as (scripts & E & Et).
  exists scripts. split; [exact E|]. split; [exact Et|].
  split.
  { apply (base_script_in cfg scripts _ _ E). unfold Prog.base_scripts.
    rewrite !in_app_iff. do 5 right. cbn. tauto. }
  split.
  { apply (base_script_in cfg scripts _ _ E). unfold Prog.base_scripts.
    rewrite !in_app_iff. do 5 right. cbn. tauto. }
  split; [|split].
  - intros Hr. split; [|reflexivity]. unfold Prog.clear1, Prog.finished_line.
    cbn [app fire]. now rewrite enabled_eq_num, Hr.
  - intros Hr Hp. split.
    + unfold Prog.clear1, Prog.finished_line. cbn [app fire].
      rewrite enabled_eq_num. change (Z.of_nat 0) with 0%Z.
      destruct (Z.eqb_spec (st "remaining") 0) as [|_]; [contradiction|].
      cbn [andb]. unfold range.
      rewrite (fire_select st _ 0 (Text.numCards cfg - 0) c).
      * cbn [option_map]. f_equal. lia.
      * lia.
      * now rewrite enabled_eq_num, Hp, Z.eqb_refl.
      * intros q Hq. rewrite enabled_eq_num, Hp.
        destruct (Z.eqb_spec (Z.of_nat c) (Z.of_nat q)); [lia|reflexivity].
    + unfold Prog.clear1. replace (c + 1) with (S c) by lia. cbn [app nth_error].
      apply Hnth.
  - intros Hp. split; [|apply Hnth]. unfold Prog.clear2, range.
    rewrite (fire_select st _ 0 (Text.numCards cfg - 0) c).
    + f_equal. lia.
    + lia.
    + now rewrite enabled_eq_num, Hp, Z.eqb_refl.
    + intros q Hq. rewrite enabled_eq_num, Hp.
      destruct (Z.eqb_spec (Z.of_nat c) (Z.of_nat q)); [lia|reflexivity].
Qed.

(** The theorem in a game of [two_pairs]: after the last pair the first
    line of [clear1] ends the game; after the first pair, found on the
    slots 2 and 1, line 3 of [clear1] empties slot 2 and line 1 of [clear2]
    empties slot 1. *)
Lemma found_pair_removed_witness :
  (0 < Text.numCards two_pairs
   /\ last_pair_found "remaining" = 0%Z
   /\ fire last_pair_found (Prog.clear1 two_pairs) = Some 0
   /\ nth_error (Prog.clear1 two_pairs) 0
      = Some [Cond "remaining" CEq (Num 0); Cmd "busy" ASet (Num 0);
              Jump "q"; Play "en_finished"])
  /\ (2 < Text.numCards two_pairs
      /\ pair_found "remaining" <> 0%Z /\ pair_found "pos1" = 2%Z
      /\ fire pair_found (Prog.clear1 two_pairs) = Some 3
      /\ nth_error (Prog.clear1 two_pairs) 3
         = Some [Cond "pos1" CEq (Num 2); Cmd "c2" ASet (Num 0);
                 Cmd "pos1" ASet (Num 0); Jump "clear2"; Play "nop"])
  /\ (1 < Text.numCards two_pairs
      /\ pair_found "pos2" = 1%Z
      /\ fire pair_found (Prog.clear2 two_pairs) = Some 1
      /\ nth_error (Prog.clear2 two_pairs) 1
         = Some [Cond "pos2" CEq (Num 1); Cmd "c1" ASet (Num 0);
                 Cmd "pos2" ASet (Num 0); Jump "idle"; Play "en_continue"]).
Proof.
  split; [|split].
  - split; [cbn; lia|]. split; [reflexivity|].
    destruct (found_pair_removed two_pairs last_pair_found 0 ltac:(cbn; lia))
      as (scripts & _ & _ & _ & _ & H & _ & _).
    exact (H eq_refl).
  - split; [cbn; lia|]. split; [discriminate|]. split; [reflexivity|].
    destruct (found_pair_removed two_pairs pair_found 2 ltac:(cbn; lia))
      as (scripts & _ & _ & _ & _ & _ & H & _).
    exact (H ltac:(discriminate) eq_refl).
  - split; [cbn; lia|]. split; [reflexivity|].
    destruct (found_pair_removed two_pairs pair_found 1 ltac:(cbn; lia))
      as (scripts & _ & _ & _ & _ & _ & _ & H).
    exact (H eq_refl).
Defined.

(** ** The fields of the board *)

Lemma header_range players :
  range 0 (players + 3) = [0] ++ seq 1 players ++ [players + 1; players + 2].
Proof.
  unfold range. rewrite Nat.sub_0_r.
  replace (players + 3) with (1 + (players + 2)) by lia.
  rewrite (seq_app 1 (players + 2) 0). change (seq 0 1) with [0]. f_equal.
  change (0 + 1) with 1. rewrite (seq_app players 2 1). f_equal.
  cbn [seq]. replace (1 + players) with (players + 1) by lia.
  replace (S (players + 1)) with (players + 2) by lia. reflexivity.
Qed.

(** The header row shows the product id, the player fields 1 to
    [players], the query field and the repeat field, in this order. *)
Lemma card_row_eq (h : nat -> oid) a n cols :
  flat_map (fun c => if (c + a <? n)%nat then [h (a + c)] else []) (seq 0 cols)
  = map h (seq a (Nat.min cols (n - a))).
Proof.
  induction cols as [|k IH]; [reflexivity|].
  rewrite seq_S, flat_map_app, IH. cbn [Nat.add flat_map app].
  destruct (Nat.ltb_spec (k + a) n).
  - replace (Nat.min k (n - a)) with k by lia.
    replace (Nat.min (S k) (n - a)) with (S k) by lia.
    now rewrite seq_S, map_app.
  - replace (Nat.min (S k) (n - a)) with (Nat.min k (n - a)) by lia.
    now rewrite !app_nil_r.
Qed.

(** The fields of the header row and the card fields, by name. *)
Lemma header_oids_in players name :
  In (ScriptOid name) (header_oids players) ->
  name = "q" \/ name = "r" \/ exists p, 1 <= p <= players /\ name = "p" +:+ dec p.
Proof.
  unfold header_oids. intros (c & E & _)%in_map_iff.
  destruct (Nat.eqb_spec c 0); [discriminate E|].
  destruct (Nat.leb_spec c players).
  - injection E as <-. right. right. exists c. split; [lia|reflexivity].
  - destruct (c =? players + 1)%nat; injection E as <-; auto.
Qed.

Lemma card_oids_in rows cols numCards name :
  In (ScriptOid name) (card_oids rows cols numCards) ->
  exists c, c < numCards /\ name = "c" +:+ dec c.
Proof.
  unfold card_oids. intros (r & _ & H)%in_flat_map.
  apply in_flat_map in H as (c & _ & H).
  destruct (Nat.ltb_spec (c + r * cols) numCards); [|destruct H].
  destruct H as [[= <-]|[]]. exists (r * cols + c). split; [lia|reflexivity].
Qed.

(** X16: the fields that the board shows. The header row holds the product
    id, the player fields 1 to [players], the query field and the repeat
    field, in this order; the card fields are the first [min (rows * cols)
    numCards] cards, each once and in order, whatever the layout. *)
Theorem board_fields players rows cols numCards :
  header_oids players
  = [ProductOid]
    ++ map (fun p => ScriptOid ("p" +:+ dec p)) (range 1 (players + 1))
    ++ [ScriptOid "q"; ScriptOid "r"]
  /\ card_oids rows cols numCards
     = map (fun c => ScriptOid ("c" +:+ dec c)) (range 0 (Nat.min (rows * cols) numCards)).
Proof.
  split.
  - unfold header_oids. rewrite header_range, !map_app. cbn [map Nat.eqb]. f_equal.
    unfold range. replace (players + 1 - 1) with players by lia. f_equal.
    + apply map_ext_in. intros c Hc%in_seq.
      destruct c as [|c]; [lia|]. cbn [Nat.eqb].
      destruct (Nat.leb_spec (S c) players); [reflexivity|lia].
    + assert (forall c, players < c -> (c <=? players)%nat = false) as Hgt
        by (intros; apply Nat.leb_gt; lia).
      rewrite !Hgt by lia. rewrite Nat.eqb_refl.
      destruct (Nat.eqb_spec (players + 1) 0); [lia|].
      destruct (Nat.eqb_spec (players + 2) 0); [lia|].
      destruct (Nat.eqb_spec (players + 2) (players + 1)); [lia|reflexivity].
  - unfold card_oids, range. rewrite !Nat.sub_0_r.
    induction rows as [|r IH]; [reflexivity|].
    rewrite seq_S, flat_map_app, IH. cbn [Nat.add flat_map].
    rewrite app_nil_r.
    rewrite (card_row_eq (fun c => ScriptOid ("c" +:+ dec c)) (r * cols) numCards cols).
    rewrite <- map_app. f_equal.
    destruct (Nat.le_gt_cases (r * cols) numCards).
    + replace (Nat.min (r * cols) numCards) with (r * cols) by lia.
      replace (Nat.min (S r * cols) numCards)
        with (r * cols + Nat.min cols (numCards - r * cols)) by lia.
      now rewrite seq_app.
    + replace (Nat.min (r * cols) numCards) with numCards by lia.
      replace (Nat.min cols (numCards - r * cols)) with 0 by lia.
      replace (Nat.min (S r * cols) numCards) with numCards by lia.
      now rewrite app_nil_r.
Qed.

(** ** The codes of the fields and of the scripts *)

Section CodeFacts.

Variable cfg : config.
Variable scripts : table string.
Variable scriptcodes : option (gmap string Z).
Hypothesis names_nodup : NoDup (map fst scripts).

Let prior : gmap string Z := match scriptcodes with Some c => c | None => ∅ end.
Let fixed : gmap string Z := Text.fixed_codes cfg scriptcodes.
Let codes : gmap string Z := Text.assign_codes cfg scripts scriptcodes.

Lemma question_coded : is_Some (codes !! "q").
Proof.
  destruct (codes_merge_table cfg scripts scriptcodes names_nodup) as (Hk & Hq & _).
  fold prior codes in Hk, Hq. destruct (prior !! "q") eqn:E; eauto.
Qed.

Lemma repeat_coded : is_Some (codes !! "r").
Proof.
  destruct (codes_merge_table cfg scripts scriptcodes names_nodup) as (Hk & _ & Hr & _).
  fold prior codes in Hk, Hr. destruct (prior !! "r") eqn:E; eauto.
Qed.

Lemma player_coded p : 1 <= p <= players cfg -> is_Some (codes !! ("p" +:+ dec p)).
Proof.
  destruct (codes_merge_table cfg scripts scriptcodes names_nodup)
    as (Hk & _ & _ & Hp & _).
  fold prior codes in Hk, Hp. intros H. destruct (prior !! ("p" +:+ dec p)) eqn:E; eauto.
Qed.

Lemma card_coded c : c < Text.numCards cfg -> is_Some (codes !! ("c" +:+ dec c)).
Proof.
  destruct (codes_merge_table cfg scripts scriptcodes names_nodup)
    as (Hk & _ & _ & _ & Hc & _).
  fold prior codes in Hk, Hc. intros H. destruct (prior !! ("c" +:+ dec c)) eqn:E; eauto.
Qed.

(** A script without a fixed code is numbered from 4000 by its position
    among such scripts. *)
Lemma script_coded name :
  In name (map fst scripts) ->
  (exists v, fixed !! name = Some v /\ codes !! name = Some v)
  \/ (fixed !! name = None
      /\ exists i, nth_error (uncoded fixed (map fst scripts)) i = Some name
                   /\ codes !! name = Some (4000 + Z.of_nat i)%Z).
Proof.
  intros Hin. destruct (fixed !! name) as [v|] eqn:E.
  - left. exists v. split; [reflexivity|]. now apply codes_frame.
  - right. split; [reflexivity|].
    assert (In name (uncoded fixed (map fst scripts))) as Hu.
    { apply filter_In. split; [exact Hin|]. unfold lacks_code. now rewrite E. }
    apply In_nth_error in Hu as [i Hi]. exists i. split; [exact Hi|].
    now apply (codes_merge_table cfg scripts scriptcodes names_nodup).
Qed.

End CodeFacts.

(** X15: every lookup of a code that the drawing of the board makes
    succeeds, whatever the layout and whatever codes the template brings:
    the player, query, repeat and card fields have codes, and so has every
    script. *)
Theorem board_codes_found cfg scriptcodes rows cols :
  exists scripts,
    Text.scripts cfg = Some scripts
    /\ let codes := Text.assign_codes cfg scripts scriptcodes in
       (forall name, In name (map fst scripts) -> is_Some (codes !! name))
       /\ (forall name,
             In (ScriptOid name)
                (header_oids (players cfg) ++ card_oids rows cols (Text.numCards cfg)) ->
             is_Some (codes !! name)).
Proof.
  destruct (scripts_total cfg) as [scripts E]. exists scripts. split; [exact E|].
  pose proof (text_names_nodup cfg scripts E) as Hnd. cbv zeta. split.
  - intros name Hin.
    destruct (script_coded cfg scripts scriptcodes Hnd name Hin)
      as [(v & _ & ->)|(_ & i & _ & ->)]; eauto.
  - intros name Ho. apply in_app_or in Ho as [Ho|Ho].
    + apply header_oids_in in Ho as [->|[->|(p & Hp & ->)]].
      * now apply question_coded.
      * now apply repeat_coded.
      * now apply player_coded.
    + apply card_oids_in in Ho as (c & Hc & ->). now apply card_coded.
Qed.

(** With 999 player fields the code of the last one is the code of the
    first card. *)
Example code_clash_with_999_players :
  let cfg := Config ["cat"] 999 false "en" "hello" in
  Text.fixed_codes cfg None !! "p999" = Some 3000%Z
  /\ Text.fixed_codes cfg None !! "c0" = Some 3000%Z.
Proof. cbv zeta. split; vm_compute; reflexivity. Qed.

Section FreshCodes.

Variable cfg : config.
Variable scripts : table string.
Hypothesis names_nodup : NoDup (map fst scripts).

Let codes : gmap string Z := Text.assign_codes cfg scripts None.

Lemma fixed_name_class k v :
  In k (["q"; "r"]
        ++ map (fun p => "p" +:+ dec (p + 1)) (range 0 (players cfg))
        ++ map (fun c => "c" +:+ dec c) (range 0 (Text.numCards cfg))) ->
  codes !! k = Some v -> code_class cfg scripts k v.
Proof.
  destruct (codes_merge_table cfg scripts None names_nodup)
    as (_ & Hq & Hr & Hp & Hc & _).
  fold codes in Hq, Hr, Hp, Hc. intros Hin Hv. unfold code_class.
  cbn [app] in Hin. destruct Hin as [<-|[<-|Hin]].
  - left. rewrite Hq in Hv by apply lookup_empty. split; [reflexivity|congruence].
  - right. left. rewrite Hr in Hv by apply lookup_empty. split; [reflexivity|congruence].
  - apply in_app_or in Hin as [Hin|Hin].
    + apply in_map_iff in Hin as (p & <- & Hin%in_range). do 2 right. left.
      exists (p + 1). split; [lia|]. split; [reflexivity|].
      rewrite Hp in Hv; [congruence|lia|apply lookup_empty].
    + apply in_map_iff in Hin as (c & <- & Hin%in_range). do 3 right. left.
      exists c. split; [lia|]. split; [reflexivity|].
      rewrite Hc in Hv; [congruence|lia|apply lookup_empty].
Qed.

Lemma code_classes k v : codes !! k = Some v -> code_class cfg scripts k v.
Proof.
  intros Hv.
  pose proof (codes_origin cfg scripts None k (lookup_empty k) ltac:(eauto)) as Hin.
  unfold code_names in Hin. rewrite !app_assoc in Hin.
  apply in_app_or in Hin as [Hin|Hin].
  - apply fixed_name_class; [|exact Hv]. now rewrite <- !app_assoc in Hin.
  - destruct (script_coded cfg scripts None names_nodup k Hin)
      as [(v' & Hf & Hv')|(_ & i & Hi & Hv')].
    + apply fixed_name_class; [|exact Hv].
      pose proof (codes_origin cfg [] None k (lookup_empty k)) as H0.
      unfold code_names in H0. cbn [map] in H0. rewrite !app_nil_r in H0.
      apply H0. unfold Text.assign_codes. cbn [map fold_left snd]. eauto.
    + fold codes in Hv'. do 4 right. exists i. split; [exact Hi|congruence].
Qed.

End FreshCodes.

(** X13: on a first run (no codes in the template) no two names share a
    code, as long as the player codes stay below 3000 and the card codes
    below 4000. *)
Theorem fresh_codes_distinct cfg :
  players cfg <= 998 -> Text.numCards cfg <= 1000 ->
  exists scripts,
    Text.scripts cfg = Some scripts
    /\ forall k1 k2 v,
         Text.assign_codes cfg scripts None !! k1 = Some v ->
         Text.assign_codes cfg scripts None !! k2 = Some v -> k1 = k2.
Proof.
  intros Hp Hc. destruct (scripts_total cfg) as [scripts E]. exists scripts.
  split; [exact E|]. pose proof (text_names_nodup cfg scripts E) as Hnd.
  intros k1 k2 v H1 H2.
  apply (code_classes cfg scripts Hnd) in H1, H2. unfold code_class in H1, H2.
  destruct H1 as [[-> V1]|[[-> V1]|[(p1 & Hp1 & -> & V1)|[(c1 & Hc1 & -> & V1)|(i1 & Hi1 & V1)]]]];
  destruct H2 as [[-> V2]|[[-> V2]|[(p2 & Hp2 & -> & V2)|[(c2 & Hc2 & -> & V2)|(i2 & Hi2 & V2)]]]];
    try reflexivity; try lia.
  - assert (p1 = p2) as -> by lia. reflexivity.
  - assert (c1 = c2) as -> by lia. reflexivity.
  - assert (i1 = i2) as -> by lia. congruence.
Qed.

Lemma fresh_codes_distinct_witness :
  players two_pairs <= 998 /\ Text.numCards two_pairs <= 1000
  /\ exists scripts,
       Text.scripts two_pairs = Some scripts
       /\ forall k1 k2 v,
            Text.assign_codes two_pairs scripts None !! k1 = Some v ->
            Text.assign_codes two_pairs scripts None !! k2 = Some v -> k1 = k2.
Proof.
  split; [cbn; lia|]. split; [cbn; lia|].
  apply (fresh_codes_distinct two_pairs); cbn; lia.
Defined.

(** ** Running the code assignment again *)

Lemma set_absent_present k v (m : gmap string Z) :
  is_Some (m !! k) -> Text.set_absent k v m = m.
Proof. intros [x Hx]. unfold Text.set_absent. now rewrite Hx. Qed.

Lemma player_codes_present (m : gmap string Z) l z :
  (forall p, In p l -> is_Some (m !! ("p" +:+ dec (p + 1)))) ->
  snd (fold_left Text.player_codes l (z, m)) = m.
Proof.
  revert z. induction l as [|p l IH]; intros z H; [reflexivity|].
  cbn [fold_left]. unfold Text.player_codes at 2. cbn [fst snd].
  rewrite set_absent_present by (apply H; now left).
  apply IH. intros q Hq. apply H. now right.
Qed.

Lemma card_codes_present (m : gmap string Z) l z :
  (forall c, In c l -> is_Some (m !! ("c" +:+ dec c))) ->
  snd (fold_left Text.card_codes l (z, m)) = m.
Proof.
  revert z. induction l as [|c l IH]; intros z H; [reflexivity|].
  cbn [fold_left]. unfold Text.card_codes at 2. cbn [fst snd].
  rewrite set_absent_present by (apply H; now left).
  apply IH. intros q Hq. apply H. now right.
Qed.

Lemma other_codes_present (m : gmap string Z) l z :
  (forall k, In k l -> is_Some (m !! k)) ->
  snd (fold_left Text.other_codes l (z, m)) = m.
Proof.
  revert z. induction l as [|k l IH]; intros z H; [reflexivity|].
  cbn [fold_left]. unfold Text.other_codes at 2. cbn [fst snd].
  destruct (H k ltac:(now left)) as [x ->].
  apply IH. intros q Hq. apply H. now right.
Qed.

(** X14: the code assignment is idempotent: given the table it produced, it
    produces the same table, so a template that carries the generated codes
    keeps the codes of every field and script. *)
Theorem codes_stable cfg scriptcodes :
  exists scripts,
    Text.scripts cfg = Some scripts
    /\ let codes := Text.assign_codes cfg scripts scriptcodes in
       Text.assign_codes cfg scripts (Some codes) = codes.
Proof.
  destruct (scripts_total cfg) as [scripts E]. exists scripts. split; [exact E|].
  pose proof (text_names_nodup cfg scripts E) as Hnd. cbv zeta.
  set (codes := Text.assign_codes cfg scripts scriptcodes).
  assert (Hfixed : Text.fixed_codes cfg (Some codes) = codes).
  { unfold Text.fixed_codes.
    rewrite (set_absent_present "q") by now apply question_coded.
    rewrite (set_absent_present "r") by now apply repeat_coded.
    rewrite player_codes_present.
    - apply card_codes_present. intros c Hc%in_range. apply card_coded; [exact Hnd|lia].
    - intros p Hp%in_range. apply player_coded; [exact Hnd|lia]. }
  unfold Text.assign_codes at 1. rewrite Hfixed. apply other_codes_present.
  intros k Hk.
  destruct (script_coded cfg scripts scriptcodes Hnd k Hk)
    as [(v & _ & Hv)|(_ & i & _ & Hv)]; fold codes in Hv; eauto.
Qed.

(** ** The cache of code images *)

(** A number followed by a character that is not a digit can be read back. *)
Lemma number_then_stop a b c r r' :
  number_ok a = true -> number_ok b = true -> Re.is_digit c = false ->
  a +:+ String c r = b +:+ String c r' -> a = b /\ r = r'.
Proof.
  intros Ha Hb Hc E.
  pose proof (span_stop Re.is_digit a c r Ha Hc) as Sa.
  pose proof (span_stop Re.is_digit b c r' Hb Hc) as Sb.
  rewrite E in Sa. rewrite Sa in Sb. split; congruence.
Qed.

(** X23: the cache of code images keeps the codes and the print settings
    apart: two images share a file only if they show the same code at the
    same resolution and pixel size. *)
Theorem oid_path_inj oid dpi pixelSize oid' dpi' pixelSize' :
  oid_path oid dpi pixelSize = oid_path oid' dpi' pixelSize' ->
  oid = oid' /\ dpi = dpi' /\ pixelSize = pixelSize'.
Proof.
  unfold oid_path. intros E.
  apply (String.app_inj "oid-cache/oid-") in E.
  apply (number_then_stop _ _ "-") in E as [Eo E];
    [|apply dec_number_ok|apply dec_number_ok|reflexivity].
  apply (number_then_stop _ _ "d") in E as [Ed E];
    [|apply dec_number_ok|apply dec_number_ok|reflexivity].
  apply (String.app_inj "pi-") in E.
  apply (number_then_stop _ _ "p") in E as [Ep _];
    [|apply dec_number_ok|apply dec_number_ok|reflexivity].
  apply dec_inj in Eo, Ed, Ep. auto.
Qed.

Lemma oid_path_inj_witness :
  oid_path 2000 1200 2 = oid_path 2000 1200 2
  /\ 2000 = 2000 /\ 1200 = 1200 /\ 2 = 2.
Proof. split; [reflexivity|]. apply (oid_path_inj 2000 1200 2 2000 1200 2). reflexivity. Defined.

(** ** Replacement of a literal *)

Section Replace.

Variables old new : string.
Hypothesis old_nonempty : old <> "".

Let m (t : string) : option (unit * string) :=
  option_map (fun r => (tt, r)) (Re.literal old t).

Lemma literal_consumes s a r : m s = Some (a, r) -> String.length r < String.length s.
Proof.
  unfold m. destruct (Re.literal old s) as [r'|] eqn:E; [|discriminate].
  intros [= _ <-]. apply literal_spec in E as ->. rewrite slength_app.
  destruct old; [contradiction|]. cbn. lia.
Qed.

(** A text without an occurrence is left as it is. *)
Lemma replace_absent s : contains old s = false -> replace old new s = s.
Proof.
  unfold replace. fold m. induction s as [|c s IH]; cbn [contains].
  - destruct (Re.literal old "") eqn:E; [discriminate|]. intros _.
    apply sub_nil. unfold m. now rewrite E.
  - destruct (Re.literal old (String c s)) eqn:E; [discriminate|]. intros H.
    rewrite sub_skip by (unfold m; now rewrite E). f_equal. now apply IH.
Qed.

Lemma replace_length n s :
  String.length s <= n -> String.length old <= String.length new ->
  String.length s <= String.length (replace old new s).
Proof.
  unfold replace. fold m. intros Hn Hlen. revert s Hn.
  induction n as [|n IH]; intros s Hn.
  - destruct s; [|cbn in Hn; lia]. cbn. lia.
  - destruct (m s) as [[u r]|] eqn:E.
    + rewrite (sub_match m _ literal_consumes _ _ _ E), slength_app.
      pose proof (literal_consumes _ _ _ E) as Hr.
      unfold m in E. destruct (Re.literal old s) as [r'|] eqn:E'; [|discriminate].
      cbn in E. injection E as _ <-. apply literal_spec in E' as ->.
      rewrite slength_app in *. specialize (IH r' ltac:(lia)). lia.
    + destruct s as [|c s]; [cbn; lia|].
      rewrite sub_skip by exact E. cbn [String.length] in *.
      specialize (IH s ltac:(lia)). lia.
Qed.

(** A text with an occurrence grows if the replacement is longer. *)
Lemma replace_present s :
  contains old s = true -> String.length old < String.length new ->
  String.length s < String.length (replace old new s).
Proof.
  intros Hc Hlen. induction s as [|c s IH]; cbn [contains] in Hc.
  - destruct (Re.literal old "") as [r|] eqn:E; [|discriminate].
    apply literal_spec in E. destruct old; [contradiction|discriminate].
  - unfold replace. fold m. destruct (Re.literal old (String c s)) as [r|] eqn:E.
    + assert (Em : m (String c s) = Some (tt, r)) by (unfold m; now rewrite E).
      rewrite (sub_match m _ literal_consumes _ _ _ Em).
      apply literal_spec in E. rewrite E, !slength_app.
      pose proof (replace_length (String.length r) r (Nat.le_refl _) ltac:(lia)) as Hr.
      unfold replace in Hr. fold m in Hr. lia.
    + rewrite sub_skip by (unfold m; now rewrite E). cbn [String.length].
      specialize (IH Hc). unfold replace in IH. fold m in IH. lia.
Qed.

End Replace.

Lemma replace_same old new s :
  old <> "" -> String.length old < String.length new ->
  (replace old new s = s <-> contains old s = false).
Proof.
  intros Hold Hlen. split.
  - intros E. destruct (contains old s) eqn:Ec; [|reflexivity].
    pose proof (replace_present old new Hold s Ec Hlen) as H. rewrite E in H. lia.
  - now apply replace_absent.
Qed.

(** ** The speak entries *)

Lemma speak_entry_lookup (d : gmap string string) key text k :
  speak_entry d key text !! k
  = match d !! k with
    | Some t => Some t
    | None => if decide (k = key) then Some text else None
    end.
Proof.
  unfold speak_entry. destruct (d !! key) eqn:E.
  - destruct (d !! k) eqn:Ek; [reflexivity|].
    destruct (decide (k = key)) as [->|]; [congruence|reflexivity].
  - destruct (decide (k = key)) as [->|Hne].
    + now rewrite lookup_insert_eq, E.
    + rewrite lookup_insert_ne by congruence. now destruct (d !! k).
Qed.

Lemma speak_pair_lookup alt (d : gmap string string) p k :
  speak_pair alt d p !! k
  = match d !! k with
    | Some t => Some t
    | None => if bool_decide (k ∈ speak_keys alt p) then Some p else None
    end.
Proof.
  unfold speak_pair, speak_keys. destruct alt.
  - rewrite !speak_entry_lookup. destruct (d !! k); [reflexivity|].
    destruct (decide (k = p +:+ "_a")) as [->|Ha].
    + rewrite bool_decide_eq_true_2; [reflexivity|apply list_elem_of_In; now left].
    + destruct (decide (k = p +:+ "_b")) as [->|Hb].
      * rewrite bool_decide_eq_true_2; [reflexivity|apply list_elem_of_In; right; now left].
      * rewrite bool_decide_eq_false_2; [reflexivity|].
        intros [E|[E|[]]]%list_elem_of_In; congruence.
  - rewrite speak_entry_lookup. destruct (d !! k); [reflexivity|].
    destruct (decide (k = p)) as [->|Hne].
    + rewrite bool_decide_eq_true_2; [reflexivity|apply list_elem_of_In; now left].
    + rewrite bool_decide_eq_false_2; [reflexivity|].
      intros [E|[]]%list_elem_of_In. congruence.
Qed.

Lemma speak_fold_kept alt prs (d : gmap string string) k t :
  d !! k = Some t -> fold_left (speak_pair alt) prs d !! k = Some t.
Proof.
  revert d. induction prs as [|p prs IH]; intros d H; [exact H|].
  cbn [fold_left]. apply IH. now rewrite speak_pair_lookup, H.
Qed.

Lemma speak_fold_added alt prs (d : gmap string string) p k :
  In p prs -> In k (speak_keys alt p) ->
  is_Some (fold_left (speak_pair alt) prs d !! k).
Proof.
  revert d. induction prs as [|p' prs IH]; intros d; [intros []|].
  intros [->|Hin] Hk; cbn [fold_left].
  - destruct (speak_pair alt d p !! k) as [t|] eqn:E.
    + exists t. now apply speak_fold_kept.
    + rewrite speak_pair_lookup in E. destruct (d !! k); [discriminate|].
      rewrite bool_decide_eq_true_2 in E by now apply list_elem_of_In. discriminate.
  - now apply IH.
Qed.

Lemma speak_fold_origin alt prs (d : gmap string string) k t :
  fold_left (speak_pair alt) prs d !! k = Some t ->
  d !! k = Some t
  \/ (d !! k = None /\ In t prs /\ In k (speak_keys alt t)).
Proof.
  revert d. induction prs as [|p prs IH]; intros d; cbn [fold_left]; [now left|].
  intros H. apply IH in H as [H|(H & Hin & Hk)].
  - rewrite speak_pair_lookup in H. destruct (d !! k) as [t'|] eqn:E; [now left|].
    destruct (bool_decide (k ∈ speak_keys alt p)) eqn:Eb; [|discriminate].
    injection H as <-. apply bool_decide_eq_true, list_elem_of_In in Eb.
    right. repeat split; auto.
    now left.
  - rewrite speak_pair_lookup in H. destruct (d !! k) eqn:E; [discriminate|].
    right. repeat split; auto. now right.
Qed.

Section DropRecorded.

Variable isfile : string -> bool.
Variable mediaPath : string.

Lemma drop_recorded_loop l (m : gmap string string) :
  NoDup l -> (forall k, In k l -> is_Some (m !! k)) ->
  exists m',
    fold_left (drop_recorded isfile mediaPath) l (Done m) = Done m'
    /\ forall k, m' !! k
                 = if bool_decide (k ∈ l) && has_audio isfile mediaPath k
                   then None else m !! k.
Proof.
  revert m. induction l as [|k0 l IH]; intros m Hnd Hin.
  - exists m. split; [reflexivity|]. intros k.
    rewrite bool_decide_eq_false_2; [reflexivity|]. now intros []%list_elem_of_In.
  - apply NoDup_cons in Hnd as [Hk0 Hnd]. rewrite list_elem_of_In in Hk0.
    cbn [fold_left drop_recorded].
    destruct (has_audio isfile mediaPath k0) eqn:Ea.
    + destruct (Hin k0 ltac:(now left)) as [t Et]. rewrite Et.
      destruct (IH (delete k0 m) Hnd) as (m' & Em & Hm').
      { intros k Hk. rewrite lookup_delete_ne by (intros ->; contradiction).
        apply Hin. now right. }
      exists m'. split; [exact Em|]. intros k. rewrite Hm'.
      destruct (decide (k = k0)) as [->|Hne].
      * rewrite (bool_decide_eq_false_2 (k0 ∈ l)) by now rewrite list_elem_of_In.
        rewrite (bool_decide_eq_true_2 (k0 ∈ k0 :: l)) by (apply list_elem_of_In; now left).
        cbn [andb]. now rewrite Ea, lookup_delete_eq.
      * rewrite lookup_delete_ne by congruence.
        destruct (bool_decide_reflect (k ∈ l)) as [Hl|Hl].
        -- rewrite bool_decide_eq_true_2; [reflexivity|].
           apply list_elem_of_In. right. now apply list_elem_of_In.
        -- rewrite bool_decide_eq_false_2; [reflexivity|].
           intros [E|H]%list_elem_of_In; [congruence|].
           now apply Hl, list_elem_of_In.
    + destruct (IH m Hnd) as (m' & Em & Hm').
      { intros k Hk. apply Hin. now right. }
      exists m'. split; [exact Em|]. intros k. rewrite Hm'.
      destruct (decide (k = k0)) as [->|Hne].
      * rewrite Ea, !andb_false_r. reflexivity.
      * destruct (bool_decide_reflect (k ∈ l)) as [Hl|Hl].
        -- rewrite bool_decide_eq_true_2; [reflexivity|].
           apply list_elem_of_In. right. now apply list_elem_of_In.
        -- rewrite bool_decide_eq_false_2; [reflexivity|].
           intros [E|H]%list_elem_of_In; [congruence|].
           now apply Hl, list_elem_of_In.
Qed.

(** The loop over the recorded names never fails, and keeps exactly the
    entries without an audio file. *)
Lemma drop_recorded_all (m : gmap string string) :
  exists m',
    fold_left (drop_recorded isfile mediaPath) (map fst (map_to_list m)) (Done m) = Done m'
    /\ forall k, m' !! k = if has_audio isfile mediaPath k then None else m !! k.
Proof.
  destruct (drop_recorded_loop (map fst (map_to_list m)) m) as (m' & Em & Hm').
  - apply NoDup_fst_map_to_list.
  - intros k (kv & <- & Hkv)%in_map_iff. destruct kv as [k v].
    apply list_elem_of_In, elem_of_map_to_list in Hkv. now exists v.
  - exists m'. split; [exact Em|]. intros k. rewrite Hm'.
    destruct (m !! k) as [v|] eqn:Ek.
    + rewrite bool_decide_eq_true_2; [reflexivity|].
      apply list_elem_of_In, in_map_iff. exists (k, v). split; [reflexivity|].
      now apply list_elem_of_In, elem_of_map_to_list.
    + destruct (bool_decide _), (has_audio isfile mediaPath k); reflexivity.
Qed.

End DropRecorded.

(** ** Narration names and speak keys *)

Section SoundKeys.

Variable cfg : config.

Lemma sound_key c :
  1 <= c <= Text.numCards cfg ->
  In (nth (pair_index cfg c) (pairs cfg) "") (pairs cfg)
  /\ In (Text.sound cfg c)
        (speak_keys (alternativeSounds cfg) (nth (pair_index cfg c) (pairs cfg) "")).
Proof.
  intros Hc. destruct (sound_in_range cfg c Hc) as [Hi ->]. split; [now apply nth_In|].
  unfold speak_keys, sound_suffix.
  destruct (alternativeSounds cfg).
  - destruct (c <=? Text.numPairs cfg)%nat; [now left | right; now left].
  - rewrite sapp_nil_r. now left.
Qed.

Lemma key_sound p k :
  In p (pairs cfg) -> In k (speak_keys (alternativeSounds cfg) p) ->
  exists c, 1 <= c <= Text.numCards cfg /\ k = Text.sound cfg c
            /\ p = nth (pair_index cfg c) (pairs cfg) "".
Proof.
  intros Hp Hk. destruct (In_nth _ _ "" Hp) as (i & Hi & Ei).
  fold (Text.numPairs cfg) in Hi.
  assert (Hn : Text.numCards cfg = Text.numPairs cfg * 2) by reflexivity.
  assert (Hlow : forall c, c = i + 1 ->
            1 <= c <= Text.numCards cfg /\ pair_index cfg c = i
            /\ (c <=? Text.numPairs cfg)%nat = true).
  { intros c ->. unfold pair_index.
    assert ((i + 1 <=? Text.numPairs cfg)%nat = true) as E by (apply Nat.leb_le; lia).
    rewrite E. repeat split; lia. }
  assert (Hhigh : forall c, c = Text.numCards cfg - i ->
            1 <= c <= Text.numCards cfg /\ pair_index cfg c = i
            /\ (c <=? Text.numPairs cfg)%nat = false).
  { intros c ->. unfold pair_index.
    assert ((Text.numCards cfg - i <=? Text.numPairs cfg)%nat = false) as E
      by (apply Nat.leb_gt; lia).
    rewrite E. repeat split; lia. }
  unfold speak_keys in Hk.
  destruct (alternativeSounds cfg) eqn:Ea.
  - destruct Hk as [<-|[<-|[]]].
    + destruct (Hlow (i + 1) eq_refl) as (Hc & Hpi & Hle). exists (i + 1).
      split; [exact Hc|]. destruct (sound_in_range cfg _ Hc) as [_ ->].
      unfold sound_suffix. now rewrite Hpi, Ei, Ea, Hle.
    + destruct (Hhigh _ eq_refl) as (Hc & Hpi & Hle). exists (Text.numCards cfg - i).
      split; [exact Hc|]. destruct (sound_in_range cfg _ Hc) as [_ ->].
      unfold sound_suffix. now rewrite Hpi, Ei, Ea, Hle.
  - destruct Hk as [<-|[]].
    destruct (Hlow (i + 1) eq_refl) as (Hc & Hpi & Hle). exists (i + 1).
    split; [exact Hc|]. destruct (sound_in_range cfg _ Hc) as [_ ->].
    unfold sound_suffix. now rewrite Hpi, Ei, Ea, sapp_nil_r.
Qed.

End SoundKeys.

(** X20: the speak entries that the program writes: the entries of the
    template and one entry per narration name of a card that the template
    lacks, with the pair as its text, less the entries for which an audio
    file exists. The entry is dropped from the output when none is left. *)
Theorem speak_entries_result isfile cfg game out :
  speak_entries isfile game (pairs cfg) (alternativeSounds cfg) = Done out ->
  exists d,
    Template.speak game = Some d
    /\ let mediaPath := default "media/%s" (Template.media_path game) in
       let missing := default ∅ out in
       (forall m, out = Some m -> m <> ∅)
       /\ (forall k t, missing !! k = Some t ->
             has_audio isfile mediaPath k = false
             /\ (d !! k = Some t
                 \/ (d !! k = None
                     /\ exists c, 1 <= c <= Text.numCards cfg /\ k = Text.sound cfg c
                                  /\ t = nth (pair_index cfg c) (pairs cfg) "")))
       /\ (forall k t, d !! k = Some t -> has_audio isfile mediaPath k = false ->
                       missing !! k = Some t)
       /\ (forall c, 1 <= c <= Text.numCards cfg ->
                     has_audio isfile mediaPath (Text.sound cfg c) = false ->
                     is_Some (missing !! Text.sound cfg c)).
Proof.
  unfold speak_entries.
  destruct (Template.speak game) as [d|]; [|destruct (pairs cfg); discriminate].
  cbv zeta. set (mediaPath := default "media/%s" (Template.media_path game)).
  set (speak := fold_left (speak_pair (alternativeSounds cfg)) (pairs cfg) d).
  destruct (drop_recorded_all isfile mediaPath speak) as (m' & -> & Hm').
  intros [= <-]. exists d. split; [reflexivity|].
  assert (Hlook : forall k, default ∅ (if (size m' =? 0)%nat then None else Some m') !! k
                            = m' !! k).
  { intros k. destruct (size m' =? 0)%nat eqn:E; [|reflexivity].
    apply Nat.eqb_eq, map_size_empty_iff in E. now subst m'. }
  split; [|split; [|split]].
  - intros m. destruct (size m' =? 0)%nat eqn:E; [discriminate|]. intros [= <-] ->.
    now rewrite map_size_empty in E.
  - intros k t. rewrite Hlook, Hm'.
    destruct (has_audio isfile mediaPath k); [discriminate|]. intros H.
    split; [reflexivity|].
    apply speak_fold_origin in H as [H|(H & Hin & Hk)]; [now left|right].
    split; [exact H|]. now apply key_sound.
  - intros k t Hd Ha. rewrite Hlook, Hm', Ha. now apply speak_fold_kept.
  - intros c Hc Ha. rewrite Hlook, Hm', Ha.
    destruct (sound_key cfg c Hc) as [Hp Hk]. eapply speak_fold_added; eassumption.
Qed.

Lemma speak_entries_result_witness :
  let out := Some ({[ "dog" := "a dog" ]} : gmap string string) in
  speak_entries cat_recorded sample_game (pairs two_pairs) (alternativeSounds two_pairs)
  = Done out
  /\ exists d,
       Template.speak sample_game = Some d
       /\ let mediaPath := default "media/%s" (Template.media_path sample_game) in
          let missing := default ∅ out in
          (forall m, out = Some m -> m <> ∅)
          /\ (forall k t, missing !! k = Some t ->
                has_audio cat_recorded mediaPath k = false
                /\ (d !! k = Some t
                    \/ (d !! k = None
                        /\ exists c, 1 <= c <= Text.numCards two_pairs
                                     /\ k = Text.sound two_pairs c
                                     /\ t = nth (pair_index two_pairs c) (pairs two_pairs) "")))
          /\ (forall k t, d !! k = Some t -> has_audio cat_recorded mediaPath k = false ->
                          missing !! k = Some t)
          /\ (forall c, 1 <= c <= Text.numCards two_pairs ->
                        has_audio cat_recorded mediaPath (Text.sound two_pairs c) = false ->
                        is_Some (missing !! Text.sound two_pairs c)).
Proof.
  cbv zeta. split; [vm_compute; reflexivity|].
  apply (speak_entries_result cat_recorded two_pairs sample_game). vm_compute. reflexivity.
Defined.

(** ** The run of the generator *)

Section RunFacts.

Variable isfile : string -> bool.
Variable template : string.
Variable play : bool.

Lemma speak_entries_done game prs alt :
  is_Some (Template.speak game) -> exists out, speak_entries isfile game prs alt = Done out.
Proof.
  intros [d Hd]. unfold speak_entries. rewrite Hd. cbv zeta.
  destruct (drop_recorded_all isfile (default "media/%s" (Template.media_path game))
              (fold_left (speak_pair alt) prs d)) as (m' & -> & _).
  eauto.
Qed.

(** X17: the program reaches the writing of its output exactly when the
    template is a map with a [memory] section that lists the pairs, a
    product id, a welcome narration and a speak section, and the names of
    the two output files differ from the name of the template. *)
Theorem run_succeeds doc :
  (exists g, run isfile template play doc = Done g)
  <-> exists game memory,
        doc = Some game
        /\ Template.memory_section game = Some memory
        /\ is_Some (Template.product_id game)
        /\ is_Some (Template.pairs memory)
        /\ output_file template memory <> template
        /\ output_image template memory <> template
        /\ is_Some (Template.welcome game)
        /\ is_Some (Template.speak game).
Proof.
  split.
  - intros [g Hg]. destruct doc as [game|]; [|discriminate]. cbn [run] in Hg.
    destruct (Template.memory_section game) as [memory|] eqn:Em.
    2: { cbn in Hg. destruct (Template.product_id game); discriminate. }
    cbn [default from_option id] in Hg. exists game, memory.
    destruct (Template.product_id game) as [pid|]; [|discriminate].
    destruct (Template.pairs memory) as [prs|]; [|discriminate].
    destruct (String.eqb_spec (output_file template memory) template) as [|Hf]; [discriminate|].
    destruct (String.eqb_spec (output_image template memory) template) as [|Hi]; [discriminate|].
    destruct (Template.welcome game) as [w|].
    2: { destruct (Text.variables _); discriminate. }
    destruct (Text.scripts _) as [scripts|]; [|discriminate].
    destruct (Template.speak game) as [d|] eqn:Es.
    2: { unfold speak_entries in Hg. rewrite Es in Hg. destruct prs; discriminate. }
    repeat split; eauto.
  - intros (game & memory & -> & Em & [pid Ep] & [prs Epr] & Hf & Hi & [w Ew] & Hs).
    cbn [run]. rewrite Em, Ep. cbn [default from_option id]. rewrite Epr.
    apply String.eqb_neq in Hf, Hi. rewrite Hf, Hi, Ew.
    destruct (scripts_total (settings memory game prs w)) as [scripts ->].
    destruct (speak_entries_done game prs
                (alternativeSounds (settings memory game prs w)) Hs) as [out ->].
    eauto.
Qed.

(** What the program writes: the settings that the template leaves open
    take their defaults (four players, language [en], one narration per
    pair), and the play-mode pass touches the scripts only. *)
Lemma run_output doc g :
  run isfile template play doc = Done g ->
  exists game memory prs w scripts speak,
    doc = Some game
    /\ Template.memory_section game = Some memory
    /\ Template.pairs memory = Some prs
    /\ Template.welcome game = Some w
    /\ let cfg := Config prs (default 4 (Template.maxPlayers memory))
                    (default false (Template.alternativeSounds memory))
                    (default "en" (Template.language game)) w in
       Text.scripts cfg = Some scripts
       /\ speak_entries isfile game prs (alternativeSounds cfg) = Done speak
       /\ g = Generated (output_file template memory) (Text.init cfg)
                (if play then Text.play_scripts scripts else scripts) speak
                (Text.assign_codes cfg scripts (Template.scriptcodes game)).
Proof.
  intros Hg. destruct doc as [game|]; [|discriminate]. cbn [run] in Hg.
  destruct (Template.memory_section game) as [memory|] eqn:Em.
  2: { cbn in Hg. destruct (Template.product_id game); discriminate. }
  cbn [default from_option id] in Hg.
  destruct (Template.product_id game) as [pid|]; [|discriminate].
  destruct (Template.pairs memory) as [prs|] eqn:Epr; [|discriminate].
  destruct (String.eqb (output_file template memory) template); [discriminate|].
  destruct (String.eqb (output_image template memory) template); [discriminate|].
  destruct (Template.welcome game) as [w|] eqn:Ew.
  2: { destruct (Text.variables _); discriminate. }
  unfold settings in Hg.
  destruct (Text.scripts _) as [scripts|] eqn:Esc; [|discriminate].
  destruct (speak_entries _ _ _ _) as [speak|f] eqn:Esp; [|discriminate].
  injection Hg as <-. exists game, memory, prs, w, scripts, speak.
  repeat split; auto.
Qed.

(** X18: two sections that the program cannot do without, although it reads
    them as if they were optional: without [memory] the lookup of the pairs
    fails, and without [speak] the speak entries cannot be written. *)
Theorem sections_required game :
  (Template.memory_section game = None ->
   run isfile template play (Some game)
   = Fails (match Template.product_id game with
            | Some _ => KeyError "pairs"
            | None => Exit NoProductId
            end))
  /\ (Template.speak game = None ->
      forall memory prs,
        Template.memory_section game = Some memory ->
        is_Some (Template.product_id game) ->
        Template.pairs memory = Some prs ->
        output_file template memory <> template ->
        output_image template memory <> template ->
        is_Some (Template.welcome game) ->
        run isfile template play (Some game)
        = Fails (match prs with
                 | [] => KeyError "speak"
                 | _ :: _ => TypeError
                 end)).
Proof.
  split.
  - intros Em. cbn [run]. rewrite Em. cbn.
    now destruct (Template.product_id game).
  - intros Es memory prs Em [pid Ep] Epr Hf Hi [w Ew].
    cbn [run]. rewrite Em, Ep. cbn [default from_option id]. rewrite Epr.
    apply String.eqb_neq in Hf, Hi. rewrite Hf, Hi, Ew.
    destruct (scripts_total (settings memory game prs w)) as [scripts ->].
    unfold speak_entries. rewrite Es. now destruct prs.
Qed.

End RunFacts.

(** X19: the default names of the output files differ from the name of the
    template exactly when that name contains [.yaml]; a template with
    another name and no [outputFile] setting is refused. *)
Theorem default_output_names template memory :
  (Template.outputFile memory = None ->
   (output_file template memory = template <-> contains ".yaml" template = false))
  /\ (Template.outputImage memory = None ->
      (output_image template memory = template <-> contains ".yaml" template = false))
  /\ (forall isfile play game prs,
        Template.memory_section game = Some memory ->
        is_Some (Template.product_id game) ->
        Template.pairs memory = Some prs ->
        Template.outputFile memory = None ->
        contains ".yaml" template = false ->
        run isfile template play (Some game) = Fails (Exit SameOutputFile)).
Proof.
  assert (Hfile : Template.outputFile memory = None ->
            (output_file template memory = template <-> contains ".yaml" template = false)).
  { intros E. unfold output_file. rewrite E. cbn [default from_option id].
    apply replace_same; [discriminate|cbn; lia]. }
  split; [exact Hfile|]. split.
  - intros E. unfold output_image. rewrite E. cbn [default from_option id].
    apply replace_same; [discriminate|].
    rewrite !slength_app. cbn [String.length].
    pose proof (dec_nonempty (default 1200 (Template.dpi memory))) as H1.
    destruct (dec (default 1200 (Template.dpi memory))); [contradiction|].
    cbn [String.length]. lia.
  - intros isfile play game prs Em [pid Ep] Epr Ef Hc.
    cbn [run]. rewrite Em, Ep. cbn [default from_option id]. rewrite Epr.
    apply (proj2 (Hfile Ef)) in Hc. apply String.eqb_eq in Hc. now rewrite Hc.
Qed.
